(** * suno-parser-mcp: the [/parse] and [/extract] handlers

    A shallow embedding of the fastify server of the repository (the
    version that extracts from [__NEXT_DATA__], from the
    [self.__next_f.push] stream and from generic JSON scripts) and the
    properties of its extraction pipeline.

    JavaScript strings are lists of UTF-16 code units, JSON values are a
    tree type, the regular expressions of the source are syntax trees run
    by a backtracking matcher that follows the continuation semantics of
    ECMA-262, and the two handlers are functions from the fetched page to
    the reply they send. *)

From Stdlib Require Import String Ascii.
From Stdlib Require Import List NArith ZArith Bool Arith Lia.
Import ListNotations.

Set Implicit Arguments.
Set Warnings "-register-all".

(* ================================================================== *)
(** ** JavaScript strings *)
(* ================================================================== *)

Module JS.

(** A string is a sequence of UTF-16 code units. *)
Definition jstring := list N.

Definition cu (a : ascii) : N := N_of_ascii a.

(** The double quote. *)
Definition dq : N := 34%N.

(** [lit s] is the JavaScript string written [s]; in [s] a backtick
    stands for the double quote, so that pages and JSON texts can be
    written as one literal. *)
Fixpoint lit (s : string) : jstring :=
  match s with
  | EmptyString => []
  | String a s' => (if N.eqb (cu a) 96 then dq else cu a) :: lit s'
  end.

Definition eqb_str (a b : jstring) : bool :=
  if list_eq_dec N.eq_dec a b then true else false.

(** [WhiteSpace] and [LineTerminator] of ECMA-262: what [\s] and
    [String.prototype.trim] take for white space. *)
Definition is_line_terminator (c : N) : bool :=
  (N.eqb c 10 || N.eqb c 13 || N.eqb c 8232 || N.eqb c 8233)%N.

Definition is_space (c : N) : bool :=
  (N.eqb c 9 || N.eqb c 10 || N.eqb c 11 || N.eqb c 12 || N.eqb c 13
   || N.eqb c 32 || N.eqb c 160 || N.eqb c 5760
   || (N.leb 8192 c && N.leb c 8202)
   || N.eqb c 8232 || N.eqb c 8233 || N.eqb c 8239 || N.eqb c 8287
   || N.eqb c 12288 || N.eqb c 65279)%N.

(** [s.startsWith(p)] *)
Fixpoint startsWith (s p : jstring) {struct p} : bool :=
  match p, s with
  | [], _ => true
  | _ :: _, [] => false
  | a :: p', b :: s' => N.eqb a b && startsWith s' p'
  end.

(** [s.indexOf(p, 0)] scanning from the head of [s]; [from] is the index
    of the head of [s] in the whole string. *)
Fixpoint indexOf_from (from : nat) (s p : jstring) : option nat :=
  if startsWith s p then Some from
  else match s with
       | [] => None
       | _ :: s' => indexOf_from (S from) s' p
       end.

Definition indexOf (s p : jstring) : option nat := indexOf_from 0 s p.

(** [s.indexOf(p, k)]: the first occurrence at an index [>= k]. *)
Definition indexOf_at (s p : jstring) (k : nat) : option nat :=
  indexOf_from (min k (length s)) (skipn k s) p.

Definition includes (s p : jstring) : bool :=
  match indexOf s p with Some _ => true | None => false end.

(** [s.lastIndexOf(p, k)]: the last occurrence at an index [<= k]. *)
Fixpoint lastIndexOf_from (from : nat) (s p : jstring) (k : nat)
  (best : option nat) : option nat :=
  let best' := if startsWith s p then Some from else best in
  match k, s with
  | S k', _ :: s' => lastIndexOf_from (S from) s' p k' best'
  | _, _ => best'
  end.

Definition lastIndexOf (s p : jstring) (k : nat) : option nat :=
  lastIndexOf_from 0 s p k None.

(** The index a search method returns: [-1] when nothing is found. *)
Definition index_or_minus1 (o : option nat) : Z :=
  match o with Some i => Z.of_nat i | None => (-1)%Z end.

(** [s.substring(a, b)]: both indices are clamped to [0 .. s.length] and
    swapped when [a > b]. *)
Definition substring (s : jstring) (a b : Z) : jstring :=
  let clamp (i : Z) := Z.to_nat (Z.min (Z.max 0 i) (Z.of_nat (length s))) in
  let lo := min (clamp a) (clamp b) in
  let hi := max (clamp a) (clamp b) in
  firstn (hi - lo) (skipn lo s).

(** [s.slice(0, n)] *)
Definition slice0 (s : jstring) (n : nat) : jstring := firstn n s.

Fixpoint trimStart (s : jstring) : jstring :=
  match s with
  | c :: s' => if is_space c then trimStart s' else s
  | [] => []
  end.

Definition trimEnd (s : jstring) : jstring := rev (trimStart (rev s)).

Definition trim (s : jstring) : jstring := trimEnd (trimStart s).

(** [s.split(sep).length] for a separator of one code unit. *)
Definition split_count (s : jstring) (sep : N) : nat :=
  S (length (filter (N.eqb sep) s)).

(** [s.replace(p, r)] with a string pattern: the first occurrence only. *)
Fixpoint replace_first (s p r : jstring) : jstring :=
  if startsWith s p then r ++ skipn (length p) s
  else match s with
       | [] => []
       | c :: s' => c :: replace_first s' p r
       end.

End JS.
Import JS.

(* ================================================================== *)
(** ** Regular expressions *)
(* ================================================================== *)

Module Regex.

(** The members of a character class. *)
Inductive class_item : Type :=
| CChar (c : N)              (* one character *)
| CRange (lo hi : N)         (* [lo-hi] *)
| CSpace                     (* \s *)
| CNonSpace.                 (* \S *)

(** The patterns the source uses.  Capturing groups carry their number
    (counted from 1 by opening parenthesis); a non-capturing group is
    the pattern inside it. *)
Inductive regex : Type :=
| REmpty
| RChar (c : N)
| RDot
| RClass (negated : bool) (items : list class_item)
| RSeq (r1 r2 : regex)
| RAlt (r1 r2 : regex)
| RQuant (r : regex) (min : nat) (max : option nat) (greedy : bool)
| RGroup (i : nat) (r : regex)
| RLookahead (r : regex)
| RBol
| REol.

Record flags : Type := { ignoreCase : bool; dotAll : bool }.

Definition no_flags : flags := {| ignoreCase := false; dotAll := false |}.
Definition flag_i : flags := {| ignoreCase := true; dotAll := false |}.
Definition flag_s : flags := {| ignoreCase := false; dotAll := true |}.

(** The state of a match: the input still to read, the index of its
    first code unit, and the captures so far (group [i] at index
    [i - 1]). *)
Record mstate : Type :=
  { ms_rest : jstring; ms_pos : nat; ms_caps : list (option jstring) }.

Definition cont : Type := mstate -> option mstate.
Definition matcher : Type := mstate -> cont -> option mstate.

(** [Canonicalize] without the [u] flag, as far as the patterns of this
    program can tell: every pattern character and every listed class
    member of the source is ASCII, and no code unit above 127
    canonicalizes to one below 128, so only the case of the ASCII
    letters matters. *)
Definition is_lower (c : N) : bool := (N.leb 97 c && N.leb c 122)%N.
Definition is_upper (c : N) : bool := (N.leb 65 c && N.leb c 90)%N.

Definition canon (fl : flags) (c : N) : N :=
  if ignoreCase fl && is_lower c then (c - 32)%N else c.

Definition swapcase (c : N) : N :=
  if is_lower c then (c - 32)%N else if is_upper c then (c + 32)%N else c.

Definition item_mem (it : class_item) (c : N) : bool :=
  match it with
  | CChar a => N.eqb a c
  | CRange lo hi => (N.leb lo c && N.leb c hi)%N
  | CSpace => is_space c
  | CNonSpace => negb (is_space c)
  end.

(** Some member [a] of the class has [canon a = canon c]. *)
Definition class_mem (fl : flags) (items : list class_item) (c : N) : bool :=
  existsb (fun it => item_mem it c
                     || (ignoreCase fl && item_mem it (swapcase c))) items.

(** The tests of the one-character patterns: a character, the dot and a
    class. *)
Definition char_ok (fl : flags) (a : N) (ch : N) : bool :=
  N.eqb (canon fl ch) (canon fl a).

Definition dot_ok (fl : flags) (ch : N) : bool :=
  dotAll fl || negb (is_line_terminator ch).

Definition class_ok (fl : flags) (negated : bool) (items : list class_item)
  (ch : N) : bool :=
  xorb negated (class_mem fl items ch).

Definition advance (x : mstate) (rest' : jstring) : mstate :=
  {| ms_rest := rest'; ms_pos := S (ms_pos x); ms_caps := ms_caps x |}.

(** A matcher for one character accepted by [ok]. *)
Definition char_matcher (ok : N -> bool) : matcher :=
  fun x c =>
    match ms_rest x with
    | ch :: rest' => if ok ch then c (advance x rest') else None
    | [] => None
    end.

Fixpoint set_nth (i : nat) (v : option jstring) (l : list (option jstring))
  : list (option jstring) :=
  match i, l with
  | _, [] => []
  | 0, _ :: l' => v :: l'
  | S i', a :: l' => a :: set_nth i' v l'
  end.

Definition set_cap (i : nat) (v : option jstring) (x : mstate) : mstate :=
  {| ms_rest := ms_rest x; ms_pos := ms_pos x;
     ms_caps := set_nth (pred i) v (ms_caps x) |}.

(** The numbers of the capturing groups inside a pattern. *)
Fixpoint groups (r : regex) : list nat :=
  match r with
  | RSeq a b | RAlt a b => groups a ++ groups b
  | RQuant a _ _ _ | RLookahead a => groups a
  | RGroup i a => i :: groups a
  | _ => []
  end.

Definition clear_caps (gs : list nat) (x : mstate) : mstate :=
  fold_left (fun y i => set_cap i None y) gs x.

Definition dec_max (max : option nat) : option nat := option_map pred max.

Definition max_is_zero (max : option nat) : bool :=
  match max with Some 0 => true | _ => false end.

(** [RepeatMatcher] once its minimum is used up.  An iteration that
    reads nothing is refused, so an iteration shortens the input and
    [fuel], the length of the input that was left when the loop began,
    bounds the iterations; with no input left only the continuation can
    succeed. *)
Fixpoint repeat_star (m : matcher) (gs : list nat) (greedy : bool)
  (fuel : nat) (max : option nat) (x : mstate) (c : cont) : option mstate :=
  if max_is_zero max then c x else
  match fuel with
  | 0 => c x
  | S fuel' =>
      let d : cont := fun y =>
        if ms_pos y <=? ms_pos x then None
        else repeat_star m gs greedy fuel' (dec_max max) y c in
      if greedy then
        match m (clear_caps gs x) d with
        | Some z => Some z
        | None => c x
        end
      else
        match c x with
        | Some z => Some z
        | None => m (clear_caps gs x) d
        end
  end.

(** [RepeatMatcher] while the minimum is not reached. *)
Fixpoint repeat_min (m : matcher) (gs : list nat) (greedy : bool)
  (min : nat) (max : option nat) (x : mstate) (c : cont) : option mstate :=
  match min with
  | 0 => repeat_star m gs greedy (length (ms_rest x)) max x c
  | S min' =>
      if max_is_zero max then c x
      else m (clear_caps gs x)
             (fun y => repeat_min m gs greedy min' (dec_max max) y c)
  end.

(** The matcher of a pattern (ECMA-262, CompileSubpattern and
    CompileAtom, read left to right). *)
Fixpoint compile (fl : flags) (r : regex) : matcher :=
  match r with
  | REmpty => fun x c => c x
  | RChar a => char_matcher (char_ok fl a)
  | RDot => char_matcher (dot_ok fl)
  | RClass negated items => char_matcher (class_ok fl negated items)
  | RSeq r1 r2 =>
      fun x c => compile fl r1 x (fun y => compile fl r2 y c)
  | RAlt r1 r2 =>
      fun x c =>
        match compile fl r1 x c with
        | Some z => Some z
        | None => compile fl r2 x c
        end
  | RQuant r' min max greedy =>
      repeat_min (compile fl r') (groups r') greedy min max
  | RGroup i r' =>
      fun x c =>
        compile fl r' x
          (fun y =>
             c (set_cap i (Some (firstn (ms_pos y - ms_pos x) (ms_rest x))) y))
  | RLookahead r' =>
      fun x c =>
        match compile fl r' x (fun y => Some y) with
        | Some y =>
            c {| ms_rest := ms_rest x; ms_pos := ms_pos x;
                 ms_caps := ms_caps y |}
        | None => None
        end
  | RBol => fun x c => if ms_pos x =? 0 then c x else None
  | REol => fun x c => match ms_rest x with [] => c x | _ => None end
  end.

(** What a successful match reports: its index, the matched text
    ([m[0]]) and the groups ([m[1]], [m[2]], ...; [None] is
    [undefined]). *)
Record match_result : Type :=
  { mr_index : nat; mr_text : jstring; mr_groups : list (option jstring) }.

Definition ngroups (r : regex) : nat := fold_right max 0 (groups r).

(** One attempt, at the index [pos] where [rest] begins. *)
Definition match_at (fl : flags) (r : regex) (pos : nat) (rest : jstring)
  : option match_result :=
  match compile fl r
          {| ms_rest := rest; ms_pos := pos;
             ms_caps := repeat None (ngroups r) |}
          (fun y => Some y) with
  | Some y => Some {| mr_index := pos;
                      mr_text := firstn (ms_pos y - pos) rest;
                      mr_groups := ms_caps y |}
  | None => None
  end.

(** [RegExpBuiltinExec] from [lastIndex = pos]: the first index at which
    an attempt succeeds. *)
Fixpoint exec_from (fl : flags) (r : regex) (pos : nat) (rest : jstring)
  : option match_result :=
  match match_at fl r pos rest with
  | Some res => Some res
  | None =>
      match rest with
      | [] => None
      | _ :: rest' => exec_from fl r (S pos) rest'
      end
  end.

(** [s.match(re)] for a pattern without the [g] flag. *)
Definition exec (fl : flags) (r : regex) (s : jstring) : option match_result :=
  exec_from fl r 0 s.

(** [re.test(s)] *)
Definition test (fl : flags) (r : regex) (s : jstring) : bool :=
  match exec fl r s with Some _ => true | None => false end.

(** All the matches of a pattern with the [g] flag, left to right.
    [skip] code units are passed over before the next attempt: after a
    match of length [n > 0] the search resumes at its end, after an
    empty match one code unit further. *)
Fixpoint all_from (fl : flags) (r : regex) (pos : nat) (rest : jstring)
  (skip : nat) : list match_result :=
  match skip with
  | S k =>
      match rest with
      | [] => []
      | _ :: rest' => all_from fl r (S pos) rest' k
      end
  | 0 =>
      match match_at fl r pos rest with
      | Some res =>
          res :: match rest with
                 | [] => []
                 | _ :: rest' =>
                     all_from fl r (S pos) rest' (pred (length (mr_text res)))
                 end
      | None =>
          match rest with
          | [] => []
          | _ :: rest' => all_from fl r (S pos) rest' 0
          end
      end
  end.

(** [[...s.matchAll(re)]] *)
Definition matchAll (fl : flags) (r : regex) (s : jstring)
  : list match_result := all_from fl r 0 s 0.

(** [s.match(re)] with the [g] flag: the matched texts, or [null]
    ([None]) when there is none. *)
Definition match_global (fl : flags) (r : regex) (s : jstring)
  : option (list jstring) :=
  match matchAll fl r s with
  | [] => None
  | l => Some (map mr_text l)
  end.

(** [s.replace(re, f)] with the [g] flag; [f] gives the replacement of
    each match (a constant function for a replacement string, none of
    which contains a dollar sign in this program). *)
Fixpoint replace_from (fl : flags) (r : regex) (f : match_result -> jstring)
  (pos : nat) (rest : jstring) (skip : nat) : jstring :=
  match skip with
  | S k =>
      match rest with
      | [] => []
      | _ :: rest' => replace_from fl r f (S pos) rest' k
      end
  | 0 =>
      match match_at fl r pos rest with
      | Some res =>
          f res ++
          match rest with
          | [] => []
          | ch :: rest' =>
              match mr_text res with
              | [] => ch :: replace_from fl r f (S pos) rest' 0
              | _ :: t => replace_from fl r f (S pos) rest' (length t)
              end
          end
      | None =>
          match rest with
          | [] => []
          | ch :: rest' => ch :: replace_from fl r f (S pos) rest' 0
          end
      end
  end.

Definition replace_all (fl : flags) (r : regex) (by_ : jstring) (s : jstring)
  : jstring := replace_from fl r (fun _ => by_) 0 s 0.

Definition replace_all_fn (fl : flags) (r : regex)
  (f : match_result -> jstring) (s : jstring) : jstring :=
  replace_from fl r f 0 s 0.

(** *** Writing patterns *)

Fixpoint seq (l : list regex) : regex :=
  match l with
  | [] => REmpty
  | [r] => r
  | r :: l' => RSeq r (seq l')
  end.

Fixpoint alt (l : list regex) : regex :=
  match l with
  | [] => REmpty
  | [r] => r
  | r :: l' => RAlt r (alt l')
  end.

(** The characters of [s], one after the other (a backtick stands for
    the double quote, as in [lit]). *)
Definition str (s : string) : regex := seq (map RChar (lit s)).

Definition star (r : regex) : regex := RQuant r 0 None true.
Definition star_lazy (r : regex) : regex := RQuant r 0 None false.
Definition plus (r : regex) : regex := RQuant r 1 None true.
Definition opt (r : regex) : regex := RQuant r 0 (Some 1) true.

(** [[^...]] and [[...]] over listed characters. *)
Definition none_of (s : string) : regex := RClass true (map CChar (lit s)).
Definition one_of (s : string) : regex := RClass false (map CChar (lit s)).

(** [\s] outside a class *)
Definition space : regex := RClass false [CSpace].
(** [[\s\S]] *)
Definition any : regex := RClass false [CSpace; CNonSpace].

End Regex.
Import Regex.

(* ================================================================== *)
(** ** JavaScript values and JSON *)
(* ================================================================== *)

Module Json.

(** A number as a JSON text writes it: [(-1)^neg * mant * 10^exp10],
    before it is rounded to a double. *)
Record number : Type := { n_neg : bool; n_mant : N; n_exp10 : Z }.

(** The values [JSON.parse] builds, and [undefined].  An object keeps
    its properties in the order [for ... in] and [JSON.stringify]
    visit them. *)
Inductive jsval : Type :=
| JUndefined
| JNull
| JBool (b : bool)
| JNum (n : number)
| JStr (s : jstring)
| JArr (items : list jsval)
| JObj (fields : list (jstring * jsval)).

(** The double nearest to the number is [0]: the number is below or at
    half of the least positive double, [2^-1075]. *)
Definition rounds_to_zero (n : number) : bool :=
  (N.eqb (n_mant n) 0
   || (Z.ltb (n_exp10 n) 0
       && Z.leb (Z.of_N (n_mant n) * 2 ^ 1075) (10 ^ (- n_exp10 n))))%Z.

(** The double nearest to the number is an infinity: the number is at or
    above [2^1024 - 2^970]. *)
Definition rounds_to_infinity (n : number) : bool :=
  (if Z.leb 0 (n_exp10 n)
   then Z.leb (2 ^ 1024 - 2 ^ 970) (Z.of_N (n_mant n) * 10 ^ n_exp10 n)
   else Z.leb ((2 ^ 1024 - 2 ^ 970) * 10 ^ (- n_exp10 n)) (Z.of_N (n_mant n)))%Z.

(** [ToBoolean] *)
Definition truthy (v : jsval) : bool :=
  match v with
  | JUndefined | JNull => false
  | JBool b => b
  | JNum n => negb (rounds_to_zero n)
  | JStr s => match s with [] => false | _ => true end
  | JArr _ | JObj _ => true
  end.

(** [a || b] *)
Definition or_ (a b : jsval) : jsval := if truthy a then a else b.
(** [a && b] *)
Definition and_ (a b : jsval) : jsval := if truthy a then b else a.

Fixpoint lookup (k : jstring) (fields : list (jstring * jsval)) : option jsval :=
  match fields with
  | [] => None
  | (k', v) :: rest => if eqb_str k k' then Some v else lookup k rest
  end.

(** [v?.k], and [v.k] where [v] is known not to be [null] or
    [undefined].  The property names this program reads ([props],
    [title], [metadata], ...) are own properties of parsed objects only:
    on arrays, strings, numbers and booleans they are [undefined]. *)
Definition get (v : jsval) (k : string) : jsval :=
  match v with
  | JObj fields =>
      match lookup (lit k) fields with Some x => x | None => JUndefined end
  | _ => JUndefined
  end.

Definition nullish (v : jsval) : bool :=
  match v with JUndefined | JNull => true | _ => false end.

(** *** Property order *)

Definition is_digit (c : N) : bool := (N.leb 48 c && N.leb c 57)%N.

Definition digits_value (s : jstring) : N :=
  fold_left (fun acc c => (acc * 10 + (c - 48))%N) s 0%N.

(** An array index: the canonical decimal text of an integer below
    [2^32 - 1]. *)
Definition array_index (k : jstring) : option N :=
  match k with
  | [] => None
  | c :: t =>
      if forallb is_digit k
         && (negb (N.eqb c 48) || match t with [] => true | _ => false end)
         && (length k <=? 10)
         && N.ltb (digits_value k) 4294967295
      then Some (digits_value k) else None
  end.

(** A new index key goes before the first key that is not an index or
    is a greater index. *)
Fixpoint insert_index (i : N) (k : jstring) (v : jsval)
  (fields : list (jstring * jsval)) : list (jstring * jsval) :=
  match fields with
  | [] => [(k, v)]
  | (k', v') :: rest =>
      match array_index k' with
      | Some j => if N.ltb j i then (k', v') :: insert_index i k v rest
                  else (k, v) :: fields
      | None => (k, v) :: fields
      end
  end.

Fixpoint replace_value (k : jstring) (v : jsval)
  (fields : list (jstring * jsval)) : list (jstring * jsval) :=
  match fields with
  | [] => []
  | (k', v') :: rest =>
      if eqb_str k k' then (k', v) :: rest
      else (k', v') :: replace_value k v rest
  end.

(** [CreateDataProperty(obj, k, v)]: a key already there keeps its place
    and takes the new value; a new key is placed by the order of own
    property keys (indices ascending, then the other keys as created). *)
Definition obj_set (fields : list (jstring * jsval)) (k : jstring) (v : jsval)
  : list (jstring * jsval) :=
  match lookup k fields with
  | Some _ => replace_value k v fields
  | None =>
      match array_index k with
      | Some i => insert_index i k v fields
      | None => fields ++ [(k, v)]
      end
  end.

(** *** [JSON.parse] *)

Definition json_ws (c : N) : bool :=
  (N.eqb c 9 || N.eqb c 10 || N.eqb c 13 || N.eqb c 32)%N.

Fixpoint skip_ws (s : jstring) : jstring :=
  match s with
  | c :: s' => if json_ws c then skip_ws s' else s
  | [] => []
  end.

Definition hex_value (c : N) : option N :=
  if is_digit c then Some (c - 48)%N
  else if (N.leb 97 c && N.leb c 102)%N then Some (c - 87)%N
  else if (N.leb 65 c && N.leb c 70)%N then Some (c - 55)%N
  else None.

(** [parseInt(s, 16)] of a text of hexadecimal digits. *)
Definition digits16 (s : jstring) : N :=
  fold_left (fun acc c => match hex_value c with
                          | Some d => (acc * 16 + d)%N
                          | None => acc
                          end) s 0%N.

Definition hex4 (a b c d : N) : option N :=
  match hex_value a, hex_value b, hex_value c, hex_value d with
  | Some x, Some y, Some z, Some w => Some (((x * 16 + y) * 16 + z) * 16 + w)%N
  | _, _, _, _ => None
  end.

(** The character a simple escape stands for. *)
Definition simple_escape (e : N) : option N :=
  if N.eqb e 34 then Some 34%N          (* the quote *)
  else if N.eqb e 92 then Some 92%N     (* the backslash *)
  else if N.eqb e 47 then Some 47%N     (* the slash *)
  else if N.eqb e 98 then Some 8%N      (* b: backspace *)
  else if N.eqb e 102 then Some 12%N    (* f: form feed *)
  else if N.eqb e 110 then Some 10%N    (* n: line feed *)
  else if N.eqb e 114 then Some 13%N    (* r: carriage return *)
  else if N.eqb e 116 then Some 9%N     (* t: tab *)
  else None.

(** The characters of a string after its opening quote, up to the
    closing quote: the string and what follows it. *)
Fixpoint parse_string_body (s : jstring) : option (jstring * jstring) :=
  match s with
  | [] => None
  | c :: s' =>
      if N.eqb c 34 then Some ([], s')
      else if N.eqb c 92 then
        match s' with
        | e :: s'' =>
            if N.eqb e 117 then
              match s'' with
              | h1 :: h2 :: h3 :: h4 :: s3 =>
                  match hex4 h1 h2 h3 h4, parse_string_body s3 with
                  | Some u, Some (t, r) => Some (u :: t, r)
                  | _, _ => None
                  end
              | _ => None
              end
            else
              match simple_escape e, parse_string_body s'' with
              | Some u, Some (t, r) => Some (u :: t, r)
              | _, _ => None
              end
        | [] => None
        end
      else if N.ltb c 32 then None
      else
        match parse_string_body s' with
        | Some (t, r) => Some (c :: t, r)
        | None => None
        end
  end.

Fixpoint span_digits (s : jstring) : jstring * jstring :=
  match s with
  | c :: s' =>
      if is_digit c then let (d, r) := span_digits s' in (c :: d, r)
      else ([], s)
  | [] => ([], [])
  end.

(** [s] begins with the character [c]. *)
Definition head_is (c : N) (s : jstring) : bool := startsWith s [c].

(** A number: an optional minus sign, an integer part ([0], or digits
    that do not begin with [0]), an optional fraction (a point and
    digits) and an optional exponent ([e] or [E], a sign, digits). *)
Definition parse_number (s : jstring) : option (number * jstring) :=
  let neg := head_is 45 s in
  let s1 := if neg then skipn 1 s else s in
  let (int, s2) := span_digits s1 in
  match int with
  | [] => None
  | d0 :: more =>
      if N.eqb d0 48 && match more with [] => false | _ => true end
      then
        (* a leading zero ends the integer part: [01] is [0] followed by
           text that no value can be followed by *)
        None
      else
        let frac_r :=
          if head_is 46 s2 then
            let (f, r) := span_digits (skipn 1 s2) in
            match f with [] => None | _ => Some (f, r) end
          else Some ([], s2) in
        match frac_r with
        | None => None
        | Some (frac, s3) =>
            let exp_r :=
              if head_is 101 s3 || head_is 69 s3 then
                let t := skipn 1 s3 in
                let eneg := head_is 45 t in
                let t' := if eneg || head_is 43 t then skipn 1 t else t in
                let (ed, r) := span_digits t' in
                match ed with
                | [] => None
                | _ => Some ((if eneg then - Z.of_N (digits_value ed)
                              else Z.of_N (digits_value ed))%Z, r)
                end
              else Some (0%Z, s3) in
            match exp_r with
            | None => None
            | Some (e, s4) =>
                Some ({| n_neg := neg;
                         n_mant := digits_value (int ++ frac);
                         n_exp10 := (e - Z.of_nat (length frac))%Z |}, s4)
            end
        end
  end.

(** A value, then the members of an array after its bracket and of an
    object after its brace.  Each level of nesting and each member takes
    one unit of [fuel]. *)
Fixpoint parse_value (fuel : nat) (s : jstring) : option (jsval * jstring) :=
  match fuel with
  | 0 => None
  | S fuel' =>
      let s0 := skip_ws s in
      if head_is 123 s0 then
        let s1 := skip_ws (skipn 1 s0) in
        if head_is 125 s1 then Some (JObj [], skipn 1 s1)
        else parse_members fuel' s1 []
      else if head_is 91 s0 then
        let s1 := skip_ws (skipn 1 s0) in
        if head_is 93 s1 then Some (JArr [], skipn 1 s1)
        else parse_elements fuel' s1 []
      else if head_is 34 s0 then
        match parse_string_body (skipn 1 s0) with
        | Some (t, r) => Some (JStr t, r)
        | None => None
        end
      else if startsWith s0 (lit "true") then Some (JBool true, skipn 4 s0)
      else if startsWith s0 (lit "false") then Some (JBool false, skipn 5 s0)
      else if startsWith s0 (lit "null") then Some (JNull, skipn 4 s0)
      else
        match parse_number s0 with
        | Some (n, r) => Some (JNum n, r)
        | None => None
        end
  end

with parse_elements (fuel : nat) (s : jstring) (acc : list jsval)
  : option (jsval * jstring) :=
  match fuel with
  | 0 => None
  | S fuel' =>
      match parse_value fuel' s with
      | Some (v, r) =>
          let r0 := skip_ws r in
          if head_is 44 r0 then parse_elements fuel' (skipn 1 r0) (acc ++ [v])
          else if head_is 93 r0 then Some (JArr (acc ++ [v]), skipn 1 r0)
          else None
      | None => None
      end
  end

with parse_members (fuel : nat) (s : jstring) (acc : list (jstring * jsval))
  : option (jsval * jstring) :=
  match fuel with
  | 0 => None
  | S fuel' =>
      let s0 := skip_ws s in
      if head_is 34 s0 then
        match parse_string_body (skipn 1 s0) with
        | Some (k, r) =>
            let r0 := skip_ws r in
            if head_is 58 r0 then
              match parse_value fuel' (skipn 1 r0) with
              | Some (v, r2) =>
                  let r3 := skip_ws r2 in
                  if head_is 44 r3
                  then parse_members fuel' (skipn 1 r3) (obj_set acc k v)
                  else if head_is 125 r3
                  then Some (JObj (obj_set acc k v), skipn 1 r3)
                  else None
              | None => None
              end
            else None
        | None => None
        end
      else None
  end.

(** The fuel that is enough for a text: twice its length and two. *)
Definition parse_fuel (text : jstring) : nat := 2 * length text + 2.

(** [JSON.parse(text)]; [None] is the [SyntaxError] it throws. *)
Definition JSON_parse (text : jstring) : option jsval :=
  match parse_value (parse_fuel text) text with
  | Some (v, r) => match skip_ws r with [] => Some v | _ => None end
  | None => None
  end.

End Json.
Import Json.

(* ================================================================== *)
(** ** The patterns of the source *)
(* ================================================================== *)

(** In the comments of this part a pattern of the source is quoted with
    a backtick for each double quote, as in [lit], and with a blank
    between a star and a closing parenthesis that follows it. *)

Module Patterns.

Local Open Scope string_scope.

Definition bs : string := "\".

(** [/^https?:\/\/(www\.)?suno\.com\/song\/[a-f0-9-]+$/i] *)
Definition re_url : regex :=
  seq [RBol; str "http"; opt (str "s"); str "://";
       opt (RGroup 1 (str "www.")); str "suno.com/song/";
       plus (RClass false [CRange (cu "a") (cu "f");
                           CRange (cu "0") (cu "9"); CChar (cu "-")]);
       REol].

(** [/<script id=`__NEXT_DATA__` type=`application\/json`>(.*?)<\/script>/] *)
Definition re_next_data : regex :=
  seq [str "<script id=`__NEXT_DATA__` type=`application/json`>";
       RGroup 1 (star_lazy RDot); str "</script>"].

(** [[^`]*(?:\\.[^`]* )*]: the inside of a quoted string with escapes. *)
Definition escaped_body : regex :=
  seq [star (none_of "`"); star (seq [str bs; RDot; star (none_of "`")])].

(** [/self\.__next_f\.push\(\[1,\s*`([^`]*(?:\\.[^`]* )* )`\]\)/], with
    the [g] flag where all the chunks are collected. *)
Definition re_next_f : regex :=
  seq [str "self.__next_f.push([1,"; star space; str "`";
       RGroup 1 escaped_body; str "`])"].

(** [/\\`/g] and [/\\\\/g] *)
Definition re_esc_quote : regex := str (bs ++ "`").
Definition re_esc_backslash : regex := str (bs ++ bs).

(** [/<script[^>]*>(.*?)<\/script>/gs] *)
Definition re_all_scripts : regex :=
  seq [str "<script"; star (none_of ">"); str ">";
       RGroup 1 (star_lazy RDot); str "</script>"].

(** [/<script[^>]*>([\s\S]*?)<\/script>/] *)
Definition re_script_body : regex :=
  seq [str "<script"; star (none_of ">"); str ">";
       RGroup 1 (star_lazy any); str "</script>"].

(** [/\\n/g] and [/\\u([0-9a-f]{4})/gi] *)
Definition re_esc_n : regex := str (bs ++ "n").
Definition hex_class : regex :=
  RClass false [CRange (cu "0") (cu "9"); CRange (cu "a") (cu "f")].
Definition re_esc_u : regex :=
  seq [str (bs ++ "u"); RGroup 1 (RQuant hex_class 4 (Some 4) true)].

Definition quote : regex := one_of "`'".
Definition not_quote : regex := none_of "`'".

(** [/<meta[^>]*property=[`\']og:title[`\'][^>]*content=[`\']([^`\']+)[`\'][^>]*>/] *)
Definition re_og_title : regex :=
  seq [str "<meta"; star (none_of ">"); str "property="; quote;
       str "og:title"; quote; star (none_of ">"); str "content="; quote;
       RGroup 1 (plus not_quote); quote; star (none_of ">"); str ">"].

(** [/<meta[^>]*name=[`\']twitter:title[`\'][^>]*content=[`\']([^`\']+)[`\'][^>]*>/] *)
Definition re_twitter_title : regex :=
  seq [str "<meta"; star (none_of ">"); str "name="; quote;
       str "twitter:title"; quote; star (none_of ">"); str "content="; quote;
       RGroup 1 (plus not_quote); quote; star (none_of ">"); str ">"].

(** [/<title[^>]*>([^<]+)<\/title>/] *)
Definition re_html_title : regex :=
  seq [str "<title"; star (none_of ">"); str ">";
       RGroup 1 (plus (none_of "<")); str "</title>"].

(** [/<meta[^>]*name=[`\']description[`\'][^>]*content=[`\']([^`\']*by\s+([^`\']+))[`\'][^>]*>/] *)
Definition re_desc_by : regex :=
  seq [str "<meta"; star (none_of ">"); str "name="; quote;
       str "description"; quote; star (none_of ">"); str "content="; quote;
       RGroup 1 (seq [star not_quote; str "by"; plus space;
                      RGroup 2 (plus not_quote)]);
       quote; star (none_of ">"); str ">"].

(** [/<meta[^>]*name=[`\']description[`\'][^>]*content=[`\']([^`\']* )[`\'][^>]*>/] *)
Definition re_meta_desc : regex :=
  seq [str "<meta"; star (none_of ">"); str "name="; quote;
       str "description"; quote; star (none_of ">"); str "content="; quote;
       RGroup 1 (star not_quote); quote; star (none_of ">"); str ">"].

(** [key[`\']?\s*:\s*[`\']([^`\']+)[`\']] *)
Definition json_field (key : string) : regex :=
  seq [str key; opt quote; star space; str ":"; star space; quote;
       RGroup 1 (plus not_quote); quote].

(** [`key`:\s*`([^`]*(?:\\.[^`]* )* )`] *)
Definition json_field_escaped (key : string) : regex :=
  seq [str ("`" ++ key ++ "`:"); star space; str "`";
       RGroup 1 escaped_body; str "`"].

(** [class=[`\'][^`\']*word[^`\']*[`\'][^>]*>([^<]+)] *)
Definition css_class (word : string) : regex :=
  seq [str "class="; quote; star not_quote; str word; star not_quote; quote;
       star (none_of ">"); str ">"; RGroup 1 (plus (none_of "<"))].

(** [(?:Verse|Chorus|Bridge|Intro|Outro)] *)
Definition section_word : regex :=
  alt [str "Verse"; str "Chorus"; str "Bridge"; str "Intro"; str "Outro"].

(** A pattern of a scan and whether it carries the [g] flag. *)
Record scan_pattern : Type :=
  { sp_regex : regex; sp_flags : flags; sp_global : bool }.

Definition once (r : regex) : scan_pattern :=
  {| sp_regex := r; sp_flags := no_flags; sp_global := false |}.
Definition global (r : regex) : scan_pattern :=
  {| sp_regex := r; sp_flags := no_flags; sp_global := true |}.
Definition global_i (r : regex) : scan_pattern :=
  {| sp_regex := r; sp_flags := flag_i; sp_global := true |}.

(** The [patterns] array of the lyrics scan, in its order. *)
Definition lyrics_patterns : list scan_pattern :=
  [ once (json_field "prompt");
    once (json_field "lyrics");
    global (json_field_escaped "gpt_description_prompt");
    once (css_class "lyrics");
    (* /data-[^=]*lyrics[^=]*=[`\']([^`\']+)[`\']/ *)
    once (seq [str "data-"; star (none_of "="); str "lyrics";
               star (none_of "="); str "="; quote;
               RGroup 1 (plus not_quote); quote]);
    global (json_field_escaped "prompt");
    (* /\[Verse[^\]]*\][\s\S]*?\[\/Verse\]/gi *)
    global_i (seq [str "[Verse"; star (none_of "]"); str "]";
                   star_lazy any; str "[/Verse]"]);
    (* /\[Chorus[^\]]*\][\s\S]*?\[\/Chorus\]/gi *)
    global_i (seq [str "[Chorus"; star (none_of "]"); str "]";
                   star_lazy any; str "[/Chorus]"]);
    (* /(?:\[Verse\]|\[Chorus\]|\[Bridge\]|\[Outro\]|\[Intro\])[\s\S]*?(?=\[|$)/gi *)
    global_i (seq [alt [str "[Verse]"; str "[Chorus]"; str "[Bridge]";
                        str "[Outro]"; str "[Intro]"];
                   star_lazy any; RLookahead (alt [str "["; REol])]);
    (* /`([^`]*\[(?:Verse|Chorus|Bridge|Intro|Outro)[^\]]*\][\s\S]*?)`/ *)
    once (seq [str "`";
               RGroup 1 (seq [star (none_of "`"); str "["; section_word;
                              star (none_of "]"); str "]"; star_lazy any]);
               str "`"]);
    (* /(?:^|\n)([A-Z][^.\n]*\[(?:Verse|Chorus|Bridge|Intro|Outro)[^\]]*\][\s\S]*?)(?:\n\n|$)/ *)
    once (seq [alt [RBol; RChar 10];
               RGroup 1 (seq [RClass false [CRange (cu "A") (cu "Z")];
                              star (RClass true [CChar (cu "."); CChar 10]);
                              str "["; section_word; star (none_of "]");
                              str "]"; star_lazy any]);
               alt [seq [RChar 10; RChar 10]; REol]]);
    (* /\\u[0-9a-f]{4}.*?\[(?:Verse|Chorus|Bridge|Intro|Outro)[^\]]*\][\\s\\S]*?/gi *)
    global_i (seq [str (bs ++ "u"); RQuant hex_class 4 (Some 4) true;
                   star_lazy RDot; str "["; section_word;
                   star (none_of "]"); str "]";
                   star_lazy (one_of (bs ++ "s" ++ bs ++ "S"))]);
    (* /`[^`]*(?:\[Verse\]|\[Chorus\]|\[Bridge\]|\[Intro\]|\[Outro\])[^`]*`/gi *)
    global_i (seq [str "`"; star (none_of "`");
                   alt [str "[Verse]"; str "[Chorus]"; str "[Bridge]";
                        str "[Intro]"; str "[Outro]"];
                   star (none_of "`"); str "`"]) ].

(** The genre words, in the order of the alternation. *)
Definition genres : list string :=
  ["experimental"; "ballad"; "ambient"; "rock"; "pop"; "jazz"; "classical";
   "electronic"; "hip-hop"; "country"; "folk"; "blues"; "r&b"; "reggae";
   "metal"; "punk"; "indie"; "alternative"; "dance"; "house"; "techno";
   "dubstep"; "trap"; "lo-fi"; "chillout"; "acoustic"].

Definition genre : regex := alt (map str genres).

Definition comma_space : regex := RClass false [CChar (cu ","); CSpace].

(** The [patterns] array of the styles scan, in its order. *)
Definition styles_patterns : list scan_pattern :=
  [ once (json_field "tags");
    once (json_field "style");
    once (json_field "genre");
    once (css_class "style");
    once (css_class "tag");
    global (json_field_escaped "tags");
    global (json_field_escaped "style");
    global (json_field_escaped "genre");
    (* /(?:genre)[,\s]*(?:genre)[,\s]*(?:genre)?/gi *)
    global_i (seq [genre; star comma_space; genre; star comma_space;
                   opt genre]) ].

(** [/(genre)/i] *)
Definition re_genre : regex := RGroup 1 genre.

(** The patterns of [clean]: [/\u00a0/g], [/<[^>]+>/g], [/\s+/g] and
    [/\n{3,}/g]. *)
Definition re_nbsp : regex := RChar 160.
Definition re_tag : regex := seq [str "<"; plus (none_of ">"); str ">"].
Definition re_spaces : regex := plus space.
Definition re_newlines : regex := RQuant (RChar 10) 3 None true.

End Patterns.
Import Patterns.

(* ================================================================== *)
(** ** The server *)
(* ================================================================== *)

Module Server.

Local Open Scope string_scope.
Local Open Scope list_scope.

(** What the code of a handler can throw. *)
Inductive js_error : Type :=
| HttpError (status : N) (statusText : jstring)
    (* throw new Error(`HTTP ${response.status}: ${response.statusText}`) *)
| NetworkError (message : jstring)        (* fetch rejects *)
| NotAFunction                            (* a method call on a value without the method *)
| UndefinedReceiver                       (* a property read on undefined *)
| NotPrimitive                            (* an object with no usable toString in a template *)
| InvalidRegExp.                          (* new RegExp throws a SyntaxError *)

Inductive result (A : Type) : Type :=
| Ok (a : A)
| Throw (e : js_error).

Arguments Ok {A} a.
Arguments Throw {A} e.

Definition bind {A B : Type} (r : result A) (k : A -> result B) : result B :=
  match r with
  | Ok a => k a
  | Throw e => Throw e
  end.

Notation "x <- e ;; k" := (bind e (fun x => k))
  (at level 61, e at next level, right associativity).

(** [m[i]] of a match, for [i >= 1]. *)
Definition group (m : match_result) (i : nat) : jsval :=
  match nth (pred i) (mr_groups m) None with
  | Some t => JStr t
  | None => JUndefined
  end.

(** The receiver of a string method: a value that is not a string has
    no such method, and [undefined] has no properties at all. *)
Definition as_string (v : jsval) : result jstring :=
  match v with
  | JStr t => Ok t
  | JUndefined | JNull => Throw UndefinedReceiver
  | _ => Throw NotAFunction
  end.

(** What the page fetch gives back. *)
Inductive fetch_result : Type :=
| FetchRejects (message : jstring)
| Response (status : N) (statusText : jstring) (body : jstring).

Definition response_ok (status : N) : bool :=
  (N.leb 200 status && N.leb status 299)%N.

(** What a handler reads outside its request: the clock. *)
Record World : Type := { now_iso : jstring (* new Date().toISOString() *) }.

Section Engine.

(** Two services of the JavaScript engine are taken as given: the
    decimal text of the double nearest to a number (for a number that
    rounds neither to zero nor to an infinity), and the matches of a
    pattern that is compiled from a string at run time
    ([[...html.matchAll(new RegExp(pattern, 'g'))]], [None] when the
    pattern is refused with a [SyntaxError]). *)
Variable Number_toString : number -> jstring.
Variable matchAll_of_pattern : jstring -> jstring -> option (list match_result).

(** [Number::toString] *)
Definition number_text (n : number) : jstring :=
  if rounds_to_zero n then lit "0"
  else if rounds_to_infinity n
       then (if n_neg n then lit "-Infinity" else lit "Infinity")
  else Number_toString n.

(** [ToString], as a template literal applies it; [None] when it throws
    a [TypeError].  A parsed object is printed by
    [Object.prototype.toString] unless an own [toString] property hides
    it: that property is never callable, and [valueOf] then gives no
    primitive either.  An array is joined with commas, [null] elements
    as empty texts. *)
Fixpoint ToString (v : jsval) : option jstring :=
  match v with
  | JUndefined => Some (lit "undefined")
  | JNull => Some (lit "null")
  | JBool b => Some (if b then lit "true" else lit "false")
  | JNum n => Some (number_text n)
  | JStr s => Some s
  | JArr items =>
      (fix join (l : list jsval) : option jstring :=
         match l with
         | [] => Some []
         | x :: l' =>
             match (if nullish x then Some [] else ToString x) with
             | Some t =>
                 match l' with
                 | [] => Some t
                 | _ :: _ =>
                     match join l' with
                     | Some u => Some (t ++ lit "," ++ u)
                     | None => None
                     end
                 end
             | None => None
             end
         end) items
  | JObj fields =>
      match lookup (lit "toString") fields with
      | Some _ => None
      | None => Some (lit "[object Object]")
      end
  end.

(** *** [JSON.stringify] *)

Definition hex_digit (n : N) : N := if N.ltb n 10 then (48 + n)%N else (87 + n)%N.

Definition unicode_escape (c : N) : jstring :=
  lit "\u" ++ [hex_digit (c / 4096 mod 16); hex_digit (c / 256 mod 16);
               hex_digit (c / 16 mod 16); hex_digit (c mod 16)]%N.

Definition is_lead_surrogate (c : N) : bool := (N.leb 55296 c && N.leb c 56319)%N.
Definition is_trail_surrogate (c : N) : bool := (N.leb 56320 c && N.leb c 57343)%N.

(** The characters of [QuoteJSONString], without the quotes around. *)
Fixpoint quote_chars (s : jstring) : jstring :=
  match s with
  | [] => []
  | c :: s' =>
      if N.eqb c 8 then lit "\b" ++ quote_chars s'
      else if N.eqb c 9 then lit "\t" ++ quote_chars s'
      else if N.eqb c 10 then lit "\n" ++ quote_chars s'
      else if N.eqb c 12 then lit "\f" ++ quote_chars s'
      else if N.eqb c 13 then lit "\r" ++ quote_chars s'
      else if N.eqb c 34 then lit "\`" ++ quote_chars s'
      else if N.eqb c 92 then lit "\\" ++ quote_chars s'
      else if N.ltb c 32 then unicode_escape c ++ quote_chars s'
      else if is_lead_surrogate c then
        match s' with
        | d :: s'' =>
            if is_trail_surrogate d then c :: d :: quote_chars s''
            else unicode_escape c ++ quote_chars s'
        | [] => unicode_escape c
        end
      else if is_trail_surrogate c then unicode_escape c ++ quote_chars s'
      else c :: quote_chars s'
  end.

Definition quote_json (s : jstring) : jstring := [dq] ++ quote_chars s ++ [dq].

Fixpoint join_with (sep : jstring) (l : list jstring) : jstring :=
  match l with
  | [] => []
  | [t] => t
  | t :: l' => t ++ sep ++ join_with sep l'
  end.

(** [JSON.stringify(v)] without indentation; [None] is [undefined]. *)
Fixpoint JSON_stringify (v : jsval) : option jstring :=
  match v with
  | JUndefined => None
  | JNull => Some (lit "null")
  | JBool b => Some (if b then lit "true" else lit "false")
  | JNum n => Some (if rounds_to_infinity n then lit "null" else number_text n)
  | JStr s => Some (quote_json s)
  | JArr items =>
      Some (lit "[" ++
            join_with (lit ",")
              ((fix each (l : list jsval) : list jstring :=
                  match l with
                  | [] => []
                  | x :: l' =>
                      match JSON_stringify x with
                      | Some t => t
                      | None => lit "null"
                      end :: each l'
                  end) items)
            ++ lit "]")
  | JObj fields =>
      Some (lit "{" ++
            join_with (lit ",")
              ((fix each (l : list (jstring * jsval)) : list jstring :=
                  match l with
                  | [] => []
                  | (k, x) :: l' =>
                      match JSON_stringify x with
                      | Some t => (quote_json k ++ lit ":" ++ t) :: each l'
                      | None => each l'
                      end
                  end) fields)
            ++ lit "}")
  end.

(* ------------------------------------------------------------------ *)
(** *** [/parse]: locating the embedded data *)

(** [findSongData] of the source. *)
Fixpoint findSongData (obj : jsval) : jsval :=
  match obj with
  | JArr items =>
      (fix each (l : list jsval) : jsval :=
         match l with
         | [] => JNull
         | item :: l' =>
             let found := findSongData item in
             if truthy found then found else each l'
         end) items
  | JObj fields =>
      let clip := get obj "clip" in
      if truthy clip && truthy (get clip "title") && truthy (get clip "metadata")
      then clip
      else if truthy (get obj "title") && truthy (get obj "metadata")
              && truthy (or_ (get obj "audio_url") (get obj "id"))
      then obj
      else
        (fix each (l : list (jstring * jsval)) : jsval :=
           match l with
           | [] => JNull
           | (_, x) :: l' =>
               let found := findSongData x in
               if truthy found then found else each l'
           end) fields
  | _ => JNull
  end.

(** What the three strategies leave behind them. *)
Record located : Type :=
  { songData : jsval;
    nextData : jsval;         (* allScriptData.nextData *)
    streamingData : jsval;    (* allScriptData.streamingData *)
    nextDataMatch : option match_result;
    allScripts : list jstring }.

(** The [__NEXT_DATA__] script: [songData] and [allScriptData.nextData]
    after it. *)
Definition from_next_data (nextDataMatch : option match_result)
  : jsval * jsval :=
  match nextDataMatch with
  | Some m =>
      match as_string (group m 1) with
      | Ok text =>
          match JSON_parse text with
          | Some nextData =>
              let pageProps := get (get nextData "props") "pageProps" in
              (or_ (or_ (get pageProps "song") (get pageProps "data")) pageProps,
               nextData)
          | None => (JNull, JUndefined)
          end
      | Throw _ => (JNull, JUndefined)
      end
  | None => (JNull, JUndefined)
  end.

(** [unescaped] of a streamed chunk. *)
Definition unescape_chunk (text : jstring) : jstring :=
  replace_all no_flags re_esc_backslash (lit bs)
    (replace_all no_flags re_esc_quote [dq] text).

(** One turn of the loop over the streamed chunks: the song and the
    parsed chunk when the turn ends in [break]. *)
Definition from_chunk (chunk : jstring) : option (jsval * jsval) :=
  match exec no_flags re_next_f chunk with
  | Some jsonMatch =>
      match group jsonMatch 1 with
      | JStr ((_ :: _) as text) =>
          let unescaped := unescape_chunk text in
          if includes unescaped (lit "`clip`:")
             && includes unescaped (lit "`status`:`complete`")
          then
            match JSON_parse unescaped with
            | Some jsonData =>
                let nestedSong := findSongData jsonData in
                if truthy nestedSong then Some (nestedSong, jsonData) else None
            | None => None
            end
          else None
      | _ => None
      end
  | None => None
  end.

Fixpoint from_chunks (chunks : list jstring) : option (jsval * jsval) :=
  match chunks with
  | [] => None
  | chunk :: rest =>
      match from_chunk chunk with
      | Some found => Some found
      | None => from_chunks rest
      end
  end.

(** The test a generic script must pass: it parses to a value with a
    [title], a [display_name] or a [metadata].  Reading a property of
    [null] throws inside the [try], which moves on to the next script. *)
Definition song_like (text : jstring) : option jsval :=
  match JSON_parse text with
  | Some jsonData =>
      if nullish jsonData then None
      else if truthy (or_ (or_ (get jsonData "title")
                               (get jsonData "display_name"))
                          (get jsonData "metadata"))
      then Some jsonData
      else None
  | None => None
  end.

(** The loop over all the scripts of the page: [songData] after it. *)
Fixpoint from_scripts (scripts : list jstring) (songData : jsval)
  : result jsval :=
  match scripts with
  | [] => Ok songData
  | script :: rest =>
      match exec no_flags re_script_body script with
      | Some jsonMatch =>
          body <- as_string (group jsonMatch 1) ;;
          if startsWith (trim body) (lit "{") then
            match song_like body with
            | Some jsonData => Ok jsonData
            | None => from_scripts rest songData
            end
          else from_scripts rest songData
      | None => from_scripts rest songData
      end
  end.

(** [html.match(/<script[^>]*>(.*?)<\/script>/gs) || []] *)
Definition scripts_of (html : jstring) : list jstring :=
  match match_global flag_s re_all_scripts html with
  | Some l => l
  | None => []
  end.

(** The chunks [html.match(/self\.__next_f\.push(...)/g)] finds. *)
Definition chunks_of (html : jstring) : list jstring :=
  match match_global no_flags re_next_f html with
  | Some l => l
  | None => []
  end.

(** Lines 30 to 123 of [/parse]: the three strategies in their order.
    The streamed chunks are read only when the first strategy left
    [songData] falsy; the scan of the scripts runs in every case. *)
Definition locate (html : jstring) : result located :=
  let nextDataMatch := exec no_flags re_next_data html in
  let (songData1, nextData) := from_next_data nextDataMatch in
  let (songData2, streamingData) :=
    if negb (truthy songData1) then
      match from_chunks (chunks_of html) with
      | Some (nestedSong, jsonData) => (nestedSong, jsonData)
      | None => (songData1, JUndefined)
      end
    else (songData1, JUndefined) in
  let allScripts := scripts_of html in
  songData3 <- from_scripts allScripts songData2 ;;
  Ok {| songData := songData3; nextData := nextData;
        streamingData := streamingData;
        nextDataMatch := nextDataMatch; allScripts := allScripts |}.

(* ------------------------------------------------------------------ *)
(** *** [/parse]: resolving the fields *)

(** The four variables [title], [artist], [lyrics] and [styles]. *)
Record fields : Type :=
  { title : jsval; artist : jsval; lyrics : jsval; styles : jsval }.

(** Lines 126 to 129: the fields as [songData] gives them. *)
Definition fields_of_song (songData : jsval) : fields :=
  {| title := or_ (get songData "title") JNull;
     artist := or_ (or_ (get songData "display_name")
                        (get (get songData "user") "display_name")) JNull;
     lyrics := or_ (or_ (get (get songData "metadata") "prompt")
                        (get songData "gpt_description_prompt")) JNull;
     styles := or_ (or_ (get songData "display_tags")
                        (get (get songData "metadata") "tags")) JNull |}.

(** Lines 131 to 136: [styles] from [metadata.negative_tags]. *)
Definition negative_tags_step (songData styles : jsval) : result jsval :=
  let negTags := get (get songData "metadata") "negative_tags" in
  if negb (truthy styles) && truthy negTags then
    match ToString negTags with
    | Some t => Ok (JStr (lit "NOT: " ++ t))
    | None => Throw NotPrimitive
    end
  else Ok styles.

(** Lines 138 to 145: [lyrics] and [styles] from the song of the page
    properties. *)
Definition page_props_step (nextData lyrics styles : jsval) : jsval * jsval :=
  let props := get (get nextData "props") "pageProps" in
  if truthy props && truthy (get props "song") then
    let song := get props "song" in
    (or_ (or_ lyrics (get (get song "metadata") "prompt"))
         (get song "gpt_description_prompt"),
     or_ styles (get (get song "metadata") "tags"))
  else (lyrics, styles).

(** The decoding applied to a text taken for lyrics: [\n], the escaped
    quote and [\uXXXX] are replaced, then the ends are trimmed. *)
Definition decode_lyrics (text : jstring) : jstring :=
  trim
    (replace_all_fn flag_i re_esc_u
       (fun m => match group m 1 with
                 | JStr p1 => [digits16 p1]
                 | _ => []
                 end)
       (replace_all no_flags re_esc_quote [dq]
          (replace_all no_flags re_esc_n [10%N] text))).

(** The text of the pattern built for a prompt reference:
    [`${promptId}:T[a-f0-9]+,([\s\S]*?)(?=`]|$)], after the escapes of
    the template are read. *)
Definition prompt_pattern (promptId : jstring) : jstring :=
  [dq] ++ promptId ++ lit ":T[a-f0-9]+,([\s\S]*?)(?=`]|$)".

(** The loop over the matches of the prompt pattern: [lyrics] after it. *)
Fixpoint from_prompt_matches (html : jstring) (allMatches : list match_result)
  (lyrics : jsval) : jsval :=
  match allMatches with
  | [] => lyrics
  | m :: rest =>
      if truthy (group m 1) then
        let matchStart :=
          index_or_minus1
            (lastIndexOf html (lit "self.__next_f.push") (mr_index m)) in
        let matchEnd :=
          (index_or_minus1 (indexOf_at html (lit "])") (mr_index m)) + 2)%Z in
        let fullChunk := substring html matchStart matchEnd in
        if negb (includes fullChunk (lit "`clip`")) then
          match group m 1 with
          | JStr content =>
              if Nat.ltb 20 (length content) then JStr (decode_lyrics content)
              else from_prompt_matches html rest lyrics
          | _ => from_prompt_matches html rest lyrics
          end
        else from_prompt_matches html rest lyrics
      else from_prompt_matches html rest lyrics
  end.

(** Lines 147 to 177: a prompt that is a reference to a streamed chunk. *)
Definition prompt_ref_step (html : jstring) (songData lyrics : jsval)
  : result jsval :=
  let promptRef := get (get songData "metadata") "prompt" in
  if negb (truthy lyrics) && truthy promptRef then
    match promptRef with
    | JStr p =>
        if startsWith p (lit "$") then
          let promptId := skipn 1 p in
          match matchAll_of_pattern (prompt_pattern promptId) html with
          | Some allMatches => Ok (from_prompt_matches html allMatches lyrics)
          | None => Throw InvalidRegExp
          end
        else Ok lyrics
    | _ => Ok lyrics
    end
  else Ok lyrics.

(** Lines 180 to 188: the title from the meta tags and the [title] tag. *)
Definition title_step (html : jstring) (title : jsval) : result jsval :=
  if negb (truthy title) then
    let ogTitle := exec no_flags re_og_title html in
    let twitterTitle := exec no_flags re_twitter_title html in
    let htmlTitle := exec no_flags re_html_title html in
    let og := match ogTitle with Some m => group m 1 | None => JNull end in
    if truthy og then Ok og else
    let tw := match twitterTitle with Some m => group m 1 | None => JNull end in
    if truthy tw then Ok tw else
    ht <- match htmlTitle with
          | Some m =>
              t <- as_string (group m 1) ;;
              Ok (JStr (trim (replace_first t (lit " | Suno") [])))
          | None => Ok JNull
          end ;;
    Ok (or_ ht JNull)
  else Ok title.

(** Lines 190 to 196: the artist from the description meta tag. *)
Definition artist_step (html : jstring) (artist : jsval) : jsval :=
  if negb (truthy artist) then
    match exec no_flags re_desc_by html with
    | Some descMatch =>
        match group descMatch 2 with
        | JStr ((_ :: _) as name) => JStr (trim name)
        | _ => artist
        end
    | None => artist
    end
  else artist.

(** [html.match(pattern)] as the two scans walk over it: without the
    [g] flag the match and its groups, with it the texts of all the
    matches. *)
Definition scan_candidates (html : jstring) (p : scan_pattern)
  : option (list jsval) :=
  if sp_global p then
    option_map (map JStr) (match_global (sp_flags p) (sp_regex p) html)
  else
    match exec (sp_flags p) (sp_regex p) html with
    | Some m =>
        Some (JStr (mr_text m)
              :: map (fun g => match g with
                               | Some t => JStr t
                               | None => JUndefined
                               end) (mr_groups m))
    | None => None
    end.

(** The test of the lyrics scan on one candidate. *)
Definition plausible_lyrics (c : jsval) : option jstring :=
  match c with
  | JStr lyricText =>
      if Nat.ltb 20 (length lyricText)
         && (includes lyricText (lit "[Verse")
             || includes lyricText (lit "[Chorus")
             || includes lyricText (lit (bs ++ "n"))
             || Nat.ltb 2 (split_count lyricText 10))
      then Some lyricText else None
  | _ => None
  end.

Fixpoint first_some {A B : Type} (f : A -> option B) (l : list A) : option B :=
  match l with
  | [] => None
  | a :: l' => match f a with Some b => Some b | None => first_some f l' end
  end.

(** The loop over the lyrics patterns: the first candidate of a pattern
    that passes is decoded and assigned, and the loop ends when the
    assigned text is not empty. *)
Fixpoint scan_lyrics (html : jstring) (patterns : list scan_pattern)
  (lyrics : jsval) : jsval :=
  match patterns with
  | [] => lyrics
  | pattern :: rest =>
      match scan_candidates html pattern with
      | Some matches =>
          match first_some plausible_lyrics matches with
          | Some lyricText =>
              let lyrics' := JStr (decode_lyrics lyricText) in
              if truthy lyrics' then lyrics' else scan_lyrics html rest lyrics'
          | None =>
              if truthy lyrics then lyrics else scan_lyrics html rest lyrics
          end
      | None => scan_lyrics html rest lyrics
      end
  end.

(** Lines 198 to 231. *)
Definition lyrics_step (html : jstring) (lyrics : jsval) : jsval :=
  if negb (truthy lyrics) then scan_lyrics html lyrics_patterns lyrics
  else lyrics.

(** The test of the styles scan on one candidate. *)
Definition plausible_style (c : jsval) : option jstring :=
  match c with
  | JStr styleText => if Nat.ltb 2 (length styleText) then Some styleText else None
  | _ => None
  end.

Fixpoint scan_styles (html : jstring) (patterns : list scan_pattern)
  (styles : jsval) : jsval :=
  match patterns with
  | [] => styles
  | pattern :: rest =>
      match scan_candidates html pattern with
      | Some matches =>
          match first_some plausible_style matches with
          | Some styleText =>
              let styles' :=
                JStr (trim (replace_all no_flags re_esc_quote [dq] styleText)) in
              if truthy styles' then styles' else scan_styles html rest styles'
          | None =>
              if truthy styles then styles else scan_styles html rest styles
          end
      | None => scan_styles html rest styles
      end
  end.

(** Lines 261 to 270: a genre word in the description meta tag. *)
Definition meta_genre_step (html : jstring) (styles : jsval) : jsval :=
  if negb (truthy styles) then
    match exec no_flags re_meta_desc html with
    | Some metaDesc =>
        match group metaDesc 1 with
        | JStr ((_ :: _) as desc) =>
            match exec flag_i re_genre desc with
            | Some genreMatch => group genreMatch 1
            | None => styles
            end
        | _ => styles
        end
    | None => styles
    end
  else styles.

(** Lines 233 to 271. *)
Definition styles_step (html : jstring) (styles : jsval) : jsval :=
  if negb (truthy styles) then
    meta_genre_step html (scan_styles html styles_patterns styles)
  else styles.

(** Lines 125 to 271: the field resolver. *)
Definition resolve (html : jstring) (loc : located) : result fields :=
  let f0 := fields_of_song (songData loc) in
  styles1 <- negative_tags_step (songData loc) (styles f0) ;;
  let (lyrics1, styles2) := page_props_step (nextData loc) (lyrics f0) styles1 in
  lyrics2 <- prompt_ref_step html (songData loc) lyrics1 ;;
  title1 <- title_step html (title f0) ;;
  let artist1 := artist_step html (artist f0) in
  let lyrics3 := lyrics_step html lyrics2 in
  let styles3 := styles_step html styles2 in
  Ok {| title := title1; artist := artist1;
        lyrics := lyrics3; styles := styles3 |}.

(* ------------------------------------------------------------------ *)
(** *** [/parse]: cleaning and the reply *)

(** The chain of replacements of [clean] on a string. *)
Definition clean_text (s : jstring) : jstring :=
  trim
    (replace_all no_flags re_newlines [10%N; 10%N]
       (replace_all no_flags re_spaces (lit " ")
          (replace_all no_flags re_tag []
             (replace_all no_flags re_nbsp (lit " ") s)))).

(** [x || null] for a string [x]. *)
Definition or_null (t : jstring) : option jstring :=
  match t with [] => None | _ :: _ => Some t end.

(** [clean] of the source: [None] is [null].  The optional call stops
    at [null] and [undefined] only; any other value that is not a
    string has no [replace] to call. *)
Definition clean (s : jsval) : result (option jstring) :=
  match s with
  | JUndefined | JNull => Ok None
  | JStr t => Ok (or_null (clean_text t))
  | _ => Throw NotAFunction
  end.

Record found_patterns : Type :=
  { found_title : bool; found_artist : bool; found_lyrics : bool;
    found_styles : bool; found_audio_url : bool }.

Record debug_info : Type :=
  { hasNextData : bool; scriptCount : nat; htmlLength : nat;
    foundPatterns : found_patterns }.

(** The object [/parse] sends. *)
Record parse_record : Type :=
  { r_url : jstring;
    r_title : option jstring;
    r_artist : option jstring;
    r_lyrics : option jstring;
    r_styles : option jstring;
    r_audio_url : jsval;
    r_transcription_note : option jstring;
    r_rawHtmlSnippet : jstring;
    r_songData : option jstring;
    r_debugInfo : debug_info }.

Definition transcription_note : jstring :=
  lit "For accurate lyrics, consider using an LLM with audio transcription capabilities on the audio_url".

(** Lines 273 to 311: the reply built from the resolved fields. *)
Definition assemble (url html : jstring) (loc : located) (f : fields)
  : result parse_record :=
  let rawHtmlSnippet := slice0 html 2000 in
  let audioUrl := or_ (get (songData loc) "audio_url") JNull in
  t <- clean (title f) ;;
  a <- clean (artist f) ;;
  l <- clean (lyrics f) ;;
  s <- clean (styles f) ;;
  sd <- (if truthy (songData loc) then
           match JSON_stringify (songData loc) with
           | Some text => Ok (Some (slice0 text 500))
           | None => Throw UndefinedReceiver
           end
         else Ok None) ;;
  Ok {| r_url := url;
        r_title := t; r_artist := a; r_lyrics := l; r_styles := s;
        r_audio_url := audioUrl;
        r_transcription_note :=
          if truthy audioUrl then Some transcription_note else None;
        r_rawHtmlSnippet := rawHtmlSnippet;
        r_songData := sd;
        r_debugInfo :=
          {| hasNextData :=
               match nextDataMatch loc with Some _ => true | None => false end;
             scriptCount := length (allScripts loc);
             htmlLength := length html;
             foundPatterns :=
               {| found_title := truthy (title f);
                  found_artist := truthy (artist f);
                  found_lyrics := truthy (lyrics f);
                  found_styles := truthy (styles f);
                  found_audio_url := truthy audioUrl |} |} |}.

(** Lines 28 to 311: everything [/parse] does with the text of the page. *)
Definition parse_page (url html : jstring) : result parse_record :=
  loc <- locate html ;;
  f <- resolve html loc ;;
  assemble url html loc f.

(* ------------------------------------------------------------------ *)
(** *** [/extract] *)

(** A section of the organized reply: the named properties of a value. *)
Definition pick (v : jsval) (names : list string) : list (string * jsval) :=
  map (fun k => (k, get v k)) names.

(** The object [/extract] sends. *)
Record extract_record : Type :=
  { e_url : jstring;
    e_extraction_timestamp : jstring;
    e_song_info : list (string * jsval);
    e_user_info : list (string * jsval);
    e_media : list (string * jsval);
    e_metadata : list (string * jsval);
    e_engagement : list (string * jsval);
    e_technical : list (string * jsval);
    e_raw_next_data : list (string * jsval);
    e_full_song_data : jsval }.

(** The [__NEXT_DATA__] script in [/extract]: [songData] and [nextData]
    after it, both [null] before. *)
Definition extract_next_data (nextDataMatch : option match_result)
  : jsval * jsval :=
  match nextDataMatch with
  | Some m =>
      match as_string (group m 1) with
      | Ok text =>
          match JSON_parse text with
          | Some nextData =>
              let pageProps := get (get nextData "props") "pageProps" in
              (or_ (or_ (get pageProps "song") (get pageProps "data")) pageProps,
               nextData)
          | None => (JNull, JNull)
          end
      | Throw _ => (JNull, JNull)
      end
  | None => (JNull, JNull)
  end.

(** What [/extract] does with the text of the page: [None] is the reply
    404. *)
Definition extract_page (w : World) (url html : jstring)
  : result (option extract_record) :=
  let nextDataMatch := exec no_flags re_next_data html in
  let (songData1, nextData) := extract_next_data nextDataMatch in
  let allScripts := scripts_of html in
  songData2 <- (if negb (truthy songData1)
                then from_scripts allScripts songData1
                else Ok songData1) ;;
  if negb (truthy songData2) && negb (truthy nextData) then Ok None
  else
    let pageProps := get (get nextData "props") "pageProps" in
    let song := or_ (get pageProps "song") (get pageProps "data") in
    Ok (Some
      {| e_url := url;
         e_extraction_timestamp := now_iso w;
         e_song_info :=
           pick song ["id"; "title"; "display_name"; "created_at"; "status";
                      "model_name"; "gpt_description_prompt"];
         e_user_info :=
           pick (get song "user")
             ["id"; "display_name"; "handle"; "avatar_image_url"; "is_verified"];
         e_media :=
           pick song ["audio_url"; "video_url"; "image_url"; "image_large_url"];
         e_metadata :=
           pick (get song "metadata")
             ["prompt"; "gpt_description_prompt"; "audio_prompt_id"; "history";
              "concat_history"; "type"; "duration"; "refund_credits"; "stream";
              "error_type"; "error_message"; "tags"];
         e_engagement :=
           pick song ["play_count"; "upvote_count"; "is_liked"; "reaction"];
         e_technical :=
           pick song ["duration"; "is_trashed"; "is_public"; "stem_from_id";
                      "infill_start_s"; "infill_end_s"];
         e_raw_next_data :=
           pick nextData ["props"; "page"; "query"; "buildId"; "isFallback";
                          "gssp"];
         e_full_song_data := song |}).

(* ------------------------------------------------------------------ *)
(** *** The two handlers *)

Inductive reply : Type :=
| BadRequest                       (* 400: Provide a valid suno.com song URL at /song/<id> *)
| ParseFailed (details : js_error) (* 500: Failed to fetch or parse page *)
| ExtractFailed (details : js_error) (* 500: Failed to fetch or extract data *)
| NotFound                         (* 404: No song data found on page *)
| Parsed (r : parse_record)        (* 200 *)
| Extracted (r : extract_record).  (* 200 *)

Definition valid_url (url : jstring) : bool :=
  match url with
  | [] => false
  | _ :: _ => test flag_i re_url url
  end.

(** [await fetch(url)], the [response.ok] test and [response.text()]. *)
Definition fetch_text (fetched : fetch_result) : result jstring :=
  match fetched with
  | FetchRejects message => Throw (NetworkError message)
  | Response status statusText body =>
      if response_ok status then Ok body
      else Throw (HttpError status statusText)
  end.

(** The handler of [/parse]. *)
Definition parse_handler (w : World) (url : jstring) (fetched : fetch_result)
  : reply :=
  if negb (valid_url url) then BadRequest
  else
    match (html <- fetch_text fetched ;; parse_page url html) with
    | Ok r => Parsed r
    | Throw err => ParseFailed err
    end.

(** The handler of [/extract]. *)
Definition extract_handler (w : World) (url : jstring) (fetched : fetch_result)
  : reply :=
  if negb (valid_url url) then BadRequest
  else
    match (html <- fetch_text fetched ;; extract_page w url html) with
    | Ok (Some r) => Extracted r
    | Ok None => NotFound
    | Throw err => ExtractFailed err
    end.

End Engine.

End Server.
Import Server.

(* ================================================================== *)
(** ** Views of strings and matches used to state the properties *)
(* ================================================================== *)

Module Views.

(** The longest run of characters accepted by [ok] at the head of a
    string, and what is left after it. *)
Fixpoint take_run (ok : N -> bool) (s : jstring) : jstring :=
  match s with
  | c :: s' => if ok c then c :: take_run ok s' else []
  | [] => []
  end.

Fixpoint drop_run (ok : N -> bool) (s : jstring) : jstring :=
  match s with
  | c :: s' => if ok c then drop_run ok s' else s
  | [] => []
  end.

(** A greedy star over a one-character test, as a recursion on the
    input [r] that the state [x] has left. *)
Fixpoint greedy_run (ok : N -> bool) (c : cont) (x : mstate) (r : jstring)
  : option mstate :=
  match r with
  | ch :: r' =>
      if ok ch then
        match greedy_run ok c (advance x r') r' with
        | Some z => Some z
        | None => c x
        end
      else c x
  | [] => c x
  end.

(** The same for a lazy star. *)
Fixpoint lazy_run (ok : N -> bool) (c : cont) (x : mstate) (r : jstring)
  : option mstate :=
  match c x with
  | Some z => Some z
  | None =>
      match r with
      | ch :: r' => if ok ch then lazy_run ok c (advance x r') r' else None
      | [] => None
      end
  end.

(** The state [n] code units further on. *)
Definition advance_by (x : mstate) (n : nat) : mstate :=
  {| ms_rest := skipn n (ms_rest x); ms_pos := n + ms_pos x;
     ms_caps := ms_caps x |}.

(** [y] has the captures of [x] except at the indices [ks]. *)
Definition caps_kept (ks : list nat) (x y : mstate) : Prop :=
  length (ms_caps y) = length (ms_caps x) /\
  forall k, ~ In k ks -> nth k (ms_caps y) None = nth k (ms_caps x) None.

Definition cap_indices (r : regex) : list nat := map pred (groups r).

(** A matcher that succeeds does so through its continuation, on a
    state whose captures differ only at the indices [ks]. *)
Definition through (ks : list nat) (m : matcher) : Prop :=
  forall x c z, m x c = Some z -> exists y, c y = Some z /\ caps_kept ks x y.

(** What [clean] does to each character and to the string, step by
    step: a non-breaking space becomes a space, ... *)
Definition nbsp_to_space (c : N) : N := if N.eqb c 160 then 32%N else c.

Definition not_gt (ch : N) : bool := negb (N.eqb ch 62).

(** ... a tag is removed ([after_tag s] is what follows the tag at the
    head of [s], when one begins there: a [<], a character other than
    [>], and the first [>] further on), ... *)
Definition after_tag (s : jstring) : option jstring :=
  match s with
  | c :: rest =>
      if N.eqb c 60 then
        match rest with
        | ch :: r' =>
            if not_gt ch then
              match drop_run not_gt r' with
              | _ :: r'' => Some r''
              | [] => None
              end
            else None
        | [] => None
        end
      else None
  | [] => None
  end.

Definition opens_tag (s : jstring) : bool :=
  match s with
  | c :: ch :: r' => N.eqb c 60 && not_gt ch && negb (forallb not_gt r')
  | _ => false
  end.

(** No tag begins anywhere in the string. *)
Fixpoint tag_free (s : jstring) : bool :=
  match s with
  | [] => true
  | _ :: s' =>
      match after_tag s with Some _ => false | None => tag_free s' end
  end.

Definition strip_tags (s : jstring) : jstring := replace_all no_flags re_tag [] s.

Fixpoint strip (fuel : nat) (s : jstring) : jstring :=
  match fuel with
  | 0 => []
  | S f =>
      match s with
      | [] => []
      | c :: s' =>
          match after_tag s with
          | Some r => strip f r
          | None => c :: strip f s'
          end
      end
  end.

(** ... and every run of white space becomes one space ([in_run] tells
    that the character before was white space). *)
Fixpoint squeeze (in_run : bool) (s : jstring) : jstring :=
  match s with
  | [] => []
  | c :: s' =>
      if is_space c then (if in_run then squeeze true s' else 32%N :: squeeze true s')
      else c :: squeeze false s'
  end.

(** Every white space character is a space that no white space follows. *)
Fixpoint squeezed (s : jstring) : bool :=
  match s with
  | [] => true
  | c :: s' =>
      (if is_space c
       then N.eqb c 32 && match s' with d :: _ => negb (is_space d) | [] => true end
       else true) && squeezed s'
  end.

Definition starts_black (s : jstring) : bool :=
  match s with d :: _ => negb (is_space d) | [] => true end.

(** The value [clean] returns, as a JavaScript value again. *)
Definition value_of (r : option jstring) : jsval :=
  match r with Some t => JStr t | None => JNull end.

(** A pattern that sets the capture at index [k] in every match: a
    group of that index in a sequence, with nothing after it that could
    clear it. *)
Fixpoint sets_group (k : nat) (r : regex) : bool :=
  match r with
  | RSeq a b =>
      (sets_group k a && negb (existsb (Nat.eqb k) (cap_indices b)))
      || sets_group k b
  | RGroup j a => Nat.eqb (pred j) k || sets_group k a
  | _ => false
  end.

(** The texts [/extract] hands to [JSON.parse]: the content of the
    [__NEXT_DATA__] script, then the content of every script that
    begins with a brace. *)
Definition script_payload (script : jstring) : list jstring :=
  match exec no_flags re_script_body script with
  | Some jsonMatch =>
      match group jsonMatch 1 with
      | JStr body => if startsWith (trim body) (lit "{") then [body] else []
      | _ => []
      end
  | None => []
  end.

Definition payload_texts (html : jstring) : list jstring :=
  match exec no_flags re_next_data html with
  | Some m => match group m 1 with JStr text => [text] | _ => [] end
  | None => []
  end ++ flat_map script_payload (scripts_of html).

(** The structured payloads of a page: the texts among them that parse. *)
Definition parsed_payloads (html : jstring) : list jsval :=
  flat_map (fun text => match JSON_parse text with
                        | Some v => [v]
                        | None => []
                        end) (payload_texts html).

(** Pages and an address to run the handlers on. *)
Definition song_url : jstring := lit "https://suno.com/song/0a1b2c3d-4e5f".

(** A legacy payload and a generic script that disagree on the title,
    and a meta tag with a third one. *)
Definition page_two_titles : jstring :=
  lit "<script id=`__NEXT_DATA__` type=`application/json`>{`props`:{`pageProps`:{`song`:{`title`:`Legacy`}}}}</script><script>{`title`:`Generic`}</script><meta property=`og:title` content=`Meta`>".

(** A payload whose title is a number. *)
Definition page_number_title : jstring := lit "<script>{`title`:5}</script>".

(** A prompt that refers to the chunk [18], and two chunks of that
    number: the first holds a clip, the second the lyrics. *)
Definition page_prompt_ref : jstring :=
  lit "<script>{`title`:`S`,`metadata`:{`prompt`:`$18`}}</script><script>self.__next_f.push([1,`18:Tabc,words of a persona inside a `clip` chunk`])</script><script>self.__next_f.push([1,`18:Tdef,These are the real lyrics of the song`])</script>".

(** The pattern [new RegExp] compiles from [prompt_pattern promptId]
    when [promptId] holds no character that a pattern reads specially. *)
Definition prompt_regex (promptId : jstring) : regex :=
  seq [RChar dq; seq (map RChar promptId); str ":T";
       plus (RClass false [CRange (cu "a") (cu "f"); CRange (cu "0") (cu "9")]);
       str ","; RGroup 1 (star_lazy any);
       RLookahead (alt [str "`]"; REol])].

(** Negative tags and no tags. *)
Definition page_negative_tags : jstring :=
  lit "<script>{`title`:`S`,`metadata`:{`tags`:``,`negative_tags`:`trap, lo-fi`}}</script>".

(** An address of the audio with blanks around it. *)
Definition page_audio_url : jstring :=
  lit "<script>{`title`:`S`,`audio_url`:` https://cdn.example/a.mp3 `}</script>".

(** A page without any script that parses. *)
Definition page_no_payload : jstring :=
  lit "<html><body><p>nothing here</p><script>var x = 1;</script></body></html>".

(** Two moments at which a request may arrive. *)
Definition world_a : World := {| now_iso := lit "2025-01-01T00:00:00.000Z" |}.
Definition world_b : World := {| now_iso := lit "2025-06-30T12:00:00.000Z" |}.

(** The attributes of the legacy script, the closing tag of a script,
    and a script element with its attributes and content. *)
Definition next_data_attrs : jstring :=
  lit " id=`__NEXT_DATA__` type=`application/json`".
Definition script_close : jstring := lit "</script>".
Definition script_element (attrs body : jstring) : jstring :=
  lit "<script" ++ attrs ++ lit ">" ++ body ++ script_close.
Definition no_lt (s : jstring) : bool := forallb (fun ch => negb (N.eqb ch 60)) s.

(** A text that does not hold the beginning of a script tag. *)
Definition no_script (s : jstring) : bool := negb (includes s (lit "<script")).

(** The payload of the end-to-end scenario A, and a page that holds it
    in a legacy script between two texts. *)
Definition scenario_a_json : jstring :=
  lit "{`props`:{`pageProps`:{`song`:{`title`:`T`,`display_name`:`A`,`metadata`:{`prompt`:`P`,`tags`:`pop`}}}}}".

Definition scenario_a_page (pre post : jstring) : jstring :=
  pre ++ script_element next_data_attrs scenario_a_json ++ post.

(** [y] lies ahead of [x] on the same input. *)
Definition follows (x y : mstate) : Prop :=
  ms_pos x <= ms_pos y
  /\ ms_pos y + length (ms_rest y) = ms_pos x + length (ms_rest x).

(** A matcher that looks at its continuation only on the states ahead. *)
Definition local (m : matcher) : Prop :=
  forall x c1 c2, (forall y, follows x y -> c1 y = c2 y) -> m x c1 = m x c2.

End Views.
Import Views.

(* ================================================================== *)
(** ** Shapes of values, addresses and matches used by further properties *)
(* ================================================================== *)

Module Shapes.

Local Open Scope string_scope.
Local Open Scope list_scope.

(** The values inside a value, itself first, in the order in which a
    depth-first walk through the items of the arrays and the properties
    of the objects meets them. *)
Fixpoint nodes (v : jsval) : list jsval :=
  v :: match v with
       | JArr items =>
           (fix each (l : list jsval) : list jsval :=
              match l with
              | [] => []
              | item :: l' => nodes item ++ each l'
              end) items
       | JObj fields =>
           (fix each (l : list (jstring * jsval)) : list jsval :=
              match l with
              | [] => []
              | (_, x) :: l' => nodes x ++ each l'
              end) fields
       | _ => []
       end.

(** What [findSongData] returns at a value that passes one of its two
    tests: the [clip] of an object whose clip has a title and metadata,
    or an object with a title, metadata and an [audio_url] or an [id]. *)
Definition song_at (obj : jsval) : option jsval :=
  let clip := get obj "clip" in
  if truthy clip && truthy (get clip "title") && truthy (get clip "metadata")
  then Some clip
  else if truthy (get obj "title") && truthy (get obj "metadata")
          && truthy (or_ (get obj "audio_url") (get obj "id"))
  then Some obj
  else None.

(** [found || null] for the result of a search. *)
Definition or_null_value (o : option jsval) : jsval :=
  match o with Some s => s | None => JNull end.

(** A streamed chunk whose text holds a finished clip. *)
Definition stream_chunk : jstring :=
  lit "self.__next_f.push([1,`{\`clip\`:{\`title\`:\`S\`,\`metadata\`:{},\`status\`:\`complete\`}}`])".

(** A value that is a string, [null] or [undefined]: what [clean] is
    written for. *)
Definition text_or_absent (v : jsval) : bool :=
  match v with
  | JStr _ | JUndefined | JNull => true
  | _ => false
  end.

(** The properties of a song the resolver of [/parse] reads. *)
Definition fields_read (song : jsval) : list jsval :=
  [get song "title"; get song "display_name";
   get (get song "user") "display_name";
   get (get song "metadata") "prompt"; get song "gpt_description_prompt";
   get song "display_tags"; get (get song "metadata") "tags";
   get (get song "metadata") "negative_tags"].

(** The properties of the song of the page properties that lines 138 to
    145 read. *)
Definition page_fields_read (song : jsval) : list jsval :=
  [get (get song "metadata") "prompt"; get song "gpt_description_prompt";
   get (get song "metadata") "tags"].

(** [nextData.props.pageProps.song] *)
Definition page_song (nextData : jsval) : jsval :=
  get (get (get nextData "props") "pageProps") "song".

(** A payload whose title is one blank. *)
Definition page_blank_title : jstring := lit "<script>{`title`:` `}</script>".

(** [t] is a part of [s]: code units of [s] in a row. *)
Definition part_of (t s : jstring) : Prop := exists a b, s = a ++ t ++ b.

(** A state of a match on the input [s]: what is left to read is the
    end of [s] and every capture is a part of [s]. *)
Definition within (s : jstring) (x : mstate) : Prop :=
  (exists a, s = a ++ ms_rest x)
  /\ forall t, In (Some t) (ms_caps x) -> part_of t s.

(** A matcher that hands a state on [s] to its continuation when it is
    given one. *)
Definition stays_within (s : jstring) (m : matcher) : Prop :=
  forall x c z, within s x -> m x c = Some z ->
  exists y, within s y /\ c y = Some z.

(** The ASCII letters in lower case: two code units that the [i] flag
    takes for the same have the same lower case. *)
Definition lower (c : N) : N := if is_upper c then (c + 32)%N else c.

(** The code units a song identifier is written with: [a-f], [0-9] and
    the hyphen. *)
Definition is_id_char (c : N) : bool :=
  (N.leb 97 c && N.leb c 102)%N || is_digit c || N.eqb c 45.

(** The input begins with the characters [p], as the flags compare
    them. *)
Fixpoint prefix_fl (fl : flags) (s p : jstring) {struct p} : bool :=
  match p, s with
  | [], _ => true
  | _ :: _, [] => false
  | a :: p', ch :: s' => char_ok fl a ch && prefix_fl fl s' p'
  end.

(** A match was found. *)
Definition succeeds (o : option mstate) : bool :=
  match o with Some _ => true | None => false end.

(** The shape of the addresses the two handlers accept: the scheme, an
    optional [www.], the path of a song and an identifier. *)
Definition song_address (url : jstring) : Prop :=
  exists scheme host id,
    map lower url = scheme ++ lit "://" ++ host ++ lit "suno.com/song/" ++ id
    /\ (scheme = lit "http" \/ scheme = lit "https")
    /\ (host = [] \/ host = lit "www.")
    /\ id <> [] /\ forallb is_id_char id = true.

(** One or more characters of a class, greedy. *)
Definition is_plus_class (r : regex) : bool :=
  match r with
  | RQuant (RClass _ _) 1 None true => true
  | _ => false
  end.

(** A pattern that, in every match, sets the capture at index [k] to a
    text of one code unit or more: a group of one or more characters of
    a class, in a sequence or a group that does not reset it. *)
Fixpoint fills_group (k : nat) (r : regex) : bool :=
  match r with
  | RSeq a b =>
      (fills_group k a && negb (existsb (Nat.eqb k) (cap_indices b)))
      || fills_group k b
  | RGroup j a =>
      (is_plus_class a && Nat.eqb (pred j) k)
      || (negb (Nat.eqb (pred j) k) && fills_group k a)
  | _ => false
  end.

(** The class of the group whose capture is at index [k], when each
    match of the pattern sets it to one or more characters of a class:
    the group is in a sequence or in a group that does not reset it. *)
Fixpoint group_of_class (k : nat) (r : regex)
  : option (bool * list class_item) :=
  match r with
  | RSeq a b =>
      match group_of_class k b with
      | Some c => Some c
      | None =>
          if existsb (Nat.eqb k) (cap_indices b) then None
          else group_of_class k a
      end
  | RGroup j a =>
      if Nat.eqb (pred j) k then
        match a with
        | RQuant (RClass negated items) 1 None true => Some (negated, items)
        | _ => None
        end
      else group_of_class k a
  | _ => None
  end.

(** A text without a quote, double or single. *)
Definition no_quote (s : jstring) : bool :=
  forallb (fun ch => negb (N.eqb ch 34) && negb (N.eqb ch 39)) s.

End Shapes.
Import Shapes.

(* ================================================================== *)
(** ** Properties *)
(* ================================================================== *)

Lemma eqb_str_true (a b : jstring) : eqb_str a b = true <-> a = b.
Proof.
  unfold eqb_str. destruct (list_eq_dec N.eq_dec a b); split; congruence.
Qed.

(** *** The matcher *)

Lemma caps_kept_refl ks x : caps_kept ks x x.
Proof. split; reflexivity. Qed.

Lemma caps_kept_trans ks x y z :
  caps_kept ks x y -> caps_kept ks y z -> caps_kept ks x z.
Proof.
  intros [L1 H1] [L2 H2]. split; [congruence|].
  intros k Hk. rewrite H2, H1 by exact Hk. reflexivity.
Qed.

Lemma caps_kept_weaken ks ks' x y :
  incl ks ks' -> caps_kept ks x y -> caps_kept ks' x y.
Proof.
  intros Hi [L H]. split; [exact L|]. intros k Hk. apply H. intros Hin. apply Hk, Hi, Hin.
Qed.

Lemma set_nth_length v : forall l i, length (set_nth i v l) = length l.
Proof. induction l as [|a l IH]; intros [|i]; simpl; auto. Qed.

Lemma set_nth_other v : forall l i k, k <> i -> nth k (set_nth i v l) None = nth k l None.
Proof.
  induction l as [|a l IH]; intros [|i] [|k] H; simpl; try reflexivity; try congruence.
  apply IH. congruence.
Qed.

Lemma set_nth_same v : forall l i, i < length l -> nth i (set_nth i v l) None = v.
Proof.
  induction l as [|a l IH]; intros [|i] H; simpl in *; try lia; [reflexivity|].
  apply IH. lia.
Qed.

Lemma set_cap_kept i v x : caps_kept [pred i] x (set_cap i v x).
Proof.
  split; cbn [set_cap ms_caps]; [apply set_nth_length|].
  intros k Hk. apply set_nth_other. intros ->. apply Hk. left. reflexivity.
Qed.

Lemma clear_caps_kept : forall gs x, caps_kept (map pred gs) x (clear_caps gs x).
Proof.
  unfold clear_caps. induction gs as [|g gs IH]; intros x; cbn [fold_left map].
  - apply caps_kept_refl.
  - eapply caps_kept_trans.
    + eapply caps_kept_weaken; [|apply set_cap_kept]. intros k [<-|[]]. left. reflexivity.
    + eapply caps_kept_weaken; [|apply IH]. intros k Hk. right. exact Hk.
Qed.

Lemma advance_kept ks x r : caps_kept ks x (advance x r).
Proof. split; reflexivity. Qed.

Lemma char_matcher_through ks ok : through ks (char_matcher ok).
Proof.
  intros x c z. unfold char_matcher. destruct (ms_rest x) as [|ch r]; [discriminate|].
  destruct (ok ch); [|discriminate]. intros H. exists (advance x r). split; [exact H|].
  apply advance_kept.
Qed.

Lemma repeat_star_through gs m greedy :
  through (map pred gs) m ->
  forall fuel max x c z,
  repeat_star m gs greedy fuel max x c = Some z ->
  exists y, c y = Some z /\ caps_kept (map pred gs) x y.
Proof.
  intros Hm. induction fuel as [|fuel IH]; intros max x c z H; cbn [repeat_star] in H.
  - destruct (max_is_zero max); exists x; split; auto using caps_kept_refl.
  - destruct (max_is_zero max); [exists x; split; auto using caps_kept_refl|].
    assert (Hiter : forall z', m (clear_caps gs x)
              (fun y => if ms_pos y <=? ms_pos x then None
                        else repeat_star m gs greedy fuel (dec_max max) y c) = Some z' ->
            exists y, c y = Some z' /\ caps_kept (map pred gs) x y).
    { intros z' Hz. apply Hm in Hz as (y & Hy & Hk).
      destruct (ms_pos y <=? ms_pos x); [discriminate|].
      apply IH in Hy as (y' & Hy' & Hk'). exists y'. split; [exact Hy'|].
      eapply caps_kept_trans; [apply clear_caps_kept|].
      eapply caps_kept_trans; eassumption. }
    destruct greedy.
    + destruct (m (clear_caps gs x) _) as [z'|] eqn:E.
      * injection H as <-. apply Hiter. reflexivity.
      * exists x. split; auto using caps_kept_refl.
    + destruct (c x) as [z'|] eqn:E.
      * injection H as <-. exists x. split; auto using caps_kept_refl.
      * apply Hiter. exact H.
Qed.

Lemma repeat_min_through gs m greedy :
  through (map pred gs) m ->
  forall min max x c z,
  repeat_min m gs greedy min max x c = Some z ->
  exists y, c y = Some z /\ caps_kept (map pred gs) x y.
Proof.
  intros Hm. induction min as [|min IH]; intros max x c z H; cbn [repeat_min] in H.
  - eapply repeat_star_through; eassumption.
  - destruct (max_is_zero max); [exists x; split; auto using caps_kept_refl|].
    apply Hm in H as (y & Hy & Hk). apply IH in Hy as (y' & Hy' & Hk').
    exists y'. split; [exact Hy'|].
    eapply caps_kept_trans; [apply clear_caps_kept|].
    eapply caps_kept_trans; eassumption.
Qed.

Theorem compile_through fl : forall r, through (cap_indices r) (compile fl r).
Proof.
  unfold cap_indices.
  induction r as [| a | | neg items | r1 IH1 r2 IH2 | r1 IH1 r2 IH2
                  | r IH min max greedy | i r IH | r IH | | ];
    intros x c z H; cbn [compile groups map] in *.
  - exists x. split; auto using caps_kept_refl.
  - eapply char_matcher_through; eassumption.
  - eapply char_matcher_through; eassumption.
  - eapply char_matcher_through; eassumption.
  - apply IH1 in H as (y & Hy & Hk). apply IH2 in Hy as (y' & Hy' & Hk').
    exists y'. split; [exact Hy'|]. rewrite map_app.
    eapply caps_kept_trans; eapply caps_kept_weaken; try eassumption.
    + apply incl_appl, incl_refl.
    + apply incl_appr, incl_refl.
  - rewrite map_app. destruct (compile fl r1 x c) as [z'|] eqn:E.
    + injection H as <-. apply IH1 in E as (y & Hy & Hk). exists y. split; [exact Hy|].
      eapply caps_kept_weaken; [|eassumption]. apply incl_appl, incl_refl.
    + apply IH2 in H as (y & Hy & Hk). exists y. split; [exact Hy|].
      eapply caps_kept_weaken; [|eassumption]. apply incl_appr, incl_refl.
  - eapply repeat_min_through; eassumption.
  - apply IH in H as (y & Hy & Hk). eexists. split; [exact Hy|].
    eapply caps_kept_trans.
    + eapply caps_kept_weaken; [|exact Hk]. apply incl_tl, incl_refl.
    + eapply caps_kept_weaken; [|apply set_cap_kept]. intros k [<-|[]]. left. reflexivity.
  - destruct (compile fl r x (fun y => Some y)) as [y|] eqn:E; [|discriminate].
    apply IH in E as (y' & [= <-] & Hk). eexists. split; [exact H|]. exact Hk.
  - destruct (ms_pos x =? 0); [|discriminate]. exists x. split; auto using caps_kept_refl.
  - destruct (ms_rest x); [|discriminate]. exists x. split; auto using caps_kept_refl.
Qed.

(** *** The fuel of the star *)

Lemma follows_refl x : follows x x.
Proof. split; lia. Qed.

Lemma follows_trans x y z : follows x y -> follows y z -> follows x z.
Proof. intros [H1 H2] [H3 H4]. split; lia. Qed.

Lemma clear_caps_place : forall gs x,
  ms_pos (clear_caps gs x) = ms_pos x /\ ms_rest (clear_caps gs x) = ms_rest x.
Proof.
  unfold clear_caps. induction gs as [|g gs IH]; intros x; cbn [fold_left]; [auto|].
  destruct (IH (set_cap g None x)) as [-> ->]. auto.
Qed.

Lemma follows_clear gs x y : follows (clear_caps gs x) y <-> follows x y.
Proof.
  unfold follows. destruct (clear_caps_place gs x) as [-> ->]. tauto.
Qed.

Lemma char_matcher_local ok : local (char_matcher ok).
Proof.
  intros x c1 c2 H. unfold char_matcher.
  destruct (ms_rest x) as [|ch r] eqn:E; [reflexivity|].
  destruct (ok ch); [|reflexivity]. apply H.
  unfold follows, advance. cbn [ms_pos ms_rest]. rewrite E. cbn [length]. lia.
Qed.

Lemma repeat_star_local m gs greedy : local m ->
  forall fuel max, local (fun x c => repeat_star m gs greedy fuel max x c).
Proof.
  intros Hm. induction fuel as [|fuel IH]; intros max x c1 c2 H; cbn [repeat_star].
  - rewrite (H x (follows_refl x)). reflexivity.
  - rewrite (H x (follows_refl x)).
    destruct (max_is_zero max); [reflexivity|].
    assert (Hd : m (clear_caps gs x)
                   (fun y => if ms_pos y <=? ms_pos x then None
                             else repeat_star m gs greedy fuel (dec_max max) y c1)
                 = m (clear_caps gs x)
                     (fun y => if ms_pos y <=? ms_pos x then None
                               else repeat_star m gs greedy fuel (dec_max max) y c2)).
    { apply Hm. intros y Hy. destruct (ms_pos y <=? ms_pos x); [reflexivity|].
      apply IH. intros y' Hy'. apply H.
      apply follows_clear in Hy. eapply follows_trans; eassumption. }
    rewrite Hd. reflexivity.
Qed.

Lemma repeat_min_local m gs greedy : local m ->
  forall min max, local (fun x c => repeat_min m gs greedy min max x c).
Proof.
  intros Hm. induction min as [|min IH]; intros max x c1 c2 H; cbn [repeat_min].
  - apply (repeat_star_local gs greedy Hm). exact H.
  - rewrite (H x (follows_refl x)).
    destruct (max_is_zero max); [reflexivity|].
    apply Hm. intros y Hy. apply IH. intros y' Hy'. apply H.
    apply follows_clear in Hy. eapply follows_trans; eassumption.
Qed.

Lemma compile_local fl : forall r, local (compile fl r).
Proof.
  induction r as [| a | | neg items | r1 IH1 r2 IH2 | r1 IH1 r2 IH2
                  | r IH min max greedy | i r IH | r IH | | ];
    intros x c1 c2 H; cbn [compile].
  - apply H, follows_refl.
  - apply char_matcher_local, H.
  - apply char_matcher_local, H.
  - apply char_matcher_local, H.
  - apply IH1. intros y Hy. apply IH2. intros y' Hy'. apply H.
    eapply follows_trans; eassumption.
  - rewrite (IH1 x c1 c2 H), (IH2 x c1 c2 H). reflexivity.
  - apply (repeat_min_local (groups r) greedy IH). exact H.
  - apply IH. intros y Hy. apply H. exact Hy.
  - destruct (compile fl r x (fun y => Some y)); [|reflexivity].
    apply H. split; cbn [ms_pos ms_rest]; lia.
  - destruct (ms_pos x =? 0); [|reflexivity]. apply H, follows_refl.
  - destruct (ms_rest x); [|reflexivity]. apply H, follows_refl.
Qed.

Lemma through_none ks m x : through ks m -> m x (fun _ => None) = None.
Proof.
  intros Hm. destruct (m x (fun _ => None)) as [z|] eqn:E; [|reflexivity].
  apply Hm in E as (y & Hy & _). discriminate Hy.
Qed.

(** With fuel for the input that is left, more fuel changes nothing. *)
Lemma repeat_star_fuel ks m gs greedy : local m -> through ks m ->
  forall f1 f2 max x c,
  length (ms_rest x) <= f1 -> length (ms_rest x) <= f2 ->
  repeat_star m gs greedy f1 max x c = repeat_star m gs greedy f2 max x c.
Proof.
  intros Hl Ht.
  assert (Hend : forall f max x c, length (ms_rest x) = 0 ->
            repeat_star m gs greedy f max x c = c x).
  { intros [|f] max x c Hx; cbn [repeat_star];
      destruct (max_is_zero max); try reflexivity.
    assert (Hn : m (clear_caps gs x)
                   (fun y => if ms_pos y <=? ms_pos x then None
                             else repeat_star m gs greedy f (dec_max max) y c)
                 = None).
    { transitivity (m (clear_caps gs x) (fun _ => None));
        [|apply (through_none (clear_caps gs x) Ht)].
      apply Hl. intros y Hy. apply follows_clear in Hy. destruct Hy as [H1 H2].
      assert (Hle : ms_pos y <= ms_pos x) by lia.
      apply Nat.leb_le in Hle. rewrite Hle. reflexivity. }
    rewrite Hn. destruct greedy; [reflexivity|]. destruct (c x); reflexivity. }
  induction f1 as [|f1 IH]; intros f2 max x c H1 H2.
  - rewrite !Hend by lia. reflexivity.
  - destruct f2 as [|f2]; [rewrite !Hend by lia; reflexivity|].
    cbn [repeat_star]. destruct (max_is_zero max); [reflexivity|].
    assert (Hd : m (clear_caps gs x)
                   (fun y => if ms_pos y <=? ms_pos x then None
                             else repeat_star m gs greedy f1 (dec_max max) y c)
                 = m (clear_caps gs x)
                     (fun y => if ms_pos y <=? ms_pos x then None
                               else repeat_star m gs greedy f2 (dec_max max) y c)).
    { apply Hl. intros y Hy. apply follows_clear in Hy. destruct Hy as [Hp Hq].
      destruct (ms_pos y <=? ms_pos x) eqn:E; [reflexivity|].
      apply Nat.leb_gt in E. apply IH; lia. }
    rewrite Hd. reflexivity.
Qed.

(** The star of a pattern is given the length of the input that is left
    for fuel, and no greater fuel would change its result. *)
Theorem star_fuel_enough fl r greedy fuel max x c :
  length (ms_rest x) <= fuel ->
  repeat_star (compile fl r) (groups r) greedy fuel max x c
  = repeat_star (compile fl r) (groups r) greedy (length (ms_rest x)) max x c.
Proof.
  intros H. apply (repeat_star_fuel (groups r) greedy (compile_local fl r)
                     (compile_through fl r)); lia.
Qed.

Lemma take_drop_run ok s : take_run ok s ++ drop_run ok s = s.
Proof. induction s as [|c s IH]; simpl; [reflexivity|]. destruct (ok c); simpl; congruence. Qed.

Lemma leb_succ_self n : (S n <=? n) = false.
Proof. apply Nat.leb_gt. lia. Qed.

Lemma repeat_star_greedy_run ok c fuel :
  forall x, length (ms_rest x) <= fuel ->
  repeat_star (char_matcher ok) [] true fuel None x c
  = greedy_run ok c x (ms_rest x).
Proof.
  induction fuel as [|fuel IH]; intros x Hlen.
  - destruct (ms_rest x); simpl in *; [reflexivity | lia].
  - cbn [repeat_star max_is_zero]. unfold char_matcher, clear_caps.
    cbn [fold_left].
    destruct (ms_rest x) as [|ch r'] eqn:E; cbn [greedy_run]; [reflexivity|].
    destruct (ok ch); [|reflexivity].
    cbn [advance ms_pos]. rewrite leb_succ_self.
    rewrite IH by (cbn [advance ms_rest]; simpl in Hlen; lia).
    reflexivity.
Qed.

(** With a continuation that accepts, the greedy star reads the longest run. *)
Lemma greedy_run_accept ok : forall r x, ms_rest x = r ->
  greedy_run ok (fun y => Some y) x r
  = Some {| ms_rest := drop_run ok r;
            ms_pos := ms_pos x + length (take_run ok r);
            ms_caps := ms_caps x |}.
Proof.
  induction r as [|ch r IH]; intros x Hx; cbn [greedy_run drop_run take_run].
  - destruct x; simpl in *. subst. do 2 f_equal. lia.
  - destruct (ok ch).
    + rewrite IH by reflexivity. cbn [advance ms_pos ms_caps length]. do 2 f_equal. lia.
    + destruct x; simpl in *. subst. do 2 f_equal. lia.
Qed.

Lemma skip_all fl r f : forall k rest pos, k <= length rest ->
  replace_from fl r f pos rest k = replace_from fl r f (k + pos) (skipn k rest) 0.
Proof.
  induction k as [|k IH]; intros rest pos Hk; [reflexivity|].
  destruct rest as [|c rest]; simpl in Hk; [lia|].
  cbn [replace_from skipn]. rewrite IH by lia. f_equal. lia.
Qed.

(** *** The four patterns of [clean] *)

Lemma match_at_nbsp pos rest :
  match_at no_flags re_nbsp pos rest =
  match rest with
  | c :: _ => if N.eqb c 160 then Some {| mr_index := pos; mr_text := [c]; mr_groups := [] |} else None
  | [] => None
  end.
Proof.
  unfold match_at, re_nbsp. cbn [compile]. unfold char_matcher. cbn [ms_rest].
  destruct rest as [|c rest]; [reflexivity|].
  unfold char_ok, canon. cbn [ignoreCase no_flags andb].
  destruct (N.eqb c 160); [|reflexivity].
  cbn [advance ms_pos]. replace (S pos - pos) with 1 by lia. reflexivity.
Qed.

Lemma replace_nbsp : forall s pos,
  replace_from no_flags re_nbsp (fun _ => [32%N]) pos s 0 = map nbsp_to_space s.
Proof.
  induction s as [|c s IH]; intros pos; cbn [replace_from]; rewrite match_at_nbsp.
  - reflexivity.
  - cbn [map]. unfold nbsp_to_space at 1. destruct (N.eqb c 160); cbn [mr_text app length].
    + rewrite IH. reflexivity.
    + rewrite IH. reflexivity.
Qed.

Lemma take_run_ext ok ok' s : (forall c, ok c = ok' c) -> take_run ok s = take_run ok' s.
Proof. intros H; induction s as [|c s IH]; simpl; [reflexivity|]. rewrite H, IH. reflexivity. Qed.

Lemma drop_run_ext ok ok' s : (forall c, ok c = ok' c) -> drop_run ok s = drop_run ok' s.
Proof. intros H; induction s as [|c s IH]; simpl; [reflexivity|]. rewrite H, IH. reflexivity. Qed.

Lemma take_run_length ok s : length (take_run ok s) <= length s.
Proof. induction s as [|c s IH]; simpl; [lia|]. destruct (ok c); simpl; lia. Qed.

Lemma skipn_take_run ok s : skipn (length (take_run ok s)) s = drop_run ok s.
Proof. induction s as [|c s IH]; simpl; [reflexivity|]. destruct (ok c); simpl; auto. Qed.

Lemma firstn_take_run ok s : firstn (length (take_run ok s)) s = take_run ok s.
Proof. induction s as [|c s IH]; simpl; [reflexivity|]. destruct (ok c); simpl; congruence. Qed.

Lemma space_class_spec ch : class_ok no_flags false [CSpace] ch = is_space ch.
Proof.
  unfold class_ok, class_mem. cbn [existsb item_mem ignoreCase no_flags andb xorb].
  rewrite !orb_false_r. reflexivity.
Qed.

(** [r+] for a one-character test, followed by acceptance. *)
Lemma plus_char_accept ok x :
  repeat_min (char_matcher ok) [] true 1 None x (fun y => Some y) =
  match ms_rest x with
  | ch :: r' =>
      if ok ch
      then Some {| ms_rest := drop_run ok r';
                   ms_pos := S (ms_pos x) + length (take_run ok r');
                   ms_caps := ms_caps x |}
      else None
  | [] => None
  end.
Proof.
  cbn [repeat_min max_is_zero]. unfold clear_caps. cbn [fold_left].
  unfold char_matcher at 1.
  destruct (ms_rest x) as [|ch r'] eqn:E; [reflexivity|].
  destruct (ok ch); [|reflexivity].
  rewrite repeat_star_greedy_run by (cbn [advance ms_rest]; lia).
  rewrite greedy_run_accept by reflexivity. reflexivity.
Qed.

Lemma match_at_spaces pos rest :
  match_at no_flags re_spaces pos rest =
  match rest with
  | c :: r' =>
      if is_space c
      then Some {| mr_index := pos; mr_text := c :: take_run is_space r';
                   mr_groups := [] |}
      else None
  | [] => None
  end.
Proof.
  unfold match_at, re_spaces, plus, space. cbn [compile groups].
  rewrite plus_char_accept. cbn [ms_rest ms_pos ms_caps].
  destruct rest as [|c r']; [reflexivity|].
  rewrite space_class_spec.
  destruct (is_space c); [|reflexivity].
  cbn [ms_pos ms_caps ngroups groups fold_right repeat].
  replace (S pos + length (take_run (class_ok no_flags false [CSpace]) r') - pos)
    with (S (length (take_run (class_ok no_flags false [CSpace]) r'))) by lia.
  cbn [firstn]. rewrite firstn_take_run.
  rewrite (take_run_ext _ is_space r' space_class_spec). reflexivity.
Qed.

Lemma squeeze_true_drop : forall s, squeeze true s = squeeze false (drop_run is_space s).
Proof.
  induction s as [|c s IH]; simpl; [reflexivity|].
  destruct (is_space c) eqn:E; [exact IH|]. simpl. rewrite E. reflexivity.
Qed.

Lemma replace_spaces_aux : forall n s pos, length s <= n ->
  replace_from no_flags re_spaces (fun _ => [32%N]) pos s 0 = squeeze false s.
Proof.
  induction n as [|n IH]; intros s pos Hn.
  - destruct s; [|simpl in Hn; lia]. reflexivity.
  - destruct s as [|c s]; [reflexivity|].
    cbn [replace_from]. rewrite match_at_spaces. cbn [squeeze].
    destruct (is_space c).
    + cbn [mr_text app]. rewrite skip_all by apply take_run_length.
      rewrite skipn_take_run, squeeze_true_drop.
      rewrite IH; [reflexivity|].
      simpl in Hn. pose proof (take_drop_run is_space s) as H.
      apply (f_equal (@length N)) in H. rewrite length_app in H. lia.
    + rewrite IH by (simpl in Hn; lia). reflexivity.
Qed.

Lemma replace_spaces s :
  replace_all no_flags re_spaces [32%N] s = squeeze false s.
Proof. unfold replace_all. apply replace_spaces_aux with (n := length s). lia. Qed.

(** *** Newlines *)

Lemma char_ok_plain a ch : char_ok no_flags a ch = N.eqb ch a.
Proof. reflexivity. Qed.

Lemma match_at_newlines_none pos rest :
  match rest with c :: _ => N.eqb c 10 = false | [] => True end ->
  match_at no_flags re_newlines pos rest = None.
Proof.
  intros H. unfold match_at, re_newlines. cbn [compile repeat_min max_is_zero groups].
  unfold clear_caps. cbn [fold_left]. unfold char_matcher at 1. cbn [ms_rest].
  destruct rest as [|c r]; [reflexivity|].
  rewrite char_ok_plain, H. reflexivity.
Qed.

Lemma replace_newlines_id by_ : forall s pos,
  forallb (fun c => negb (N.eqb c 10)) s = true ->
  replace_from no_flags re_newlines (fun _ => by_) pos s 0 = s.
Proof.
  induction s as [|c s IH]; intros pos H; cbn [replace_from].
  - rewrite match_at_newlines_none by exact I. reflexivity.
  - cbn [forallb] in H. apply andb_true_iff in H as [Hc Hs].
    rewrite match_at_newlines_none by (apply negb_true_iff; exact Hc).
    rewrite IH by exact Hs. reflexivity.
Qed.

(** *** Tags *)

Lemma not_gt_class ch : class_ok no_flags true [CChar 62%N] ch = not_gt ch.
Proof.
  unfold class_ok, class_mem, not_gt. cbn [existsb item_mem ignoreCase no_flags andb].
  rewrite !orb_false_r. rewrite N.eqb_sym. reflexivity.
Qed.

(** A greedy run of characters other than [>] followed by [>]. *)
Lemma greedy_run_then_gt : forall r x, ms_rest x = r ->
  greedy_run not_gt (fun z => char_matcher (char_ok no_flags 62) z (fun y => Some y)) x r
  = match drop_run not_gt r with
    | _ :: r'' => Some {| ms_rest := r'';
                          ms_pos := S (ms_pos x + length (take_run not_gt r));
                          ms_caps := ms_caps x |}
    | [] => None
    end.
Proof.
  induction r as [|ch r IH]; intros x Hx; cbn [greedy_run drop_run take_run].
  - unfold char_matcher. rewrite Hx. reflexivity.
  - destruct (not_gt ch) eqn:E.
    + rewrite IH by reflexivity. cbn [advance ms_pos ms_caps length].
      destruct (drop_run not_gt r) as [|d r''].
      * unfold char_matcher. rewrite Hx, char_ok_plain.
        unfold not_gt in E. apply negb_true_iff in E. rewrite E. reflexivity.
      * do 2 f_equal. lia.
    + unfold char_matcher. rewrite Hx, char_ok_plain.
      unfold not_gt in E. apply negb_false_iff in E. rewrite E.
      unfold advance. cbn [length]. rewrite Nat.add_0_r. reflexivity.
Qed.

Lemma greedy_run_ext ok ok' c : (forall ch, ok ch = ok' ch) ->
  forall r x, greedy_run ok c x r = greedy_run ok' c x r.
Proof.
  intros H; induction r as [|ch r IH]; intros x; cbn [greedy_run]; [reflexivity|].
  rewrite H, IH. reflexivity.
Qed.

Lemma match_at_tag pos rest :
  match_at no_flags re_tag pos rest =
  match after_tag rest with
  | Some r'' =>
      Some {| mr_index := pos;
              mr_text := firstn (length rest - length r'') rest;
              mr_groups := [] |}
  | None => None
  end.
Proof.
  unfold match_at, re_tag, plus. 
  change (str "<") with (RChar 60). change (str ">") with (RChar 62).
  change (none_of ">") with (RClass true [CChar 62%N]).
  cbn [seq compile repeat_min max_is_zero groups app ngroups fold_right repeat].
  unfold clear_caps. cbn [fold_left].
  unfold char_matcher at 1. cbn [ms_rest].
  destruct rest as [|c rest]; [reflexivity|].
  rewrite char_ok_plain. unfold after_tag.
  destruct (N.eqb c 60); [|reflexivity].
  unfold char_matcher at 1. cbn [advance ms_rest ms_pos ms_caps].
  destruct rest as [|ch r']; [reflexivity|].
  rewrite not_gt_class. destruct (not_gt ch); [|reflexivity].
  cbn [repeat_min dec_max option_map].
  rewrite repeat_star_greedy_run by (cbn [advance ms_rest]; lia).
  rewrite (greedy_run_ext _ not_gt _ not_gt_class).
  rewrite greedy_run_then_gt by reflexivity.
  cbn [advance ms_rest ms_pos ms_caps].
  pose proof (take_drop_run not_gt r') as Htd.
  destruct (drop_run not_gt r') as [|d r'']; [reflexivity|].
  do 2 f_equal.
  apply (f_equal (@length N)) in Htd. rewrite length_app in Htd. cbn [length] in *.
  f_equal. cbn [ms_pos]. lia.
Qed.

Lemma strip_tags_id_aux : forall s pos, tag_free s = true ->
  replace_from no_flags re_tag (fun _ => []) pos s 0 = s.
Proof.
  induction s as [|c s IH]; intros pos H; cbn [replace_from]; rewrite match_at_tag.
  - reflexivity.
  - cbn [tag_free] in H. destruct (after_tag (c :: s)); [discriminate|].
    rewrite IH by exact H. reflexivity.
Qed.

Lemma strip_tags_id s : tag_free s = true -> strip_tags s = s.
Proof. apply strip_tags_id_aux. Qed.

Lemma drop_run_nil ok s : drop_run ok s = [] <-> forallb ok s = true.
Proof.
  induction s as [|c s IH]; simpl; [tauto|].
  destruct (ok c); simpl; [exact IH|]. split; discriminate.
Qed.

Lemma after_tag_opens s :
  opens_tag s = match after_tag s with Some _ => true | None => false end.
Proof.
  destruct s as [|c [|ch r']]; simpl; try reflexivity.
  - destruct (N.eqb c 60); reflexivity.
  - destruct (N.eqb c 60); [|reflexivity]. destruct (not_gt ch); [|reflexivity].
    cbn [andb]. destruct (drop_run not_gt r') eqn:E.
    + apply drop_run_nil in E. rewrite E. reflexivity.
    + destruct (forallb not_gt r') eqn:F; [|reflexivity].
      apply drop_run_nil in F. congruence.
Qed.

Lemma tag_free_cons c s :
  tag_free (c :: s) = negb (opens_tag (c :: s)) && tag_free s.
Proof.
  cbn [tag_free]. rewrite after_tag_opens. destruct (after_tag (c :: s)); reflexivity.
Qed.

Lemma after_tag_suffix s r : after_tag s = Some r ->
  exists p, s = p ++ r /\ 2 <= length p.
Proof.
  destruct s as [|c [|ch r']]; simpl; try discriminate.
  - destruct (N.eqb c 60); discriminate.
  - destruct (N.eqb c 60); [|discriminate]. destruct (not_gt ch); [|discriminate].
    pose proof (take_drop_run not_gt r') as H.
    destruct (drop_run not_gt r') as [|d r'']; [discriminate|].
    intros [= <-]. exists (c :: ch :: take_run not_gt r' ++ [d]). split.
    + simpl. rewrite <- app_assoc. simpl. rewrite H. reflexivity.
    + simpl. lia.
Qed.

Lemma strip_tags_strip : forall n s pos, length s <= n ->
  replace_from no_flags re_tag (fun _ => []) pos s 0 = strip n s.
Proof.
  induction n as [|n IH]; intros s pos Hn.
  - destruct s; [|simpl in Hn; lia]. cbn [replace_from]. rewrite match_at_tag. reflexivity.
  - destruct s as [|c s]; cbn [replace_from strip]; rewrite match_at_tag; [reflexivity|].
    destruct (after_tag (c :: s)) as [r|] eqn:E.
    + destruct (after_tag_suffix _ E) as (p & Hp & Hlen).
      destruct p as [|c' p]; [simpl in Hlen; lia|].
      simpl in Hp. injection Hp as -> Hs. subst s.
      cbn [mr_text app].
      replace (length (c' :: p ++ r) - length r) with (S (length p))
        by (cbn [length]; rewrite length_app; lia).
      cbn [firstn]. rewrite skip_all.
      2:{ rewrite length_firstn, length_app. lia. }
      rewrite length_firstn, length_app.
      replace (Nat.min (length p) (length p + length r)) with (length p) by lia.
      rewrite skipn_app, skipn_all, Nat.sub_diag. cbn [skipn app].
      apply IH. simpl in Hn. rewrite length_app in Hn. lia.
    + rewrite IH by (simpl in Hn; lia). reflexivity.
Qed.

Lemma strip_keeps_not_gt : forall n s,
  forallb not_gt s = true -> forallb not_gt (strip n s) = true.
Proof.
  induction n as [|n IH]; intros s H; [reflexivity|].
  destruct s as [|c s]; [reflexivity|]. cbn [strip].
  destruct (after_tag (c :: s)) as [r|] eqn:E.
  - apply IH. destruct (after_tag_suffix _ E) as (p & Hp & _).
    rewrite Hp, forallb_app in H. apply andb_true_iff in H. tauto.
  - cbn [forallb] in *. apply andb_true_iff in H as [Hc Hs].
    rewrite Hc, IH by exact Hs. reflexivity.
Qed.

Lemma strip_head_gt n c s :
  N.eqb c 62 = true -> strip (S n) (c :: s) = c :: strip n s.
Proof.
  intros H. cbn [strip after_tag].
  replace (N.eqb c 60) with false; [reflexivity|].
  apply N.eqb_eq in H. subst c. reflexivity.
Qed.

Lemma strip_tag_free : forall n s, length s <= n -> tag_free (strip n s) = true.
Proof.
  induction n as [|n IH]; intros s Hn; [reflexivity|].
  destruct s as [|c s]; [reflexivity|]. cbn [strip].
  destruct (after_tag (c :: s)) as [r|] eqn:E.
  - apply IH. destruct (after_tag_suffix _ E) as (p & Hp & Hl).
    apply (f_equal (@length N)) in Hp. rewrite length_app in Hp. lia.
  - rewrite tag_free_cons, IH by (simpl in Hn; lia). rewrite andb_true_r.
    apply negb_true_iff.
    assert (Ho : opens_tag (c :: s) = false) by (rewrite after_tag_opens, E; reflexivity).
    destruct s as [|ch r']; [destruct n; reflexivity|].
    cbn [opens_tag] in Ho.
    destruct (N.eqb c 60) eqn:Ec.
    2:{ destruct (strip n (ch :: r')) as [|a t]; cbn [opens_tag]; rewrite ?Ec; reflexivity. }
    destruct (not_gt ch) eqn:Eg.
    + cbn [andb] in Ho. apply negb_false_iff in Ho.
      assert (Hall : forallb not_gt (strip n (ch :: r')) = true).
      { apply strip_keeps_not_gt. cbn [forallb]. rewrite Eg, Ho. reflexivity. }
      destruct (strip n (ch :: r')) as [|a t]; cbn [opens_tag]; [reflexivity|].
      cbn [forallb] in Hall. apply andb_true_iff in Hall as [Ha Ht].
      rewrite Ht. cbn [negb]. apply andb_false_r.
    + unfold not_gt in Eg. apply negb_false_iff in Eg.
      destruct n as [|n]; [simpl in Hn; lia|].
      rewrite strip_head_gt by exact Eg. cbn [opens_tag].
      unfold not_gt. rewrite Eg. cbn [negb andb]. rewrite andb_false_r. reflexivity.
Qed.

Lemma strip_tags_tag_free s : tag_free (strip_tags s) = true.
Proof.
  unfold strip_tags, replace_all.
  rewrite (strip_tags_strip (n := length s)) by lia.
  apply strip_tag_free. lia.
Qed.

(** *** White space *)

Lemma squeeze_true_starts_black s : starts_black (squeeze true s) = true.
Proof.
  induction s as [|c s IH]; simpl; [reflexivity|].
  destruct (is_space c) eqn:E; [exact IH|]. simpl. rewrite E. reflexivity.
Qed.

Lemma squeeze_squeezed : forall s b, squeezed (squeeze b s) = true.
Proof.
  induction s as [|c s IH]; intros b; simpl; [reflexivity|].
  destruct (is_space c) eqn:E.
  - destruct b; [apply IH|].
    cbn [squeezed]. change (is_space 32) with true. cbn [N.eqb Pos.eqb andb].
    rewrite IH, andb_true_r. apply squeeze_true_starts_black.
  - cbn [squeezed]. rewrite E, IH. reflexivity.
Qed.

Lemma squeeze_black s : starts_black s = true -> squeeze true s = squeeze false s.
Proof.
  destruct s as [|c s]; simpl; [reflexivity|].
  intros H. apply negb_true_iff in H. rewrite H. reflexivity.
Qed.

Lemma squeezed_id : forall s, squeezed s = true -> squeeze false s = s.
Proof.
  induction s as [|c s IH]; simpl; [reflexivity|]. intros H.
  apply andb_true_iff in H as [Hc Hs]. destruct (is_space c).
  - apply andb_true_iff in Hc as [Hc Hb]. apply N.eqb_eq in Hc. subst c.
    rewrite squeeze_black by exact Hb. rewrite IH by exact Hs. reflexivity.
  - rewrite IH by exact Hs. reflexivity.
Qed.

Lemma squeezed_app_l : forall a b, squeezed (a ++ b) = true -> squeezed a = true.
Proof.
  induction a as [|c a IH]; intros b H; [reflexivity|].
  cbn [app squeezed] in *. apply andb_true_iff in H as [Hc Hs].
  rewrite (IH b Hs), andb_true_r. destruct (is_space c); [|reflexivity].
  apply andb_true_iff in Hc as [Hc Hb]. rewrite Hc. cbn [andb].
  destruct a; [reflexivity|exact Hb].
Qed.

Lemma squeezed_app_r : forall a b, squeezed (a ++ b) = true -> squeezed b = true.
Proof.
  induction a as [|c a IH]; intros b H; [exact H|].
  cbn [app squeezed] in H. apply andb_true_iff in H as [_ Hs]. exact (IH b Hs).
Qed.

Lemma squeezed_spaces : forall s c, squeezed s = true -> In c s ->
  is_space c = true -> c = 32%N.
Proof.
  induction s as [|d s IH]; intros c H Hin Hc; [destruct Hin|].
  cbn [squeezed] in H. apply andb_true_iff in H as [Hd Hs].
  destruct Hin as [->|Hin]; [|exact (IH c Hs Hin Hc)].
  rewrite Hc in Hd. apply andb_true_iff in Hd as [Hd _]. apply N.eqb_eq. exact Hd.
Qed.

(** *** Trimming *)

Lemma trimStart_drop s : trimStart s = drop_run is_space s.
Proof. induction s as [|c s IH]; simpl; [reflexivity|]. rewrite IH. reflexivity. Qed.

Lemma trimStart_suffix s : exists a, s = a ++ trimStart s.
Proof. exists (take_run is_space s). rewrite trimStart_drop, take_drop_run. reflexivity. Qed.

Lemma trimEnd_prefix s : exists b, s = trimEnd s ++ b.
Proof.
  unfold trimEnd. destruct (trimStart_suffix (rev s)) as [a Ha].
  exists (rev a). rewrite <- rev_app_distr, <- Ha, rev_involutive. reflexivity.
Qed.

Lemma trimStart_black s : starts_black s = true -> trimStart s = s.
Proof.
  destruct s as [|c s]; simpl; [reflexivity|].
  intros H. apply negb_true_iff in H. rewrite H. reflexivity.
Qed.

Lemma trimStart_starts_black s : starts_black (trimStart s) = true.
Proof.
  induction s as [|c s IH]; simpl; [reflexivity|].
  destruct (is_space c) eqn:E; [exact IH|]. simpl. rewrite E. reflexivity.
Qed.

Lemma trimEnd_idem s : trimEnd (trimEnd s) = trimEnd s.
Proof.
  unfold trimEnd. rewrite rev_involutive.
  rewrite trimStart_black by apply trimStart_starts_black. reflexivity.
Qed.

Lemma starts_black_prefix a b : starts_black (a ++ b) = true -> starts_black a = true.
Proof. destruct a; [reflexivity|exact (fun H => H)]. Qed.

Lemma trim_idem s : trim (trim s) = trim s.
Proof.
  unfold trim.
  assert (H : starts_black (trimEnd (trimStart s)) = true).
  { destruct (trimEnd_prefix (trimStart s)) as [b Hb].
    apply starts_black_prefix with (b := b). rewrite <- Hb.
    apply trimStart_starts_black. }
  rewrite trimStart_black by exact H. apply trimEnd_idem.
Qed.

Lemma trim_middle s : exists a b, s = a ++ trim s ++ b.
Proof.
  unfold trim. destruct (trimStart_suffix s) as [a Ha].
  destruct (trimEnd_prefix (trimStart s)) as [b Hb].
  exists a, b. rewrite <- Hb. exact Ha.
Qed.

(** *** Tags, white space and trimming together *)

Lemma space_not_gt c : is_space c = true -> not_gt c = true.
Proof.
  intros H. unfold not_gt. destruct (N.eqb c 62) eqn:E; [|reflexivity].
  apply N.eqb_eq in E. subst c. discriminate H.
Qed.

Lemma squeeze_not_gt : forall s b,
  forallb not_gt (squeeze b s) = forallb not_gt s.
Proof.
  induction s as [|c s IH]; intros b; simpl; [reflexivity|].
  destruct (is_space c) eqn:E.
  - rewrite (@space_not_gt c E). destruct b; simpl; apply IH.
  - simpl. rewrite IH. reflexivity.
Qed.

Lemma tag_free_app_l : forall a b, tag_free (a ++ b) = true -> tag_free a = true.
Proof.
  induction a as [|c a IH]; intros b H; [reflexivity|].
  change ((c :: a) ++ b) with (c :: (a ++ b)) in H.
  rewrite tag_free_cons in *. apply andb_true_iff in H as [Ho Ht].
  rewrite (IH b Ht), andb_true_r. apply negb_true_iff. apply negb_true_iff in Ho.
  destruct a as [|ch r]; [reflexivity|]. cbn [app opens_tag] in *.
  rewrite forallb_app in Ho.
  destruct (N.eqb c 60), (not_gt ch), (forallb not_gt r); try reflexivity; exact Ho.
Qed.

Lemma tag_free_app_r : forall a b, tag_free (a ++ b) = true -> tag_free b = true.
Proof.
  induction a as [|c a IH]; intros b H; [exact H|].
  change ((c :: a) ++ b) with (c :: (a ++ b)) in H.
  rewrite tag_free_cons in H. apply andb_true_iff in H as [_ Ht]. exact (IH b Ht).
Qed.

Lemma squeeze_tag_free : forall s b,
  tag_free s = true -> tag_free (squeeze b s) = true.
Proof.
  induction s as [|c s IH]; intros b H; [reflexivity|].
  rewrite tag_free_cons in H. apply andb_true_iff in H as [Ho Ht].
  apply negb_true_iff in Ho. cbn [squeeze].
  destruct (is_space c) eqn:E.
  - assert (Hc : N.eqb c 60 = false).
    { destruct (N.eqb c 60) eqn:F; [|reflexivity].
      apply N.eqb_eq in F. subst c. discriminate E. }
    destruct b; [apply IH; exact Ht|].
    rewrite tag_free_cons, IH by exact Ht. rewrite andb_true_r.
    destruct (squeeze true s) as [|a t]; reflexivity.
  - rewrite tag_free_cons, IH by exact Ht. rewrite andb_true_r.
    apply negb_true_iff.
    destruct s as [|ch r]; [reflexivity|]. cbn [opens_tag] in Ho. cbn [squeeze].
    destruct (is_space ch) eqn:F.
    + cbn [opens_tag]. rewrite squeeze_not_gt.
      rewrite (@space_not_gt ch F) in Ho. exact Ho.
    + cbn [opens_tag]. rewrite squeeze_not_gt. exact Ho.
Qed.

(** *** [clean] in closed form *)

Lemma squeezed_no_newline s : squeezed s = true ->
  forallb (fun c => negb (N.eqb c 10)) s = true.
Proof.
  intros H. apply forallb_forall. intros c Hin. apply negb_true_iff.
  destruct (N.eqb c 10) eqn:E; [|reflexivity].
  apply N.eqb_eq in E. subst c.
  discriminate (@squeezed_spaces s _ H Hin eq_refl).
Qed.

Lemma squeezed_no_nbsp s : squeezed s = true -> map nbsp_to_space s = s.
Proof.
  intros H. rewrite <- (map_id s) at 2. apply map_ext_in. intros c Hin.
  unfold nbsp_to_space. destruct (N.eqb c 160) eqn:E; [|reflexivity].
  apply N.eqb_eq in E. subst c.
  discriminate (@squeezed_spaces s _ H Hin eq_refl).
Qed.

Theorem clean_text_closed_form s :
  clean_text s = trim (squeeze false (strip_tags (map nbsp_to_space s))).
Proof.
  unfold clean_text. f_equal.
  change (lit " ") with [32%N].
  unfold replace_all at 4. rewrite replace_nbsp.
  fold (strip_tags (map nbsp_to_space s)).
  rewrite replace_spaces.
  unfold replace_all. apply replace_newlines_id.
  apply squeezed_no_newline, squeeze_squeezed.
Qed.

Lemma clean_text_normal s :
  squeezed (clean_text s) = true /\ tag_free (clean_text s) = true.
Proof.
  rewrite clean_text_closed_form.
  set (u := squeeze false (strip_tags (map nbsp_to_space s))).
  destruct (trim_middle u) as (a & b & Hu).
  assert (Hs : squeezed u = true) by apply squeeze_squeezed.
  assert (Ht : tag_free u = true) by apply squeeze_tag_free, strip_tags_tag_free.
  rewrite Hu in Hs, Ht. split.
  - apply squeezed_app_r in Hs. apply squeezed_app_l in Hs. exact Hs.
  - apply tag_free_app_r in Ht. apply tag_free_app_l in Ht. exact Ht.
Qed.

Theorem clean_text_idempotent s : clean_text (clean_text s) = clean_text s.
Proof.
  destruct (clean_text_normal s) as [Hs Ht].
  rewrite (clean_text_closed_form (clean_text s)).
  rewrite squeezed_no_nbsp by exact Hs.
  rewrite strip_tags_id by exact Ht.
  rewrite squeezed_id by exact Hs.
  rewrite clean_text_closed_form. apply trim_idem.
Qed.

(** *** Texts that [clean] leaves as they are *)

Lemma trim_starts_black s : starts_black (trim s) = true.
Proof.
  unfold trim. destruct (trimEnd_prefix (trimStart s)) as [b Hb].
  apply starts_black_prefix with (b := b). rewrite <- Hb.
  apply trimStart_starts_black.
Qed.

Lemma clean_text_starts_black s : starts_black (clean_text s) = true.
Proof. unfold clean_text. apply trim_starts_black. Qed.

Lemma trim_ends_black s : starts_black (rev (trim s)) = true.
Proof.
  unfold trim, trimEnd. rewrite rev_involutive. apply trimStart_starts_black.
Qed.

Lemma tag_free_cons_other c s : N.eqb c 60 = false -> tag_free (c :: s) = tag_free s.
Proof. intros H. cbn [tag_free after_tag]. rewrite H. reflexivity. Qed.

Lemma squeezed_cons_black c s : is_space c = false -> squeezed (c :: s) = squeezed s.
Proof. intros H. cbn [squeezed]. rewrite H. reflexivity. Qed.

Lemma starts_black_app a b : a <> [] -> starts_black (a ++ b) = starts_black a.
Proof. destruct a; [congruence|reflexivity]. Qed.

Lemma trimEnd_black s : starts_black (rev s) = true -> trimEnd s = s.
Proof.
  intros H. unfold trimEnd. rewrite trimStart_black by exact H.
  apply rev_involutive.
Qed.

(** A text that [clean] leaves as it is stays so behind [NOT: ]. *)
Lemma clean_text_not_prefix t :
  clean_text t = t -> t <> [] -> clean_text (lit "NOT: " ++ t) = lit "NOT: " ++ t.
Proof.
  intros Ht Hne.
  destruct (clean_text_normal t) as [Hsq Htf]. rewrite Ht in Hsq, Htf.
  assert (Hsb : starts_black t = true)
    by (rewrite <- Ht; apply clean_text_starts_black).
  assert (Heb : starts_black (rev t) = true).
  { rewrite <- Ht, clean_text_closed_form. apply trim_ends_black. }
  rewrite clean_text_closed_form.
  rewrite map_app, (squeezed_no_nbsp t Hsq).
  change (map nbsp_to_space (lit "NOT: ")) with (lit "NOT: ").
  change (lit "NOT: " ++ t) with (78 :: 79 :: 84 :: 58 :: 32 :: t)%N.
  rewrite strip_tags_id by (rewrite !tag_free_cons_other by reflexivity; exact Htf).
  rewrite squeezed_id.
  2:{ rewrite !squeezed_cons_black by reflexivity.
      cbn [squeezed]. change (is_space 32) with true. cbn [N.eqb Pos.eqb andb].
      fold (starts_black t). rewrite Hsb, Hsq. reflexivity. }
  unfold trim. rewrite trimStart_black by reflexivity.
  apply trimEnd_black.
  change (78 :: 79 :: 84 :: 58 :: 32 :: t)%N with ([78; 79; 84; 58; 32]%N ++ t).
  rewrite rev_app_distr, starts_black_app; [exact Heb|].
  intros E. apply Hne. apply (f_equal (@rev N)) in E.
  rewrite rev_involutive in E. exact E.
Qed.

(** *** The fuel of [JSON.parse] *)

Lemma skip_ws_length s : length (skip_ws s) <= length s.
Proof. induction s as [|c s IH]; simpl; [lia|]. destruct (json_ws c); simpl; lia. Qed.

Lemma head_is_length c s : head_is c s = true -> S (length (skipn 1 s)) = length s.
Proof. destruct s; [discriminate|]. reflexivity. Qed.

Lemma skipn_length_le (A : Type) n (s : list A) : length (skipn n s) <= length s.
Proof. rewrite length_skipn. lia. Qed.

Lemma parse_string_body_length : forall n s t r, length s <= n ->
  parse_string_body s = Some (t, r) -> length r < length s.
Proof.
  induction n as [|n IH]; intros s t r Hn H;
    destruct s as [|c s]; try discriminate; [simpl in Hn; lia|].
  cbn [parse_string_body] in H. cbn [length] in *.
  destruct (N.eqb c 34); [injection H as _ <-; lia|].
  destruct (N.eqb c 92).
  - destruct s as [|e s]; [discriminate|]. cbn [length] in *.
    destruct (N.eqb e 117).
    + destruct s as [|h1 [|h2 [|h3 [|h4 s]]]]; try discriminate.
      destruct (hex4 h1 h2 h3 h4); [|discriminate].
      destruct (parse_string_body s) as [[t' r']|] eqn:E; [|discriminate].
      injection H as _ <-. apply IH in E; cbn [length] in *; lia.
    + destruct (simple_escape e); [|discriminate].
      destruct (parse_string_body s) as [[t' r']|] eqn:E; [|discriminate].
      injection H as _ <-. apply IH in E; lia.
  - destruct (N.ltb c 32); [discriminate|].
    destruct (parse_string_body s) as [[t' r']|] eqn:E; [|discriminate].
    injection H as _ <-. apply IH in E; lia.
Qed.

Lemma parse_string_body_shorter s t r :
  parse_string_body s = Some (t, r) -> length r < length s.
Proof. apply (@parse_string_body_length (length s)). lia. Qed.

Lemma span_digits_length : forall s d r, span_digits s = (d, r) ->
  length d + length r = length s.
Proof.
  induction s as [|c s IH]; intros d r H; cbn [span_digits] in H.
  - injection H as <- <-. reflexivity.
  - destruct (is_digit c).
    + destruct (span_digits s) as [d' r'] eqn:E. injection H as <- <-.
      specialize (IH _ _ eq_refl). cbn [length]. lia.
    + injection H as <- <-. reflexivity.
Qed.

Lemma parse_number_length s n r :
  parse_number s = Some (n, r) -> length r < length s.
Proof.
  unfold parse_number. cbv zeta.
  set (s1 := if head_is 45 s then skipn 1 s else s).
  assert (H1 : length s1 <= length s).
  { unfold s1. destruct (head_is 45 s); [apply skipn_length_le|lia]. }
  destruct (span_digits s1) as [int s2] eqn:E1. apply span_digits_length in E1.
  destruct int as [|d0 more]; [discriminate|]. cbn [length] in E1.
  destruct (_ && _); [discriminate|].
  assert (H2 : forall frac s3,
            (if head_is 46 s2
             then let (f, r0) := span_digits (skipn 1 s2) in
                  match f with [] => None | _ :: _ => Some (f, r0) end
             else Some ([], s2)) = Some (frac, s3) -> length s3 <= length s2).
  { intros frac s3. destruct (head_is 46 s2).
    - destruct (span_digits (skipn 1 s2)) as [f r0] eqn:E. apply span_digits_length in E.
      pose proof (skipn_length_le 1 s2). destruct f; [discriminate|].
      intros [= <- <-]. lia.
    - intros [= <- <-]. lia. }
  destruct (if head_is 46 s2 then _ else _) as [[frac s3]|]; [|discriminate].
  specialize (H2 _ _ eq_refl).
  match goal with |- context [if ?b then ?x else ?y] =>
    assert (H3 : forall e s4, (if b then x else y) = Some (e, s4) ->
                              length s4 <= length s3) end.
  { intros e s4. destruct (_ || _).
    - cbv zeta. destruct (span_digits _) as [ed r0] eqn:E. apply span_digits_length in E.
      destruct ed; [discriminate|]. intros [= _ <-].
      pose proof (skipn_length_le 1 s3).
      pose proof (skipn_length_le 1 (skipn 1 s3)).
      destruct (_ || _) in E; lia.
    - intros [= _ <-]. lia. }
  destruct (if _ || _ then _ else _) as [[e s4]|]; [|discriminate].
  specialize (H3 _ _ eq_refl). intros [= _ <-]. lia.
Qed.

Lemma startsWith_length : forall p s, startsWith s p = true -> length p <= length s.
Proof.
  induction p as [|a p IH]; intros s H; [cbn; lia|].
  destruct s as [|b s]; [discriminate|]. cbn in H.
  apply andb_true_iff in H as [_ H]. apply IH in H. cbn. lia.
Qed.

Ltac result_rest H :=
  match type of H with
  | Some (_, ?a) = Some (_, ?r) =>
      let E := fresh in assert (E : r = a) by congruence; clear H; subst r
  end.

(** A parser that succeeds has read something. *)
Lemma parse_shorter : forall n,
  (forall s v r, parse_value n s = Some (v, r) -> length r < length s)
  /\ (forall s acc v r, parse_elements n s acc = Some (v, r) -> length r < length s)
  /\ (forall s acc v r, parse_members n s acc = Some (v, r) -> length r < length s).
Proof.
  induction n as [|n (IHv & IHe & IHm)]; [repeat split; discriminate|].
  split; [|split].
  - intros s v r H. cbn [parse_value] in H. cbv zeta in H.
    pose proof (skip_ws_length s) as H0. set (s0 := skip_ws s) in *.
    destruct (head_is 123 s0) eqn:E1.
    { apply head_is_length in E1.
      pose proof (skip_ws_length (skipn 1 s0)) as H1. set (s1 := skip_ws (skipn 1 s0)) in *.
      destruct (head_is 125 s1) eqn:E2.
      - apply head_is_length in E2. result_rest H. lia.
      - apply IHm in H. lia. }
    destruct (head_is 91 s0) eqn:E2.
    { apply head_is_length in E2.
      pose proof (skip_ws_length (skipn 1 s0)) as H1. set (s1 := skip_ws (skipn 1 s0)) in *.
      destruct (head_is 93 s1) eqn:E3.
      - apply head_is_length in E3. result_rest H. lia.
      - apply IHe in H. lia. }
    destruct (head_is 34 s0) eqn:E3.
    { apply head_is_length in E3.
      destruct (parse_string_body (skipn 1 s0)) as [[t r']|] eqn:E; [|discriminate].
      result_rest H. apply parse_string_body_shorter in E. lia. }
    destruct (startsWith s0 (lit "true")) eqn:E4.
    { apply startsWith_length in E4. result_rest H.
      rewrite length_skipn. cbn in E4. lia. }
    destruct (startsWith s0 (lit "false")) eqn:E5.
    { apply startsWith_length in E5. result_rest H.
      rewrite length_skipn. cbn in E5. lia. }
    destruct (startsWith s0 (lit "null")) eqn:E6.
    { apply startsWith_length in E6. result_rest H.
      rewrite length_skipn. cbn in E6. lia. }
    destruct (parse_number s0) as [[num r']|] eqn:E; [|discriminate].
    result_rest H. apply parse_number_length in E. lia.
  - intros s acc v r H. cbn [parse_elements] in H.
    destruct (parse_value n s) as [[v' r']|] eqn:E; [|discriminate].
    apply IHv in E. cbv zeta in H.
    pose proof (skip_ws_length r') as H0. set (r0 := skip_ws r') in *.
    destruct (head_is 44 r0) eqn:E1.
    { apply head_is_length in E1. apply IHe in H. lia. }
    destruct (head_is 93 r0) eqn:E2; [|discriminate].
    apply head_is_length in E2. result_rest H. lia.
  - intros s acc v r H. cbn [parse_members] in H. cbv zeta in H.
    pose proof (skip_ws_length s) as H0. set (s0 := skip_ws s) in *.
    destruct (head_is 34 s0) eqn:E1; [|discriminate].
    apply head_is_length in E1.
    destruct (parse_string_body (skipn 1 s0)) as [[k r1]|] eqn:E; [|discriminate].
    apply parse_string_body_shorter in E.
    pose proof (skip_ws_length r1) as H1. set (r0 := skip_ws r1) in *.
    destruct (head_is 58 r0) eqn:E2; [|discriminate].
    apply head_is_length in E2.
    destruct (parse_value n (skipn 1 r0)) as [[v' r2]|] eqn:E3; [|discriminate].
    apply IHv in E3.
    pose proof (skip_ws_length r2) as H2. set (r3 := skip_ws r2) in *.
    destruct (head_is 44 r3) eqn:E4.
    { apply head_is_length in E4. apply IHm in H. lia. }
    destruct (head_is 125 r3) eqn:E5; [|discriminate].
    apply head_is_length in E5. result_rest H. lia.
Qed.

(** Beyond twice the length of the text, more fuel changes nothing. *)
Lemma parse_fuel_enough : forall n,
  (forall s m, 2 * length s + 1 <= n -> 2 * length s + 1 <= m ->
     parse_value n s = parse_value m s)
  /\ (forall s acc m, 2 * length s + 2 <= n -> 2 * length s + 2 <= m ->
        parse_elements n s acc = parse_elements m s acc)
  /\ (forall s acc m, 2 * length s + 2 <= n -> 2 * length s + 2 <= m ->
        parse_members n s acc = parse_members m s acc).
Proof.
  induction n as [|n (IHv & IHe & IHm)]; [repeat split; intros; lia|].
  split; [|split].
  - intros s [|m] Hn Hm; [lia|]. cbn [parse_value]. cbv zeta.
    pose proof (skip_ws_length s) as H0. set (s0 := skip_ws s) in *.
    destruct (head_is 123 s0) eqn:E1.
    { apply head_is_length in E1.
      pose proof (skip_ws_length (skipn 1 s0)) as H1. set (s1 := skip_ws (skipn 1 s0)) in *.
      destruct (head_is 125 s1); [reflexivity|]. apply IHm; lia. }
    destruct (head_is 91 s0) eqn:E2; [|reflexivity].
    apply head_is_length in E2.
    pose proof (skip_ws_length (skipn 1 s0)) as H1. set (s1 := skip_ws (skipn 1 s0)) in *.
    destruct (head_is 93 s1); [reflexivity|]. apply IHe; lia.
  - intros s acc [|m] Hn Hm; [lia|]. cbn [parse_elements].
    rewrite (IHv s m) by lia.
    destruct (parse_value m s) as [[v r]|] eqn:E; [|reflexivity].
    apply (proj1 (parse_shorter m)) in E. cbv zeta.
    pose proof (skip_ws_length r) as H0. set (r0 := skip_ws r) in *.
    destruct (head_is 44 r0) eqn:E1; [|reflexivity].
    apply head_is_length in E1. apply IHe; lia.
  - intros s acc [|m] Hn Hm; [lia|]. cbn [parse_members]. cbv zeta.
    pose proof (skip_ws_length s) as H0. set (s0 := skip_ws s) in *.
    destruct (head_is 34 s0) eqn:E1; [|reflexivity].
    apply head_is_length in E1.
    destruct (parse_string_body (skipn 1 s0)) as [[k r1]|] eqn:E; [|reflexivity].
    apply parse_string_body_shorter in E.
    pose proof (skip_ws_length r1) as H1. set (r0 := skip_ws r1) in *.
    destruct (head_is 58 r0) eqn:E2; [|reflexivity].
    apply head_is_length in E2.
    rewrite (IHv (skipn 1 r0) m) by lia.
    destruct (parse_value m (skipn 1 r0)) as [[v r2]|] eqn:E3; [|reflexivity].
    apply (proj1 (parse_shorter m)) in E3.
    pose proof (skip_ws_length r2) as H2. set (r3 := skip_ws r2) in *.
    destruct (head_is 44 r3) eqn:E4; [|reflexivity].
    apply head_is_length in E4. apply IHm; lia.
Qed.

(** [JSON.parse] does not depend on its fuel: any amount of fuel above
    [parse_fuel] gives the same result. *)
Theorem JSON_parse_fuel text n : parse_fuel text <= n ->
  JSON_parse text
  = match parse_value n text with
    | Some (v, r) => match skip_ws r with [] => Some v | _ => None end
    | None => None
    end.
Proof.
  intros Hn. unfold JSON_parse, parse_fuel in *.
  rewrite (proj1 (parse_fuel_enough (2 * length text + 2)) text n) by lia.
  reflexivity.
Qed.

Lemma sets_group_ok fl : forall r k, sets_group k r = true ->
  forall x c z, compile fl r x c = Some z ->
  exists y, c y = Some z
            /\ length (ms_caps y) = length (ms_caps x)
            /\ (k < length (ms_caps x) -> exists t, nth k (ms_caps y) None = Some t).
Proof.
  induction r as [| a | | neg items | r1 IH1 r2 IH2 | r1 IH1 r2 IH2
                  | r IH min max greedy | i r IH | r IH | | ];
    intros k Hs x c z H; cbn [sets_group] in Hs; try discriminate.
  - cbn [compile] in H. apply orb_true_iff in Hs as [Hs|Hs].
    + apply andb_true_iff in Hs as [Ha Hb].
      destruct (IH1 k Ha _ _ _ H) as (y1 & Hy1 & L1 & N1).
      apply compile_through in Hy1 as (y & Hy & [L K]).
      exists y. split; [exact Hy|]. split; [congruence|].
      intros Hk. destruct (N1 Hk) as [t Ht]. exists t. rewrite K; [exact Ht|].
      intros Hin. apply negb_true_iff in Hb.
      assert (existsb (Nat.eqb k) (cap_indices r2) = true); [|congruence].
      apply existsb_exists. exists k. split; [exact Hin|apply Nat.eqb_refl].
    + apply compile_through in H as (y1 & Hy1 & [L1 _]).
      destruct (IH2 k Hs _ _ _ Hy1) as (y & Hy & L & N2).
      exists y. split; [exact Hy|]. split; [congruence|].
      intros Hk. apply N2. rewrite L1. exact Hk.
  - cbn [compile] in H. destruct (Nat.eqb (pred i) k) eqn:E.
    + apply Nat.eqb_eq in E. subst k.
      apply compile_through in H as (y & Hy & [L _]).
      eexists. split; [exact Hy|]. cbn [set_cap ms_caps].
      rewrite set_nth_length. split; [exact L|].
      intros Hk. eexists. apply set_nth_same. rewrite L. exact Hk.
    + cbn [orb] in Hs. destruct (IH k Hs _ _ _ H) as (y & Hy & L & N1).
      eexists. split; [exact Hy|]. cbn [set_cap ms_caps].
      rewrite set_nth_length. split; [exact L|].
      intros Hk. destruct (N1 Hk) as [t Ht]. exists t.
      rewrite set_nth_other; [exact Ht|].
      apply Nat.eqb_neq in E. congruence.
Qed.

(** A group that every match sets is a string in the result. *)
Lemma group_defined fl r i pos rest res :
  match_at fl r pos rest = Some res ->
  sets_group (pred i) r = true -> 1 <= i <= ngroups r ->
  exists t, group res i = JStr t.
Proof.
  unfold match_at. intros H Hs Hi.
  destruct (compile fl r _ _) as [z|] eqn:E; [|discriminate].
  injection H as <-.
  destruct (sets_group_ok fl r _ Hs _ _ E) as (y & [= <-] & L & Hn).
  cbn [ms_caps] in Hn. rewrite repeat_length in Hn.
  destruct Hn as [t Ht]; [lia|].
  exists t. unfold group. cbn [mr_groups]. rewrite Ht. reflexivity.
Qed.

Lemma exec_from_match_at fl r : forall rest pos res,
  exec_from fl r pos rest = Some res ->
  exists pos' rest', match_at fl r pos' rest' = Some res.
Proof.
  induction rest as [|ch rest IH]; intros pos res H; cbn [exec_from] in H.
  - destruct (match_at fl r pos []) eqn:E; [|discriminate].
    injection H as <-. eauto.
  - destruct (match_at fl r pos (ch :: rest)) eqn:E.
    + injection H as <-. eauto.
    + eapply IH. exact H.
Qed.

Lemma exec_group_defined fl r i s res :
  exec fl r s = Some res ->
  sets_group (pred i) r = true -> 1 <= i <= ngroups r ->
  exists t, group res i = JStr t.
Proof.
  intros H Hs Hi. apply exec_from_match_at in H as (pos & rest & H).
  eapply group_defined; eassumption.
Qed.

(** The scan of the scripts throws nothing. *)
Lemma from_scripts_total : forall scripts songData,
  exists v, from_scripts scripts songData = Ok v.
Proof.
  induction scripts as [|script rest IH]; intros sd; cbn [from_scripts]; [eauto|].
  destruct (exec no_flags re_script_body script) as [m|] eqn:E; [|apply IH].
  destruct (exec_group_defined (i := 1) _ _ _ E) as [t Ht];
    [reflexivity | cbv; lia |].
  rewrite Ht. cbn [as_string bind].
  destruct (startsWith (trim t) (lit "{")); [|apply IH].
  destruct (song_like t); [eauto|apply IH].
Qed.

Lemma locate_total html : exists loc, locate html = Ok loc.
Proof.
  unfold locate.
  destruct (from_next_data (exec no_flags re_next_data html)) as [sd1 nd].
  destruct (if negb (truthy sd1) then _ else _) as [sd2 st] eqn:E2.
  cbn zeta. 
  match goal with |- context [from_scripts ?a ?b] =>
    destruct (from_scripts_total a b) as [v' Hv'] end.
  rewrite Hv'. cbn [bind]. eauto.
Qed.

(** *** Literals and stars on a page *)

Lemma startsWith_app p b : startsWith (p ++ b) p = true.
Proof. induction p as [|a p IH]; [reflexivity|]. cbn. rewrite N.eqb_refl. exact IH. Qed.

Lemma indexOf_from_hit n s p : startsWith s p = true -> indexOf_from n s p = Some n.
Proof. intros H. destruct s; cbn [indexOf_from]; rewrite H; reflexivity. Qed.

Lemma includes_app a p b : includes (a ++ p ++ b) p = true.
Proof.
  unfold includes, indexOf. generalize 0.
  induction a as [|c a IH]; intros n; cbn [app].
  - rewrite indexOf_from_hit by apply startsWith_app. reflexivity.
  - cbn [indexOf_from]. destruct (startsWith (c :: a ++ p ++ b) p); [reflexivity|]. apply IH.
Qed.

Lemma advance_by_0 x : advance_by x 0 = x.
Proof. destruct x. reflexivity. Qed.

Lemma advance_by_S x ch r n :
  ms_rest x = ch :: r -> advance_by (advance x r) n = advance_by x (S n).
Proof.
  intros H. unfold advance_by, advance. cbn [ms_rest ms_pos ms_caps].
  rewrite H. cbn [skipn]. f_equal. lia.
Qed.

Lemma canon_plain fl c : ignoreCase fl = false -> canon fl c = c.
Proof. unfold canon. intros ->. reflexivity. Qed.

Lemma startsWith_cons s a p :
  startsWith s (a :: p)
  = match s with [] => false | b :: s' => N.eqb a b && startsWith s' p end.
Proof. reflexivity. Qed.

(** A sequence of characters matches when the input begins with them. *)
Lemma compile_chars fl : ignoreCase fl = false ->
  forall l x c,
  compile fl (seq (map RChar l)) x c
  = if startsWith (ms_rest x) l then c (advance_by x (length l)) else None.
Proof.
  intros Hfl. induction l as [|a l IH]; intros x c.
  - cbn. rewrite advance_by_0. reflexivity.
  - assert (Hstep : forall k : cont,
              char_matcher (char_ok fl a) x k
              = match ms_rest x with
                | b :: s' => if N.eqb a b then k (advance x s') else None
                | [] => None
                end).
    { intros k. unfold char_matcher, char_ok.
      destruct (ms_rest x) as [|b s']; [reflexivity|].
      rewrite !canon_plain by exact Hfl. rewrite (N.eqb_sym b a). reflexivity. }
    destruct l as [|b l].
    + cbn [map seq compile]. rewrite Hstep, startsWith_cons. cbn [length].
      destruct (ms_rest x) as [|ch s'] eqn:E; [reflexivity|].
      cbn [startsWith]. rewrite andb_true_r. destruct (N.eqb a ch); [|reflexivity].
      rewrite <- (advance_by_S x 0 E), advance_by_0. reflexivity.
    + change (seq (map RChar (a :: b :: l)))
        with (RSeq (RChar a) (seq (map RChar (b :: l)))).
      cbn [compile]. rewrite Hstep, startsWith_cons.
      destruct (ms_rest x) as [|ch s'] eqn:E; [reflexivity|].
      destruct (N.eqb a ch); [|reflexivity]. cbn [andb].
      rewrite IH. cbn [advance ms_rest].
      destruct (startsWith s' (b :: l)); [|reflexivity].
      rewrite (advance_by_S x (length (b :: l)) E). reflexivity.
Qed.

Lemma repeat_star_lazy_run ok c fuel :
  forall x, length (ms_rest x) <= fuel ->
  repeat_star (char_matcher ok) [] false fuel None x c
  = lazy_run ok c x (ms_rest x).
Proof.
  induction fuel as [|fuel IH]; intros x Hlen.
  - destruct (ms_rest x); simpl in *; [destruct (c x); reflexivity | lia].
  - cbn [repeat_star max_is_zero]. unfold char_matcher, clear_caps.
    cbn [fold_left].
    destruct (ms_rest x) as [|ch r'] eqn:E; cbn [lazy_run]; [reflexivity|].
    destruct (c x); [reflexivity|].
    destruct (ok ch); [|reflexivity].
    cbn [advance ms_pos]. rewrite leb_succ_self.
    rewrite IH by (cbn [advance ms_rest]; simpl in Hlen; lia).
    reflexivity.
Qed.

Lemma lazy_run_unfold ok c x r :
  lazy_run ok c x r
  = match c x with
    | Some z => Some z
    | None =>
        match r with
        | ch :: r' => if ok ch then lazy_run ok c (advance x r') r' else None
        | [] => None
        end
    end.
Proof. destruct r; reflexivity. Qed.

(** A lazy star stops at the first place where what follows it matches. *)
Lemma lazy_run_until ok c : forall body tail x z,
  ms_rest x = body ++ tail -> forallb ok body = true ->
  (forall j, j < length body -> c (advance_by x j) = None) ->
  c (advance_by x (length body)) = Some z ->
  lazy_run ok c x (body ++ tail) = Some z.
Proof.
  induction body as [|ch body IH]; intros tail x z Hx Hok Hnone Hz.
  - cbn [app length] in *. rewrite advance_by_0 in Hz.
    rewrite lazy_run_unfold, Hz. reflexivity.
  - cbn [app lazy_run]. cbn [app] in Hx.
    cbn [forallb] in Hok. apply andb_true_iff in Hok as [Hc Hok].
    pose proof (Hnone 0 ltac:(cbn; lia)) as H0. rewrite advance_by_0 in H0.
    rewrite H0, Hc.
    apply IH; [reflexivity | exact Hok | |].
    + intros j Hj. rewrite (advance_by_S x j Hx). apply Hnone. cbn. lia.
    + rewrite (advance_by_S x _ Hx). exact Hz.
Qed.

(** A greedy star that reads a whole run and is then accepted. *)
Lemma greedy_run_first ok k : forall run d tail x z,
  ms_rest x = run ++ d :: tail -> forallb ok run = true -> ok d = false ->
  k (advance_by x (length run)) = Some z ->
  greedy_run ok k x (run ++ d :: tail) = Some z.
Proof.
  induction run as [|ch run IH]; intros d tail x z Hx Hok Hd Hz.
  - cbn [app greedy_run length] in *. rewrite Hd. rewrite advance_by_0 in Hz. exact Hz.
  - cbn [app greedy_run]. cbn [app] in Hx.
    cbn [forallb] in Hok. apply andb_true_iff in Hok as [Hc Hok].
    rewrite Hc. erewrite IH; [reflexivity | reflexivity | exact Hok | exact Hd |].
    rewrite (advance_by_S x _ Hx). exact Hz.
Qed.

Lemma firstn_app_exact (A : Type) (a b : list A) : firstn (length a) (a ++ b) = a.
Proof. rewrite firstn_app, Nat.sub_diag, firstn_all, firstn_O, app_nil_r. reflexivity. Qed.

Lemma skipn_app_exact (A : Type) (a b : list A) : skipn (length a) (a ++ b) = b.
Proof. rewrite skipn_app, Nat.sub_diag, skipn_all. reflexivity. Qed.

Lemma compile_seq fl a b x c :
  compile fl (RSeq a b) x c = compile fl a x (fun y => compile fl b y c).
Proof. reflexivity. Qed.

(** A group of a lazy [.*?] followed by a literal captures the text up
    to the first place where the literal begins, when what follows the
    literal accepts. *)
Lemma group_lazy_until fl i L body tail x c z :
  ignoreCase fl = false ->
  ms_rest x = body ++ L ++ tail ->
  forallb (dot_ok fl) body = true ->
  (forall j, j < length body -> startsWith (skipn j (body ++ L ++ tail)) L = false) ->
  c {| ms_rest := tail;
       ms_pos := length L + (length body + ms_pos x);
       ms_caps := set_nth (pred i) (Some body) (ms_caps x) |} = Some z ->
  compile fl (RSeq (RGroup i (star_lazy RDot)) (seq (map RChar L))) x c
  = Some z.
Proof.
  intros Hfl Hx Hok Hno Hz.
  change (compile fl (RGroup i (star_lazy RDot)) x
            (fun y => compile fl (seq (map RChar L)) y c) = Some z).
  unfold star_lazy. cbn [compile repeat_min groups].
  rewrite repeat_star_lazy_run by lia. rewrite Hx.
  set (k := fun y : mstate => compile fl (seq (map RChar L)) _ c).
  assert (Hk : forall j, j <= length body ->
            k (advance_by x j)
            = if startsWith (skipn j (body ++ L ++ tail)) L
              then c (advance_by
                        (set_cap i (Some (firstn j (body ++ L ++ tail)))
                           (advance_by x j)) (length L))
              else None).
  { intros j Hj. unfold k. rewrite compile_chars by exact Hfl.
    cbn [set_cap advance_by ms_rest ms_pos ms_caps]. rewrite Hx.
    replace (j + ms_pos x - ms_pos x) with j by lia. reflexivity. }
  apply lazy_run_until; [exact Hx | exact Hok | |].
  - intros j Hj. rewrite Hk by lia. rewrite Hno by exact Hj. reflexivity.
  - rewrite Hk by lia. rewrite skipn_app_exact, startsWith_app.
    rewrite firstn_app_exact. rewrite <- Hz. f_equal.
    unfold advance_by, set_cap. cbn [ms_rest ms_pos ms_caps].
    rewrite Hx, skipn_app_exact, skipn_app_exact. reflexivity.
Qed.


(** A text without [<] does not hold the beginning of a literal that
    begins with [<]. *)
Lemma no_lt_no_start l tail : forall j body,
  no_lt body = true -> j < length body ->
  startsWith (skipn j (body ++ tail)) (60%N :: l) = false.
Proof.
  unfold no_lt.
  induction j as [|j IH]; intros body Hb Hj.
  - destruct body as [|ch body]; [cbn in Hj; lia|].
    cbn [forallb] in Hb. apply andb_true_iff in Hb as [Hc _].
    cbn [skipn app]. rewrite startsWith_cons.
    apply negb_true_iff in Hc. rewrite N.eqb_sym, Hc. reflexivity.
  - destruct body as [|ch body]; [cbn in Hj; lia|].
    cbn [forallb] in Hb. apply andb_true_iff in Hb as [_ Hb].
    cbn [skipn app]. apply IH; [exact Hb | cbn in Hj; lia].
Qed.

Lemma re_next_data_shape :
  re_next_data
  = RSeq (seq (map RChar (lit "<script" ++ next_data_attrs ++ lit ">")))
         (RSeq (RGroup 1 (star_lazy RDot)) (seq (map RChar script_close))).
Proof. reflexivity. Qed.

(** The legacy pattern at the head of its script element. *)
Lemma match_at_next_data pos body post :
  forallb (dot_ok no_flags) body = true -> no_lt body = true ->
  match_at no_flags re_next_data pos
    (script_element next_data_attrs body ++ post)
  = Some {| mr_index := pos;
            mr_text := script_element next_data_attrs body;
            mr_groups := [Some body] |}.
Proof.
  intros Hdot Hlt. unfold match_at. rewrite re_next_data_shape.
  rewrite compile_seq, compile_chars by reflexivity.
  cbn [ms_rest]. unfold script_element.
  set (open := lit "<script" ++ next_data_attrs ++ lit ">").
  replace ((lit "<script" ++ next_data_attrs ++ lit ">" ++ body ++ script_close) ++ post)
    with (open ++ body ++ script_close ++ post)
    by (unfold open; rewrite <- !app_assoc; reflexivity).
  rewrite startsWith_app.
  erewrite group_lazy_until with (body := body) (tail := post);
    [ | reflexivity
      | cbn [advance_by ms_rest]; rewrite skipn_app_exact; reflexivity
      | exact Hdot
      | intros j Hj; apply (@no_lt_no_start _ (script_close ++ post) j body Hlt Hj)
      | reflexivity ].
  cbn [ms_pos ms_caps advance_by]. f_equal. f_equal.
  replace (length script_close + (length body + (length open + pos)) - pos)
    with (length (open ++ body ++ script_close))
    by (rewrite !length_app; lia).
  replace (open ++ body ++ script_close ++ post)
    with ((open ++ body ++ script_close) ++ post)
    by (rewrite <- !app_assoc; reflexivity).
  rewrite firstn_app_exact. unfold open. rewrite <- !app_assoc. reflexivity.
Qed.

Lemma not_gt_class_any fl ch :
  ignoreCase fl = false -> class_ok fl true [CChar 62%N] ch = not_gt ch.
Proof.
  intros Hfl. unfold class_ok, class_mem, not_gt.
  cbn [existsb item_mem]. rewrite Hfl. cbn [andb].
  rewrite !orb_false_r. rewrite N.eqb_sym. reflexivity.
Qed.

Lemma star_class_greedy fl negated items x k :
  compile fl (star (RClass negated items)) x k
  = greedy_run (class_ok fl negated items) k x (ms_rest x).
Proof.
  unfold star. cbn [compile repeat_min groups].
  apply repeat_star_greedy_run. lia.
Qed.

Lemma re_all_scripts_shape :
  re_all_scripts
  = RSeq (seq (map RChar (lit "<script")))
      (RSeq (star (RClass true [CChar 62%N]))
         (RSeq (seq (map RChar (lit ">")))
            (RSeq (RGroup 1 (star_lazy RDot)) (seq (map RChar script_close))))).
Proof. reflexivity. Qed.

Lemma advance_by_app a b p cs :
  advance_by {| ms_rest := a ++ b; ms_pos := p; ms_caps := cs |} (length a)
  = {| ms_rest := b; ms_pos := length a + p; ms_caps := cs |}.
Proof. unfold advance_by. cbn [ms_rest ms_pos ms_caps]. rewrite skipn_app_exact. reflexivity. Qed.

(** The pattern of all the scripts at the head of a script element. *)
Lemma match_at_script pos attrs body post :
  forallb not_gt attrs = true -> no_lt body = true ->
  match_at flag_s re_all_scripts pos (script_element attrs body ++ post)
  = Some {| mr_index := pos;
            mr_text := script_element attrs body;
            mr_groups := [Some body] |}.
Proof.
  intros Hattrs Hlt. unfold match_at. rewrite re_all_scripts_shape.
  rewrite compile_seq, compile_chars by reflexivity.
  cbn [ms_rest]. unfold script_element.
  replace ((lit "<script" ++ attrs ++ lit ">" ++ body ++ script_close) ++ post)
    with (lit "<script" ++ attrs ++ lit ">" ++ body ++ script_close ++ post)
    by (rewrite <- !app_assoc; reflexivity).
  rewrite startsWith_app, advance_by_app.
  rewrite compile_seq, star_class_greedy.
  rewrite (greedy_run_ext _ not_gt _ (fun ch => not_gt_class_any flag_s ch eq_refl)).
  cbn [ms_rest].
  erewrite (@greedy_run_first not_gt _ attrs 62%N (body ++ script_close ++ post));
    [ | reflexivity | exact Hattrs | reflexivity | ].
  2:{ rewrite compile_seq, compile_chars by reflexivity.
      change (attrs ++ 62%N :: body ++ script_close ++ post)
        with (attrs ++ lit ">" ++ body ++ script_close ++ post).
      rewrite advance_by_app. cbn [ms_rest]. rewrite startsWith_app, advance_by_app.
      apply group_lazy_until with (body := body) (tail := post);
        [ reflexivity
        | reflexivity
        | apply forallb_forall; intros; reflexivity
        | intros j Hj; apply (@no_lt_no_start _ (script_close ++ post) j body Hlt Hj)
        | reflexivity ]. }
  cbn [ms_pos ms_caps set_nth pred ngroups]. f_equal. f_equal.
  match goal with |- firstn ?n _ = _ =>
    replace n with (length (lit "<script" ++ attrs ++ lit ">" ++ body ++ script_close))
      by (rewrite !length_app; lia) end.
  replace (lit "<script" ++ attrs ++ lit ">" ++ body ++ script_close ++ post)
    with ((lit "<script" ++ attrs ++ lit ">" ++ body ++ script_close) ++ post)
    by (rewrite <- !app_assoc; reflexivity).
  rewrite firstn_app_exact. reflexivity.
Qed.

(** *** Searching a page *)

Lemma indexOf_from_none p : forall s n, indexOf_from n s p = None ->
  forall k, startsWith (skipn k s) p = false.
Proof.
  induction s as [|c s IH]; intros n H k; cbn [indexOf_from] in H.
  - destruct (startsWith [] p) eqn:E; [discriminate|]. destruct k; exact E.
  - destruct (startsWith (c :: s) p) eqn:E; [discriminate|].
    destruct k as [|k]; [exact E|]. cbn [skipn]. exact (IH _ H k).
Qed.

Lemma includes_false s p : includes s p = false ->
  forall k, startsWith (skipn k s) p = false.
Proof.
  unfold includes, indexOf. intros H.
  destruct (indexOf_from 0 s p) eqn:E; [discriminate|].
  exact (indexOf_from_none _ _ _ E).
Qed.

Lemma startsWith_app_false s a b : startsWith s a = false -> startsWith s (a ++ b) = false.
Proof.
  revert s. induction a as [|c a IH]; intros s H; [discriminate H|].
  cbn [app]. rewrite startsWith_cons in *. destruct s as [|d s]; [reflexivity|].
  destruct (N.eqb c d); [|reflexivity]. cbn [andb] in *. exact (IH s H).
Qed.

(** Before a [<], a text that does not hold [<script] does not hold the
    beginning of one either. *)
Lemma no_straddle s rest :
  s <> [] -> startsWith s (lit "<script") = false ->
  startsWith (s ++ 60%N :: rest) (lit "<script") = false.
Proof.
  intros Hne H.
  destruct s as [|a1 [|a2 [|a3 [|a4 [|a5 [|a6 [|a7 s]]]]]]]; [congruence| ..];
    cbn in H |- *; rewrite ?andb_false_r; try reflexivity; exact H.
Qed.

Lemma match_at_head_fail fl L r pos s :
  ignoreCase fl = false -> startsWith s L = false ->
  match_at fl (RSeq (seq (map RChar L)) r) pos s = None.
Proof.
  intros Hfl H. unfold match_at. rewrite compile_seq, compile_chars by exact Hfl.
  cbn [ms_rest]. rewrite H. reflexivity.
Qed.

Lemma exec_from_unfold fl r pos rest :
  exec_from fl r pos rest
  = match match_at fl r pos rest with
    | Some res => Some res
    | None =>
        match rest with
        | [] => None
        | _ :: rest' => exec_from fl r (S pos) rest'
        end
    end.
Proof. destruct rest; reflexivity. Qed.

Lemma exec_from_pre fl r : forall pre rest pos,
  (forall k, k < length pre -> match_at fl r (k + pos) (skipn k pre ++ rest) = None) ->
  exec_from fl r pos (pre ++ rest) = exec_from fl r (length pre + pos) rest.
Proof.
  induction pre as [|c pre IH]; intros rest pos H; [reflexivity|].
  cbn [app exec_from].
  pose proof (H 0 ltac:(cbn; lia)) as H0. cbn [skipn Nat.add app] in H0.
  rewrite H0, IH.
  - f_equal. cbn [length]. lia.
  - intros k Hk. replace (k + S pos) with (S k + pos) by lia.
    apply (H (S k)). cbn [length]. lia.
Qed.

Lemma all_from_pre fl r : forall pre rest pos,
  (forall k, k < length pre -> match_at fl r (k + pos) (skipn k pre ++ rest) = None) ->
  all_from fl r pos (pre ++ rest) 0 = all_from fl r (length pre + pos) rest 0.
Proof.
  induction pre as [|c pre IH]; intros rest pos H; [reflexivity|].
  cbn [app all_from].
  pose proof (H 0 ltac:(cbn; lia)) as H0. cbn [skipn Nat.add app] in H0.
  rewrite H0, IH.
  - f_equal. cbn [length]. lia.
  - intros k Hk. replace (k + S pos) with (S k + pos) by lia.
    apply (H (S k)). cbn [length]. lia.
Qed.

Lemma all_from_none fl r : forall s pos,
  (forall k, match_at fl r (k + pos) (skipn k s) = None) ->
  all_from fl r pos s 0 = [].
Proof.
  induction s as [|c s IH]; intros pos H; cbn [all_from];
    pose proof (H 0) as H0; cbn [skipn Nat.add] in H0; rewrite H0.
  - reflexivity.
  - apply IH. intros k.
    replace (k + S pos) with (S k + pos) by lia. apply (H (S k)).
Qed.

Lemma all_from_skip fl r : forall k rest pos, k <= length rest ->
  all_from fl r pos rest k = all_from fl r (k + pos) (skipn k rest) 0.
Proof.
  induction k as [|k IH]; intros rest pos Hk; [reflexivity|].
  destruct rest as [|c rest]; simpl in Hk; [lia|].
  cbn [all_from skipn]. rewrite IH by lia. f_equal. lia.
Qed.


Lemma no_script_pre pre rest k :
  no_script pre = true -> k < length pre ->
  startsWith (skipn k pre ++ 60%N :: rest) (lit "<script") = false.
Proof.
  intros H Hk. apply negb_true_iff in H. apply no_straddle.
  - intros E. apply (f_equal (@length N)) in E. rewrite length_skipn in E.
    cbn in E. lia.
  - apply includes_false. exact H.
Qed.

Lemma script_element_head attrs body :
  exists rest, script_element attrs body = 60%N :: rest.
Proof. unfold script_element. cbn. eauto. Qed.

(** The legacy pattern finds the legacy script of a page that has no
    script tag before it. *)
Lemma exec_next_data pre body post :
  no_script pre = true ->
  forallb (dot_ok no_flags) body = true -> no_lt body = true ->
  exec no_flags re_next_data (pre ++ script_element next_data_attrs body ++ post)
  = Some {| mr_index := length pre;
            mr_text := script_element next_data_attrs body;
            mr_groups := [Some body] |}.
Proof.
  intros Hpre Hdot Hlt. unfold exec. rewrite exec_from_pre.
  - rewrite Nat.add_0_r, exec_from_unfold, match_at_next_data by assumption.
    reflexivity.
  - intros k Hk. rewrite re_next_data_shape.
    apply match_at_head_fail; [reflexivity|].
    apply startsWith_app_false.
    destruct (script_element_head next_data_attrs body) as [rest ->].
    cbn [app]. apply no_script_pre; assumption.
Qed.

(** The scripts of a page whose only script tag is one element. *)
Lemma scripts_of_single pre attrs body post :
  no_script pre = true -> no_script post = true ->
  forallb not_gt attrs = true -> no_lt body = true ->
  scripts_of (pre ++ script_element attrs body ++ post)
  = [script_element attrs body].
Proof.
  intros Hpre Hpost Hattrs Hlt.
  assert (Hall : matchAll flag_s re_all_scripts
                   (pre ++ script_element attrs body ++ post)
                 = [{| mr_index := length pre;
                       mr_text := script_element attrs body;
                       mr_groups := [Some body] |}]).
  { unfold matchAll. rewrite all_from_pre.
    - rewrite Nat.add_0_r.
      destruct (script_element_head attrs body) as [rest Hrest].
      assert (Hm := match_at_script (length pre) attrs body post Hattrs Hlt).
      rewrite Hrest in *. cbn [app] in Hm. cbn [app all_from]. rewrite Hm.
      cbn [mr_text].
      f_equal. cbn [length pred].
      rewrite all_from_skip by (rewrite length_app; lia).
      rewrite skipn_app_exact. apply all_from_none.
      intros k. rewrite re_all_scripts_shape.
      apply match_at_head_fail; [reflexivity|].
      apply includes_false. apply negb_true_iff. exact Hpost.
    - intros k Hk. rewrite re_all_scripts_shape.
      apply match_at_head_fail; [reflexivity|].
      destruct (script_element_head attrs body) as [rest ->].
      cbn [app]. apply no_script_pre; assumption. }
  unfold scripts_of, match_global. rewrite Hall. reflexivity.
Qed.

(** *** The field resolver *)

Lemma truthy_or_l a b : truthy a = true -> or_ a b = a.
Proof. unfold or_. intros ->. reflexivity. Qed.

Lemma truthy_or a b : truthy (or_ a b) = truthy a || truthy b.
Proof. unfold or_. destruct (truthy a) eqn:E; [rewrite E|]; reflexivity. Qed.

Section Resolver.
Variable Number_toString : number -> jstring.
Variable matchAll_of_pattern : jstring -> jstring -> option (list match_result).

Local Abbreviation resolve := (resolve Number_toString matchAll_of_pattern).
Local Abbreviation parse_page := (parse_page Number_toString matchAll_of_pattern).
Local Abbreviation prompt_ref_step := (prompt_ref_step matchAll_of_pattern).

(** The resolution of a prompt reference never runs: [lyrics] is still
    falsy there only if the prompt itself was falsy. *)
Lemma prompt_ref_dead html songData nextData styles :
  let lyrics1 := fst (page_props_step nextData
                        (lyrics (fields_of_song songData)) styles) in
  prompt_ref_step html songData lyrics1 = Ok lyrics1.
Proof.
  cbn zeta. unfold prompt_ref_step.
  set (prompt := get (get songData "metadata") "prompt").
  destruct (truthy prompt) eqn:Hp; [|rewrite andb_false_r; reflexivity].
  assert (H0 : truthy (lyrics (fields_of_song songData)) = true).
  { cbn [fields_of_song lyrics]. fold prompt. rewrite !truthy_or, Hp. reflexivity. }
  assert (H1 : truthy (fst (page_props_step nextData
                              (lyrics (fields_of_song songData)) styles)) = true).
  { unfold page_props_step. destruct (_ && _); cbn [fst]; [|exact H0].
    rewrite !truthy_or, H0. reflexivity. }
  rewrite H1. reflexivity.
Qed.

(** The title scan throws nothing. *)
Lemma title_step_total html title : exists v, title_step html title = Ok v.
Proof.
  unfold title_step. destruct (negb (truthy title)); [|eauto]. cbn zeta.
  destruct (truthy _); [eauto|]. destruct (truthy _); [eauto|].
  destruct (exec no_flags re_html_title html) as [m|] eqn:E; [|cbn [bind]; eauto].
  destruct (exec_group_defined (i := 1) _ _ _ E) as [t Ht];
    [reflexivity | cbv; lia |].
  rewrite Ht. cbn [as_string bind]. eauto.
Qed.

Lemma negative_tags_step_cases songData styles :
  (exists v, negative_tags_step Number_toString songData styles = Ok v)
  \/ negative_tags_step Number_toString songData styles = Throw NotPrimitive.
Proof.
  unfold negative_tags_step. destruct (negb (truthy styles) && truthy _); [|eauto].
  destruct (ToString _ _); eauto.
Qed.

(** The resolver returns the four fields unless a template cannot print
    the negative tags. *)
Lemma resolve_cases html loc :
  (exists f, resolve html loc = Ok f) \/ resolve html loc = Throw NotPrimitive.
Proof.
  unfold Server.resolve.
  destruct (negative_tags_step_cases (songData loc)
              (styles (fields_of_song (songData loc)))) as [[s1 ->]| ->];
    cbn [bind]; [|right; reflexivity].
  destruct (page_props_step _ _ _) as [l1 s2] eqn:E.
  pose proof (prompt_ref_dead html (songData loc) (nextData loc) s1) as Hd.
  cbn zeta in Hd. rewrite E in Hd. cbn [fst] in Hd. rewrite Hd. cbn [bind].
  destruct (title_step_total html (title (fields_of_song (songData loc)))) as [v Hv].
  rewrite Hv. cbn [bind]. left. eauto.
Qed.

Lemma stringify_truthy v : truthy v = true ->
  exists t, JSON_stringify Number_toString v = Some t.
Proof. destruct v; cbn [truthy JSON_stringify]; try discriminate; eauto. Qed.

(** What [/parse] can throw once the page is fetched: a type error of
    [clean] on a field that is not a string, or of the template on
    negative tags that cannot be printed.  The pattern compiled from a
    prompt reference is never reached. *)
Lemma parse_page_errors url html e :
  parse_page url html = Throw e -> e = NotAFunction \/ e = NotPrimitive.
Proof.
  unfold Server.parse_page. destruct (locate_total html) as [loc ->]. cbn [bind].
  destruct (resolve_cases html loc) as [[f ->]| ->]; cbn [bind];
    [|intros [= <-]; right; reflexivity].
  unfold assemble. cbn zeta.
  assert (Hc : forall v, (exists o, clean v = Ok o) \/ clean v = Throw NotAFunction).
  { intros v. destruct v; cbn [clean]; eauto. }
  destruct (Hc (title f)) as [[o1 ->]| ->]; cbn [bind]; [|intros [= <-]; auto].
  destruct (Hc (artist f)) as [[o2 ->]| ->]; cbn [bind]; [|intros [= <-]; auto].
  destruct (Hc (lyrics f)) as [[o3 ->]| ->]; cbn [bind]; [|intros [= <-]; auto].
  destruct (Hc (styles f)) as [[o4 ->]| ->]; cbn [bind]; [|intros [= <-]; auto].
  destruct (truthy (songData loc)) eqn:Ht; cbn [bind]; [|discriminate].
  destruct (stringify_truthy _ Ht) as [t ->]. cbn [bind]. discriminate.
Qed.

End Resolver.

(** *** [clean] *)

(** C7.  The Text Cleaner is idempotent: for every value [s] that
    [clean] accepts, strings with tags, non-breaking spaces and excess
    newlines included, [clean(clean(s))] is [clean(s)]; where [clean(s)]
    throws there is nothing to clean again. *)
Theorem clean_idempotent (s : jsval) :
  (r <- clean s ;; clean (value_of r)) = clean s.
Proof.
  destruct s as [| | b | n | t | items | fields]; try reflexivity.
  cbn [clean bind]. destruct (clean_text t) as [|c u] eqn:E; [reflexivity|].
  cbn [or_null value_of clean]. rewrite <- E, clean_text_idempotent, E.
  reflexivity.
Qed.

(** No newline is left in a cleaned text: the white space pattern has
    turned every newline into a space before the newline pattern runs. *)
Lemma clean_text_no_newline s : ~ In 10%N (clean_text s).
Proof.
  intros Hin. destruct (clean_text_normal s) as [Hs _].
  discriminate (@squeezed_spaces _ _ Hs Hin eq_refl).
Qed.

(** C8.  On [a], four newlines, [b] the Cleaner returns [a b]: the run
    of newlines is collapsed to one space, not to two newlines. *)
Theorem clean_four_newlines :
  clean (JStr (lit "a" ++ [10; 10; 10; 10]%N ++ lit "b")) = Ok (Some (lit "a b")).
Proof. vm_compute. reflexivity. Qed.

(** *** [/parse] reads the text of the page and nothing else *)

Section Determinism.
Variable Number_toString : number -> jstring.

(** The resolver gives the same fields whatever the pattern compiled
    from a prompt reference matches. *)
Lemma resolve_any_pattern
  (matchAll1 matchAll2 : jstring -> jstring -> option (list match_result))
  (html : jstring) (loc : located) :
  resolve Number_toString matchAll1 html loc
  = resolve Number_toString matchAll2 html loc.
Proof.
  unfold resolve.
  destruct (negative_tags_step Number_toString (songData loc) _) as [s1|e];
    [|reflexivity].
  cbn [bind].
  pose proof (prompt_ref_dead matchAll1 html (songData loc) (nextData loc) s1)
    as H1.
  pose proof (prompt_ref_dead matchAll2 html (songData loc) (nextData loc) s1)
    as H2.
  cbn zeta in H1, H2.
  destruct (page_props_step (nextData loc) _ s1) as [l1 s2].
  cbn [fst] in H1, H2. rewrite H1, H2. reflexivity.
Qed.

(** The address asked for goes into the [url] of the record and
    nowhere else. *)
Lemma assemble_any_url (url1 url2 html : jstring) (loc : located) (f : fields) :
  (exists e, assemble Number_toString url1 html loc f = Throw e
             /\ assemble Number_toString url2 html loc f = Throw e)
  \/ (exists r1 r2,
        assemble Number_toString url1 html loc f = Ok r1
        /\ assemble Number_toString url2 html loc f = Ok r2
        /\ r_url r1 = url1 /\ r_url r2 = url2
        /\ r_title r1 = r_title r2 /\ r_artist r1 = r_artist r2
        /\ r_lyrics r1 = r_lyrics r2 /\ r_styles r1 = r_styles r2
        /\ r_audio_url r1 = r_audio_url r2
        /\ r_transcription_note r1 = r_transcription_note r2
        /\ r_rawHtmlSnippet r1 = r_rawHtmlSnippet r2
        /\ r_songData r1 = r_songData r2
        /\ r_debugInfo r1 = r_debugInfo r2).
Proof.
  unfold assemble. cbv zeta.
  destruct (clean (title f)) as [t|e]; cbn [bind];
    [|left; exists e; split; reflexivity].
  destruct (clean (artist f)) as [a|e]; cbn [bind];
    [|left; exists e; split; reflexivity].
  destruct (clean (lyrics f)) as [l|e]; cbn [bind];
    [|left; exists e; split; reflexivity].
  destruct (clean (styles f)) as [s|e]; cbn [bind];
    [|left; exists e; split; reflexivity].
  destruct (if truthy (songData loc) then _ else _) as [sd|e]; cbn [bind];
    [|left; exists e; split; reflexivity].
  right. eexists. eexists. split; [reflexivity|]. split; [reflexivity|].
  cbn [r_url r_title r_artist r_lyrics r_styles r_audio_url
       r_transcription_note r_rawHtmlSnippet r_songData r_debugInfo].
  repeat split.
Qed.

(** C10.  The record of [/parse] is a function of the text of the page:
    two runs on the same text send the same title, artist, lyrics,
    styles, audio address, note, snippet, serialized song and debug
    information, or fail with the same error, at any two times,
    whatever the status lines of the two successful responses, whatever
    the two addresses asked for, which only go into the [url] of the
    records, and whatever the engine makes of the pattern compiled from
    the page. *)
Theorem parse_deterministic
  (matchAll1 matchAll2 : jstring -> jstring -> option (list match_result))
  (w1 w2 : World) (url1 url2 : jstring)
  (status1 status2 : N) (statusText1 statusText2 html : jstring) :
  valid_url url1 = true -> valid_url url2 = true ->
  response_ok status1 = true -> response_ok status2 = true ->
  let run1 := parse_handler Number_toString matchAll1 w1 url1
                (Response status1 statusText1 html) in
  let run2 := parse_handler Number_toString matchAll2 w2 url2
                (Response status2 statusText2 html) in
  (exists e, run1 = ParseFailed e /\ run2 = ParseFailed e)
  \/ (exists r1 r2,
        run1 = Parsed r1 /\ run2 = Parsed r2
        /\ r_url r1 = url1 /\ r_url r2 = url2
        /\ r_title r1 = r_title r2 /\ r_artist r1 = r_artist r2
        /\ r_lyrics r1 = r_lyrics r2 /\ r_styles r1 = r_styles r2
        /\ r_audio_url r1 = r_audio_url r2
        /\ r_transcription_note r1 = r_transcription_note r2
        /\ r_rawHtmlSnippet r1 = r_rawHtmlSnippet r2
        /\ r_songData r1 = r_songData r2
        /\ r_debugInfo r1 = r_debugInfo r2).
Proof.
  intros U1 U2 H1 H2. cbv zeta.
  unfold parse_handler, fetch_text. rewrite U1, U2, H1, H2. cbn [negb bind].
  unfold parse_page.
  destruct (locate html) as [loc|e]; cbn [bind];
    [|left; exists e; split; reflexivity].
  rewrite (resolve_any_pattern matchAll1 matchAll2 html loc).
  destruct (resolve Number_toString matchAll2 html loc) as [f|e]; cbn [bind];
    [|left; exists e; split; reflexivity].
  destruct (assemble_any_url url1 url2 html loc f)
    as [(e & E1 & E2)|(r1 & r2 & E1 & E2 & H)].
  - left. exists e. rewrite E1, E2. split; reflexivity.
  - right. exists r1, r2. rewrite E1, E2. split; [reflexivity|].
    split; [reflexivity|exact H].
Qed.

End Determinism.

(** *** [/extract] *)

Lemma from_scripts_no_payload : forall scripts songData,
  flat_map (fun text => match JSON_parse text with Some v => [v] | None => [] end)
    (flat_map script_payload scripts) = [] ->
  from_scripts scripts songData = Ok songData.
Proof.
  induction scripts as [|script rest IH]; intros sd H; [reflexivity|].
  cbn [flat_map] in H. rewrite flat_map_app in H.
  apply app_eq_nil in H as [H1 H2].
  cbn [from_scripts]. unfold script_payload in H1.
  destruct (exec no_flags re_script_body script) as [m|] eqn:E; [|exact (IH sd H2)].
  destruct (exec_group_defined (i := 1) _ _ _ E) as [t Ht];
    [reflexivity | cbv; lia |].
  rewrite Ht in *. cbn [as_string bind].
  destruct (startsWith (trim t) (lit "{")); [|exact (IH sd H2)].
  cbn [flat_map app] in H1. unfold song_like.
  destruct (JSON_parse t); [discriminate H1|]. exact (IH sd H2).
Qed.

Lemma extract_page_not_found w url html :
  parsed_payloads html = [] -> extract_page w url html = Ok None.
Proof.
  unfold parsed_payloads, payload_texts. rewrite flat_map_app.
  intros H. apply app_eq_nil in H as [H1 H2].
  unfold extract_page.
  assert (Hnd : extract_next_data (exec no_flags re_next_data html) = (JNull, JNull)).
  { unfold extract_next_data.
    destruct (exec no_flags re_next_data html) as [m|]; [|reflexivity].
    destruct (group m 1); try reflexivity.
    cbn [as_string]. cbn [flat_map app] in H1.
    destruct (JSON_parse s); [discriminate H1|reflexivity]. }
  rewrite Hnd. cbn [truthy negb].
  rewrite (from_scripts_no_payload _ JNull H2). reflexivity.
Qed.

(** C5.  In strict mode a page with no structured payload that parses
    is answered with the not-found reply, and a record is sent only
    when at least one payload was parsed. *)
Theorem extract_strict (w : World) (url : jstring) (status : N)
  (statusText html : jstring) :
  valid_url url = true -> response_ok status = true ->
  (parsed_payloads html = [] ->
   extract_handler w url (Response status statusText html) = NotFound)
  /\ (forall r, extract_handler w url (Response status statusText html)
                = Extracted r -> parsed_payloads html <> []).
Proof.
  intros Hu Hs. unfold extract_handler, fetch_text. rewrite Hu, Hs. cbn [negb bind].
  split.
  - intros H. rewrite (extract_page_not_found w url html H). reflexivity.
  - intros r H Hnil. rewrite (extract_page_not_found w url html Hnil) in H.
    discriminate H.
Qed.

(** The scans of the markup leave a field that is already resolved. *)
Lemma scans_keep_resolved html v :
  truthy v = true ->
  title_step html v = Ok v /\ artist_step html v = v
  /\ lyrics_step html v = v /\ styles_step html v = v.
Proof.
  intros H. unfold title_step, artist_step, lyrics_step, styles_step.
  rewrite H. cbn [negb]. auto.
Qed.

Section Claims.
Variable Number_toString : number -> jstring.
Variable matchAll_of_pattern : jstring -> jstring -> option (list match_result).

Local Abbreviation resolve := (resolve Number_toString matchAll_of_pattern).
Local Abbreviation parse_page := (parse_page Number_toString matchAll_of_pattern).
Local Abbreviation parse_handler := (parse_handler Number_toString matchAll_of_pattern).

(** C1.  On a page whose legacy payload has the title [Legacy] and
    whose generic script has the title [Generic], [/parse] returns
    [Generic]: the scan of the scripts runs although the first strategy
    has found the song, and replaces it. *)
Theorem generic_script_overwrites (url : jstring) :
  exists r, parse_page url page_two_titles = Ok r
            /\ r_title r = Some (lit "Generic").
Proof. eexists. split; vm_compute; reflexivity. Qed.

(** C2.  On a page whose payload has a number for title, [/parse]
    answers with its failure reply: [clean] calls [replace] on the
    number. *)
Theorem number_title_fails (w : World) :
  parse_handler w song_url (Response 200 (lit "OK") page_number_title)
  = ParseFailed NotAFunction.
Proof. vm_compute. reflexivity. Qed.

(** C4.  On a page whose prompt is the reference [$18], [/parse]
    returns the reference itself for lyrics, not the text of the chunk
    without a clip. *)
Theorem prompt_reference_unresolved (url : jstring) :
  exists r, parse_page url page_prompt_ref = Ok r
            /\ r_lyrics r = Some (lit "$18").
Proof. eexists. split; vm_compute; reflexivity. Qed.

End Claims.

(** The loop over the matches of the reference, were it reached on that
    page, would skip the chunk with a clip and take the other one. *)
Lemma prompt_reference_intended :
  from_prompt_matches page_prompt_ref
    (matchAll no_flags (prompt_regex (lit "18")) page_prompt_ref) JNull
  = JStr (lit "These are the real lyrics of the song").
Proof. vm_compute. reflexivity. Qed.

Lemma extract_strict_witness :
  valid_url song_url = true /\ response_ok 200 = true
  /\ parsed_payloads page_no_payload = []
  /\ extract_handler world_a song_url (Response 200 (lit "OK") page_no_payload)
     = NotFound.
Proof.
  assert (Hu : valid_url song_url = true) by (vm_compute; reflexivity).
  assert (Hs : response_ok 200 = true) by reflexivity.
  assert (Hp : parsed_payloads page_no_payload = []) by (vm_compute; reflexivity).
  split; [exact Hu|]. split; [exact Hs|]. split; [exact Hp|].
  exact (proj1 (extract_strict world_a song_url 200 (lit "OK") page_no_payload Hu Hs) Hp).
Defined.

Lemma parse_deterministic_witness :
  valid_url song_url = true /\ valid_url (lit "http://suno.com/song/0") = true
  /\ response_ok 200 = true /\ response_ok 203 = true
  /\ forall nts mp1 mp2, exists r1 r2,
       parse_handler nts mp1 world_a song_url
         (Response 200 (lit "OK") page_two_titles) = Parsed r1
       /\ parse_handler nts mp2 world_b (lit "http://suno.com/song/0")
            (Response 203 (lit "") page_two_titles) = Parsed r2
       /\ r_title r1 = r_title r2 /\ r_debugInfo r1 = r_debugInfo r2.
Proof.
  assert (U1 : valid_url song_url = true) by (vm_compute; reflexivity).
  assert (U2 : valid_url (lit "http://suno.com/song/0") = true)
    by (vm_compute; reflexivity).
  split; [exact U1|]. split; [exact U2|].
  split; [reflexivity|]. split; [reflexivity|]. intros nts mp1 mp2.
  destruct (parse_deterministic nts mp1 mp2 world_a world_b song_url
              (lit "http://suno.com/song/0") 200 203 (lit "OK") (lit "")
              page_two_titles U1 U2 eq_refl eq_refl)
    as [(e & E1 & _)|(r1 & r2 & E1 & E2 & _ & _ & Ht & _ & _ & _ & _ & _ & _ & _ & Hd)].
  - exfalso. vm_compute in E1. discriminate E1.
  - exists r1, r2. auto.
Defined.

Section Fields.
Variable Number_toString : number -> jstring.
Variable matchAll_of_pattern : jstring -> jstring -> option (list match_result).

Local Abbreviation resolve := (resolve Number_toString matchAll_of_pattern).
Local Abbreviation parse_page := (parse_page Number_toString matchAll_of_pattern).
Local Abbreviation assemble := (assemble Number_toString).

Lemma parse_page_inv url html r :
  parse_page url html = Ok r ->
  exists loc f, locate html = Ok loc /\ resolve html loc = Ok f
                /\ assemble url html loc f = Ok r.
Proof.
  unfold Server.parse_page. destruct (locate html) as [loc|e]; cbn [bind]; [|discriminate].
  destruct (resolve html loc) as [f|e] eqn:E; cbn [bind]; [|discriminate].
  intros H. exists loc, f. auto.
Qed.

Lemma assemble_inv url html loc f r :
  assemble url html loc f = Ok r ->
  clean (title f) = Ok (r_title r) /\ clean (artist f) = Ok (r_artist r)
  /\ clean (lyrics f) = Ok (r_lyrics r) /\ clean (styles f) = Ok (r_styles r)
  /\ r_audio_url r = or_ (get (songData loc) "audio_url") JNull.
Proof.
  unfold Server.assemble. cbn zeta.
  destruct (clean (title f)) as [o1|e]; cbn [bind]; [|discriminate].
  destruct (clean (artist f)) as [o2|e]; cbn [bind]; [|discriminate].
  destruct (clean (lyrics f)) as [o3|e]; cbn [bind]; [|discriminate].
  destruct (clean (styles f)) as [o4|e]; cbn [bind]; [|discriminate].
  destruct (if truthy (songData loc) then _ else _) as [sd|e]; cbn [bind];
    [|discriminate].
  intros [= <-]. cbn. auto.
Qed.

Lemma clean_fixed v o : clean v = Ok o -> clean (value_of o) = Ok o.
Proof.
  destruct v as [| | b | n | t | items | fields]; cbn [clean];
    try discriminate; try (intros [= <-]; reflexivity).
  intros [= <-]. destruct (clean_text t) as [|c u] eqn:E; [reflexivity|].
  cbn [or_null value_of clean]. rewrite <- E, clean_text_idempotent, E.
  reflexivity.
Qed.

(** C9, as the code has it.  The title, the artist, the lyrics and the
    styles of the reply are what the Cleaner returns for the resolved
    fields, so the Cleaner leaves each of them as it is; the audio
    address is the [audio_url] of the song as it was found, or [null]. *)
Theorem text_fields_cleaned (url html : jstring) (r : parse_record) :
  parse_page url html = Ok r ->
  exists loc f,
    locate html = Ok loc /\ resolve html loc = Ok f
    /\ clean (title f) = Ok (r_title r) /\ clean (artist f) = Ok (r_artist r)
    /\ clean (lyrics f) = Ok (r_lyrics r) /\ clean (styles f) = Ok (r_styles r)
    /\ clean (value_of (r_title r)) = Ok (r_title r)
    /\ clean (value_of (r_artist r)) = Ok (r_artist r)
    /\ clean (value_of (r_lyrics r)) = Ok (r_lyrics r)
    /\ clean (value_of (r_styles r)) = Ok (r_styles r)
    /\ r_audio_url r = or_ (get (songData loc) "audio_url") JNull.
Proof.
  intros H. apply parse_page_inv in H as (loc & f & Hl & Hr & Ha).
  apply assemble_inv in Ha as (H1 & H2 & H3 & H4 & H5).
  exists loc, f. repeat split; eauto using clean_fixed.
Qed.

(** C6.  When the song has no [display_tags] and no [metadata.tags] but
    has a text for [metadata.negative_tags], the resolved styles are
    [NOT: ] followed by that text, a string that contains [NOT:] and
    the text; the reply carries it cleaned, which is the same string
    when the Cleaner leaves the text as it is. *)
Theorem negative_tags_styles (url html : jstring) (loc : located) (t : jstring) :
  locate html = Ok loc ->
  truthy (get (songData loc) "display_tags") = false ->
  truthy (get (get (songData loc) "metadata") "tags") = false ->
  get (get (songData loc) "metadata") "negative_tags" = JStr t -> t <> [] ->
  exists f,
    resolve html loc = Ok f
    /\ styles f = JStr (lit "NOT: " ++ t)
    /\ includes (lit "NOT: " ++ t) (lit "NOT:") = true
    /\ includes (lit "NOT: " ++ t) t = true
    /\ (forall r, parse_page url html = Ok r ->
                   r_styles r = or_null (clean_text (lit "NOT: " ++ t)))
    /\ (clean_text t = t ->
        forall r, parse_page url html = Ok r ->
                  r_styles r = Some (lit "NOT: " ++ t)).
Proof.
  intros Hl Hd Ht Hn Hne.
  assert (Hs0 : styles (fields_of_song (songData loc)) = JNull).
  { cbn [fields_of_song styles]. unfold or_. rewrite Hd, Ht. reflexivity. }
  assert (Hs1 : negative_tags_step Number_toString (songData loc)
                  (styles (fields_of_song (songData loc)))
                = Ok (JStr (lit "NOT: " ++ t))).
  { unfold negative_tags_step. rewrite Hs0, Hn. cbn [truthy negb].
    destruct t; [congruence|]. reflexivity. }
  assert (Htr : truthy (JStr (lit "NOT: " ++ t)) = true) by reflexivity.
  assert (Hres : exists f, resolve html loc = Ok f
                           /\ styles f = JStr (lit "NOT: " ++ t)).
  { unfold Server.resolve. rewrite Hs1. cbn [bind].
    destruct (page_props_step _ _ _) as [l1 s2] eqn:E.
    assert (Hs2 : s2 = JStr (lit "NOT: " ++ t)).
    { unfold page_props_step in E. destruct (_ && _); injection E as _ <-;
        [apply truthy_or_l; exact Htr | reflexivity]. }
    pose proof (prompt_ref_dead matchAll_of_pattern html (songData loc)
                  (nextData loc) (JStr (lit "NOT: " ++ t))) as Hdead.
    cbn zeta in Hdead. rewrite E in Hdead. cbn [fst] in Hdead.
    rewrite Hdead. cbn [bind].
    destruct (title_step_total html (title (fields_of_song (songData loc)))) as [v Hv].
    rewrite Hv. cbn [bind]. eexists. split; [reflexivity|].
    cbn [styles]. subst s2. reflexivity. }
  destruct Hres as (f & Hf & Hst). exists f.
  split; [exact Hf|]. split; [exact Hst|].
  split; [apply (includes_app [] (lit "NOT:") (32%N :: t))|].
  split; [pose proof (includes_app (lit "NOT: ") t []) as Hi;
          rewrite app_nil_r in Hi; exact Hi|].
  assert (Hr : forall r, parse_page url html = Ok r ->
                         r_styles r = or_null (clean_text (lit "NOT: " ++ t))).
  { intros r Hr. apply parse_page_inv in Hr as (loc' & f' & Hl' & Hf' & Ha).
    rewrite Hl in Hl'. injection Hl' as <-. rewrite Hf in Hf'. injection Hf' as <-.
    apply assemble_inv in Ha as (_ & _ & _ & H4 & _).
    rewrite Hst in H4. cbn [clean] in H4. injection H4 as <-. reflexivity. }
  split; [exact Hr|].
  intros Hclean r Hpage. rewrite (Hr r Hpage).
  rewrite (clean_text_not_prefix Hclean Hne). reflexivity.
Qed.

End Fields.

Lemma clean_output_black v t : clean v = Ok (Some t) -> starts_black t = true.
Proof.
  destruct v; cbn [clean]; try discriminate.
  intros [= H]. unfold or_null in H.
  destruct (clean_text s) as [|c u] eqn:E; [discriminate|].
  injection H as <-. rewrite <- E. apply clean_text_starts_black.
Qed.

(** C9, as stated, fails on the audio address: the reply carries the
    [audio_url] of the song with its blanks, which the Cleaner would
    have trimmed and which no call of the Cleaner returns. *)
Lemma audio_url_not_cleaned :
  exists r,
    (forall nts mp, parse_page nts mp song_url page_audio_url = Ok r)
    /\ r_audio_url r = JStr (lit " https://cdn.example/a.mp3 ")
    /\ clean (r_audio_url r) = Ok (Some (lit "https://cdn.example/a.mp3"))
    /\ (forall v o, clean v = Ok o -> value_of o <> r_audio_url r).
Proof.
  eexists. split; [intros nts mp; vm_compute; reflexivity|].
  split; [reflexivity|]. split; [vm_compute; reflexivity|].
  intros v o H E. destruct o as [t|]; [|discriminate E].
  cbn in E. injection E as ->.
  apply clean_output_black in H. discriminate H.
Qed.

Lemma text_fields_cleaned_witness :
  exists r,
    (forall nts mp, parse_page nts mp song_url page_audio_url = Ok r)
    /\ r_title r = Some (lit "S")
    /\ clean (value_of (r_title r)) = Ok (r_title r)
    /\ r_audio_url r = JStr (lit " https://cdn.example/a.mp3 ").
Proof.
  eexists. split; [intros nts mp; vm_compute; reflexivity|].
  split; [reflexivity|]. split; [|reflexivity].
  pose (nts := fun _ : number => @nil N).
  pose (mp := fun _ _ : jstring => @None (list match_result)).
  destruct (@text_fields_cleaned nts mp song_url page_audio_url _
              ltac:(vm_compute; reflexivity))
    as (loc & f & _ & _ & _ & _ & _ & _ & H & _).
  exact H.
Defined.

Lemma negative_tags_styles_witness :
  exists loc,
    locate page_negative_tags = Ok loc
    /\ truthy (get (songData loc) "display_tags") = false
    /\ truthy (get (get (songData loc) "metadata") "tags") = false
    /\ get (get (songData loc) "metadata") "negative_tags"
       = JStr (lit "trap, lo-fi")
    /\ lit "trap, lo-fi" <> []
    /\ forall nts mp,
         exists f, resolve nts mp page_negative_tags loc = Ok f
                   /\ styles f = JStr (lit "NOT: trap, lo-fi")
                   /\ forall r, parse_page nts mp song_url page_negative_tags = Ok r ->
                                r_styles r = Some (lit "NOT: trap, lo-fi").
Proof.
  eexists.
  split; [vm_compute; reflexivity|].
  split; [reflexivity|]. split; [reflexivity|]. split; [reflexivity|].
  split; [discriminate|].
  intros nts mp.
  destruct (@negative_tags_styles nts mp song_url page_negative_tags _
              (lit "trap, lo-fi")
              ltac:(vm_compute; reflexivity) eq_refl eq_refl eq_refl
              ltac:(discriminate))
    as (f & Hf & Hs & _ & _ & _ & Hr).
  exists f. split; [exact Hf|]. split; [exact Hs|].
  intros r H. apply (Hr ltac:(vm_compute; reflexivity) r H).
Defined.

Section ScenarioA.
Variable Number_toString : number -> jstring.
Variable matchAll_of_pattern : jstring -> jstring -> option (list match_result).

Local Abbreviation parse_page := (parse_page Number_toString matchAll_of_pattern).

(** C3.  A page whose only script is the legacy [__NEXT_DATA__] script
    with the payload of scenario A: the record has the title [T], the
    artist [A], the lyrics [P] and the styles [pop]. *)
Theorem scenario_a_record (url pre post : jstring) :
  no_script pre = true -> no_script post = true ->
  exists r,
    parse_page url (scenario_a_page pre post) = Ok r
    /\ r_title r = Some (lit "T") /\ r_artist r = Some (lit "A")
    /\ r_lyrics r = Some (lit "P") /\ r_styles r = Some (lit "pop").
Proof.
  intros Hpre Hpost. eexists. split.
  - unfold Server.parse_page, locate, scenario_a_page.
    rewrite exec_next_data by (try exact Hpre; vm_compute; reflexivity).
    rewrite scripts_of_single
      by (try exact Hpre; try exact Hpost; vm_compute; reflexivity).
    vm_compute. reflexivity.
  - vm_compute. repeat split.
Qed.

End ScenarioA.

Lemma scenario_a_record_witness :
  no_script (lit "<html><head><title>Song | Suno</title>") = true
  /\ no_script (lit "</head><body><p>by someone</p></body></html>") = true
  /\ forall nts mp, exists r,
       parse_page nts mp song_url
         (scenario_a_page (lit "<html><head><title>Song | Suno</title>")
            (lit "</head><body><p>by someone</p></body></html>")) = Ok r
       /\ r_title r = Some (lit "T") /\ r_artist r = Some (lit "A")
       /\ r_lyrics r = Some (lit "P") /\ r_styles r = Some (lit "pop").
Proof.
  split; [vm_compute; reflexivity|]. split; [vm_compute; reflexivity|].
  intros nts mp.
  apply (@scenario_a_record nts mp song_url); vm_compute; reflexivity.
Defined.

(* ================================================================== *)
(** ** Further properties of the two handlers *)
(* ================================================================== *)

(** *** The search for the song in a streamed chunk *)

Lemma first_some_app (A B : Type) (f : A -> option B) (l1 l2 : list A) :
  first_some f (l1 ++ l2)
  = match first_some f l1 with Some b => Some b | None => first_some f l2 end.
Proof.
  induction l1 as [|a l1 IH]; [reflexivity|].
  cbn [app first_some]. destruct (f a); [reflexivity|exact IH].
Qed.

Lemma first_some_in (A B : Type) (f : A -> option B) (l : list A) b :
  first_some f l = Some b -> exists a, In a l /\ f a = Some b.
Proof.
  induction l as [|a l IH]; [discriminate|].
  cbn [first_some]. destruct (f a) eqn:E.
  - intros [= <-]. exists a. split; [left; reflexivity|exact E].
  - intros H. destruct (IH H) as (a' & Hin & Ha). exists a'. split; [right|]; assumption.
Qed.

Lemma song_at_truthy obj s : song_at obj = Some s ->
  truthy s = true /\ truthy (get s "title") = true
  /\ truthy (get s "metadata") = true.
Proof.
  unfold song_at.
  destruct (truthy (get obj "clip")) eqn:E1; cbn [andb].
  - destruct (truthy (get (get obj "clip") "title")) eqn:E2; cbn [andb].
    + destruct (truthy (get (get obj "clip") "metadata")) eqn:E3.
      * intros [= <-]. auto.
      * destruct (truthy (get obj "title")) eqn:E4; cbn [andb]; [|discriminate].
        destruct (truthy (get obj "metadata")) eqn:E5; cbn [andb]; [|discriminate].
        destruct (truthy (or_ _ _)); [|discriminate].
        intros [= <-]. destruct obj; try discriminate E4. auto.
    + destruct (truthy (get obj "title")) eqn:E4; cbn [andb]; [|discriminate].
      destruct (truthy (get obj "metadata")) eqn:E5; cbn [andb]; [|discriminate].
      destruct (truthy (or_ _ _)); [|discriminate].
      intros [= <-]. destruct obj; try discriminate E4. auto.
  - destruct (truthy (get obj "title")) eqn:E4; cbn [andb]; [|discriminate].
    destruct (truthy (get obj "metadata")) eqn:E5; cbn [andb]; [|discriminate].
    destruct (truthy (or_ _ _)); [|discriminate].
    intros [= <-]. destruct obj; try discriminate E4. auto.
Qed.

Lemma song_at_primitive v :
  match v with JObj _ => False | _ => True end -> song_at v = None.
Proof. destruct v; intros H; try reflexivity. destruct H. Qed.

Lemma findSongData_obj fields :
  findSongData (JObj fields)
  = match song_at (JObj fields) with
    | Some s => s
    | None =>
        (fix each (l : list (jstring * jsval)) : jsval :=
           match l with
           | [] => JNull
           | (_, x) :: l' =>
               let found := findSongData x in
               if truthy found then found else each l'
           end) fields
    end.
Proof.
  cbn [findSongData]. unfold song_at.
  destruct (truthy (get (JObj fields) "clip")
            && truthy (get (get (JObj fields) "clip") "title")
            && truthy (get (get (JObj fields) "clip") "metadata"));
    [reflexivity|].
  destruct (truthy (get (JObj fields) "title")
            && truthy (get (JObj fields) "metadata")
            && truthy (or_ (get (JObj fields) "audio_url")
                           (get (JObj fields) "id")));
    reflexivity.
Qed.

Lemma findSongData_nodes : forall v,
  findSongData v = or_null_value (first_some song_at (nodes v)).
Proof.
  fix IH 1. intros v. destruct v as [| | b | n | s | items | fields];
    try reflexivity.
  - cbn [nodes first_some]. rewrite song_at_primitive by exact I.
    cbn [findSongData].
    induction items as [|item l IHl]; [reflexivity|].
    rewrite first_some_app, (IH item).
    destruct (first_some song_at (nodes item)) as [s|] eqn:E.
    + cbn [or_null_value].
      apply first_some_in in E as (a & _ & Ha).
      destruct (song_at_truthy _ Ha) as (-> & _). reflexivity.
    + cbn [or_null_value truthy]. exact IHl.
  - cbn [nodes first_some]. rewrite findSongData_obj.
    destruct (song_at (JObj fields)); [reflexivity|].
    induction fields as [|[k x] l IHl]; [reflexivity|].
    rewrite first_some_app, (IH x).
    destruct (first_some song_at (nodes x)) as [s|] eqn:E.
    + cbn [or_null_value].
      apply first_some_in in E as (a & _ & Ha).
      destruct (song_at_truthy _ Ha) as (-> & _). reflexivity.
    + cbn [or_null_value truthy]. exact IHl.
Qed.

(** X1.  [findSongData] returns what its two tests give at the first
    value that passes one of them, in the order of a depth-first walk
    from the value itself through the items of the arrays and the
    properties of the objects, and [null] when no value passes. *)
Theorem findSongData_first (v : jsval) :
  findSongData v = or_null_value (first_some song_at (nodes v)).
Proof. apply findSongData_nodes. Qed.

Lemma from_chunk_inv chunk song data :
  from_chunk chunk = Some (song, data) ->
  exists m text,
    exec no_flags re_next_f chunk = Some m /\ group m 1 = JStr text
    /\ includes (unescape_chunk text) (lit "`clip`:") = true
    /\ includes (unescape_chunk text) (lit "`status`:`complete`") = true
    /\ JSON_parse (unescape_chunk text) = Some data
    /\ song = findSongData data /\ truthy song = true.
Proof.
  unfold from_chunk.
  destruct (exec no_flags re_next_f chunk) as [m|]; [|discriminate].
  destruct (group m 1) as [| | | |t| |] eqn:G; try discriminate.
  destruct t as [|c t']; [discriminate|]. cbv zeta.
  remember (c :: t') as text eqn:Et.
  destruct (includes (unescape_chunk text) (lit "`clip`:")) eqn:I1;
    cbn [andb]; [|discriminate].
  destruct (includes (unescape_chunk text) (lit "`status`:`complete`")) eqn:I2;
    [|discriminate].
  destruct (JSON_parse (unescape_chunk text)) as [j|] eqn:P; [|discriminate].
  destruct (truthy (findSongData j)) eqn:T; [|discriminate].
  intros [= <- <-]. exists m, text. repeat split; auto.
Qed.

(** X2.  What the loop over the streamed chunks hands on is the result
    of [findSongData] on a chunk that parses after the two escapes are
    undone and whose text holds both markers; the song it hands on has
    a title and metadata. *)
Theorem streamed_chunk_song (chunks : list jstring) (song data : jsval) :
  from_chunks chunks = Some (song, data) ->
  song = findSongData data
  /\ truthy (get song "title") = true
  /\ truthy (get song "metadata") = true
  /\ exists chunk m text,
       In chunk chunks
       /\ exec no_flags re_next_f chunk = Some m /\ group m 1 = JStr text
       /\ includes (unescape_chunk text) (lit "`clip`:") = true
       /\ includes (unescape_chunk text) (lit "`status`:`complete`") = true
       /\ JSON_parse (unescape_chunk text) = Some data.
Proof.
  induction chunks as [|chunk rest IH]; [discriminate|].
  cbn [from_chunks]. destruct (from_chunk chunk) as [[s d]|] eqn:E.
  - intros [= <- <-].
    destruct (from_chunk_inv _ E) as (m & text & H1 & H2 & H3 & H4 & H5 & H6 & H7).
    split; [exact H6|].
    assert (Hs : exists a, song_at a = Some s).
    { rewrite H6, findSongData_nodes in H7 |- *.
      destruct (first_some song_at (nodes d)) as [s'|] eqn:F; [|discriminate].
      apply first_some_in in F as (a & _ & Ha). exists a. exact Ha. }
    destruct Hs as (a & Ha). destruct (song_at_truthy _ Ha) as (_ & Ht & Hm).
    split; [exact Ht|]. split; [exact Hm|].
    exists chunk, m, text. split; [left; reflexivity|]. repeat split; auto.
  - intros H. destruct (IH H) as (H1 & H2 & H3 & chunk' & m & text & Hin & Hr).
    split; [exact H1|]. split; [exact H2|]. split; [exact H3|].
    exists chunk', m, text. split; [right; exact Hin|exact Hr].
Qed.

Lemma streamed_chunk_song_witness :
  exists song data,
    from_chunks [stream_chunk] = Some (song, data)
    /\ truthy (get song "title") = true
    /\ get song "title" = JStr (lit "S").
Proof.
  eexists. eexists.
  assert (H : from_chunks [stream_chunk] = Some (_, _))
    by (vm_compute; reflexivity).
  split; [exact H|].
  split; [exact (proj1 (proj2 (streamed_chunk_song _ H)))|].
  vm_compute. reflexivity.
Defined.

(** *** The addresses the handlers accept *)

Lemma compile_chars_fl fl : forall l x c,
  compile fl (seq (map RChar l)) x c
  = if prefix_fl fl (ms_rest x) l then c (advance_by x (length l)) else None.
Proof.
  induction l as [|a l IH]; intros x c.
  - cbn. rewrite advance_by_0. reflexivity.
  - assert (Hstep : forall k : cont,
              char_matcher (char_ok fl a) x k
              = match ms_rest x with
                | b :: s' => if char_ok fl a b then k (advance x s') else None
                | [] => None
                end) by reflexivity.
    destruct l as [|b l].
    + cbn [map seq compile]. rewrite Hstep. cbn [length prefix_fl].
      destruct (ms_rest x) as [|ch s'] eqn:E; [reflexivity|].
      rewrite andb_true_r. destruct (char_ok fl a ch); [|reflexivity].
      rewrite <- (advance_by_S x 0 E), advance_by_0. reflexivity.
    + change (seq (map RChar (a :: b :: l)))
        with (RSeq (RChar a) (seq (map RChar (b :: l)))).
      cbn [compile]. rewrite Hstep.
      destruct (ms_rest x) as [|ch s'] eqn:E; [reflexivity|].
      change (prefix_fl fl (ch :: s') (a :: b :: l))
        with (char_ok fl a ch && prefix_fl fl s' (b :: l)).
      destruct (char_ok fl a ch); [|reflexivity]. cbn [andb].
      rewrite IH. cbn [advance ms_rest].
      destruct (prefix_fl fl s' (b :: l)); [|reflexivity].
      rewrite (advance_by_S x (length (b :: l)) E). reflexivity.
Qed.

(** Under the [i] flag a character that is not an upper case letter is
    matched by the code units whose lower case it is. *)
Lemma char_ok_lower a ch :
  is_upper a = false -> char_ok flag_i a ch = N.eqb a (lower ch).
Proof.
  unfold char_ok, canon, lower, is_upper, is_lower, flag_i.
  cbn [ignoreCase andb].
  intros Ha.
  destruct (N.leb_spec 97 ch), (N.leb_spec ch 122), (N.leb_spec 65 ch),
    (N.leb_spec ch 90), (N.leb_spec 97 a), (N.leb_spec a 122);
    cbn [andb] in *;
    destruct (N.leb_spec 65 a), (N.leb_spec a 90); cbn [andb] in Ha;
    try discriminate Ha;
    match goal with
    | |- N.eqb ?p ?q = N.eqb ?u ?w =>
        destruct (N.eqb_spec p q), (N.eqb_spec u w); try reflexivity; lia
    end.
Qed.

Lemma prefix_fl_lower : forall p s,
  forallb (fun a => negb (is_upper a)) p = true ->
  prefix_fl flag_i s p = startsWith (map lower s) p.
Proof.
  induction p as [|a p IH]; intros s H; [reflexivity|].
  cbn [forallb] in H. apply andb_prop in H as [Ha Hp].
  apply negb_true_iff in Ha.
  destruct s as [|ch s]; [reflexivity|].
  cbn [prefix_fl map]. rewrite startsWith_cons, (@char_ok_lower a ch Ha), (IH s Hp).
  reflexivity.
Qed.

Lemma id_class_lower ch :
  class_ok flag_i false
    [CRange (cu "a") (cu "f"); CRange (cu "0") (cu "9"); CChar (cu "-")] ch
  = is_id_char (lower ch).
Proof.
  unfold class_ok, class_mem, is_id_char, is_digit, flag_i.
  cbn [existsb item_mem xorb ignoreCase andb orb].
  change (cu "a") with 97%N. change (cu "f") with 102%N.
  change (cu "0") with 48%N. change (cu "9") with 57%N.
  change (cu "-") with 45%N.
  rewrite orb_false_r.
  assert (Hs : (is_upper ch = true /\ swapcase ch = (ch + 32)%N
                /\ lower ch = (ch + 32)%N /\ (65 <= ch <= 90)%N)
               \/ (is_upper ch = false /\ is_lower ch = true
                   /\ swapcase ch = (ch - 32)%N /\ lower ch = ch
                   /\ (97 <= ch <= 122)%N)
               \/ (swapcase ch = ch /\ lower ch = ch
                   /\ ((ch < 65)%N \/ (90 < ch < 97)%N \/ (122 < ch)%N))).
  { unfold swapcase, lower, is_upper, is_lower.
    destruct (N.leb_spec 65 ch), (N.leb_spec ch 90), (N.leb_spec 97 ch),
      (N.leb_spec ch 122); cbn [andb]; try lia;
      solve [left; repeat split; lia
            |right; left; repeat split; lia
            |right; right; repeat split; lia]. }
  apply eq_true_iff_eq.
  rewrite !orb_true_iff, !andb_true_iff, !N.leb_le, !N.eqb_eq.
  destruct Hs as [(_ & -> & -> & H)|[(_ & _ & -> & -> & H)|(-> & -> & H)]]; lia.
Qed.

Lemma succeeds_or (a b : option mstate) :
  succeeds (match a with Some z => Some z | None => b end)
  = succeeds a || succeeds b.
Proof. destruct a; reflexivity. Qed.

(** A literal before a pattern whose success depends on the input
    alone. *)
Lemma literal_then fl L T (f : jstring -> bool) :
  (forall y, succeeds (compile fl T y (fun z => Some z)) = f (ms_rest y)) ->
  forall x,
  succeeds (compile fl (RSeq (seq (map RChar L)) T) x (fun z => Some z))
  = prefix_fl fl (ms_rest x) L && f (skipn (length L) (ms_rest x)).
Proof.
  intros HT x. rewrite compile_seq, compile_chars_fl.
  destruct (prefix_fl fl (ms_rest x) L); [|reflexivity].
  rewrite HT. reflexivity.
Qed.

(** An optional literal, inside a group or not, before such a pattern:
    the matcher tries the literal first and the pattern alone after. *)
Lemma repeat_star_none_left m gs greedy x c : forall fuel,
  repeat_star m gs greedy fuel (Some 0) x c = c x.
Proof. destruct fuel; reflexivity. Qed.

Lemma optional_literal_then fl R L T (f : jstring -> bool) :
  L <> [] ->
  (forall x c, exists g : mstate -> mstate,
      (forall y, ms_rest (g y) = ms_rest y /\ ms_pos (g y) = ms_pos y)
      /\ compile fl R x c
         = if prefix_fl fl (ms_rest x) L
           then c (g (advance_by x (length L))) else None) ->
  (forall y, succeeds (compile fl T y (fun z => Some z)) = f (ms_rest y)) ->
  forall x,
  succeeds (compile fl (RSeq (opt R) T) x (fun z => Some z))
  = (prefix_fl fl (ms_rest x) L && f (skipn (length L) (ms_rest x)))
    || f (ms_rest x).
Proof.
  intros HL HR HT x. rewrite compile_seq. unfold opt. cbn [compile repeat_min].
  destruct (ms_rest x) as [|ch r] eqn:E.
  - cbn [length repeat_star max_is_zero]. rewrite HT, E.
    destruct L as [|a L]; [congruence|]. reflexivity.
  - cbn [length repeat_star max_is_zero dec_max option_map pred].
    rewrite succeeds_or, HT, E. f_equal.
    match goal with
    | |- context [compile fl R ?x0 ?d] => destruct (HR x0 d) as (g & Hg & ->)
    end.
    destruct (clear_caps_place (groups R) x) as [Hpos Hrest].
    rewrite Hrest, E.
    destruct (prefix_fl fl (ch :: r) L); [|reflexivity]. cbn [andb].
    destruct (Hg (advance_by (clear_caps (groups R) x) (length L))) as [Hgr Hgp].
    rewrite Hgp. cbn [advance_by ms_pos]. rewrite Hpos.
    replace (length L + ms_pos x <=? ms_pos x) with false.
    + rewrite repeat_star_none_left, HT, Hgr. cbn [advance_by ms_rest].
      rewrite Hrest, E. reflexivity.
    + symmetry. apply Nat.leb_gt. destruct L; [congruence|]. cbn [length]. lia.
Qed.

Lemma literal_shape fl L x c :
  exists g : mstate -> mstate,
    (forall y, ms_rest (g y) = ms_rest y /\ ms_pos (g y) = ms_pos y)
    /\ compile fl (seq (map RChar L)) x c
       = if prefix_fl fl (ms_rest x) L
         then c (g (advance_by x (length L))) else None.
Proof.
  exists (fun y => y). split; [auto|]. apply compile_chars_fl.
Qed.

Lemma group_literal_shape fl i L x c :
  exists g : mstate -> mstate,
    (forall y, ms_rest (g y) = ms_rest y /\ ms_pos (g y) = ms_pos y)
    /\ compile fl (RGroup i (seq (map RChar L))) x c
       = if prefix_fl fl (ms_rest x) L
         then c (g (advance_by x (length L))) else None.
Proof.
  exists (fun y => set_cap i (Some (firstn (ms_pos y - ms_pos x) (ms_rest x))) y).
  split; [auto|]. cbn [compile]. apply compile_chars_fl.
Qed.

(** One or more characters of a class up to the end of the input. *)
Lemma greedy_run_to_end ok : forall r x, ms_rest x = r ->
  succeeds (greedy_run ok
              (fun y => match ms_rest y with [] => Some y | _ => None end) x r)
  = forallb ok r.
Proof.
  induction r as [|ch r IH]; intros x E; cbn [greedy_run forallb].
  - rewrite E. reflexivity.
  - rewrite E. destruct (ok ch); [|reflexivity]. cbn [andb].
    rewrite succeeds_or, (IH (advance x r) eq_refl). apply orb_false_r.
Qed.

Lemma class_plus_to_end fl negated items x :
  succeeds (compile fl (RSeq (plus (RClass negated items)) REol) x
              (fun z => Some z))
  = match ms_rest x with
    | [] => false
    | _ :: _ => forallb (class_ok fl negated items) (ms_rest x)
    end.
Proof.
  rewrite compile_seq. unfold plus.
  cbn [compile repeat_min max_is_zero groups clear_caps fold_left dec_max
       option_map].
  unfold char_matcher at 1.
  destruct (ms_rest x) as [|ch r] eqn:E; [reflexivity|].
  cbn [forallb]. destruct (class_ok fl negated items ch); [|reflexivity].
  cbn [andb advance ms_rest].
  rewrite repeat_star_greedy_run by (cbn [advance ms_rest]; lia).
  apply (@greedy_run_to_end (class_ok fl negated items) r (advance x r) eq_refl).
Qed.

Lemma re_url_shape :
  re_url
  = RSeq RBol
      (RSeq (seq (map RChar (lit "http")))
         (RSeq (opt (seq (map RChar (lit "s"))))
            (RSeq (seq (map RChar (lit "://")))
               (RSeq (opt (RGroup 1 (seq (map RChar (lit "www.")))))
                  (RSeq (seq (map RChar (lit "suno.com/song/")))
                     (RSeq (plus (RClass false
                                    [CRange (cu "a") (cu "f");
                                     CRange (cu "0") (cu "9");
                                     CChar (cu "-")]))
                           REol)))))).
Proof. reflexivity. Qed.

(** The test of the address, read off the pattern piece by piece. *)
Lemma url_test_pieces url :
  test flag_i re_url url
  = (let id_ok (u : jstring) :=
       match u with
       | [] => false
       | _ :: _ =>
           forallb (class_ok flag_i false
                      [CRange (cu "a") (cu "f"); CRange (cu "0") (cu "9");
                       CChar (cu "-")]) u
       end in
     let path_ok (u : jstring) :=
       prefix_fl flag_i u (lit "suno.com/song/") && id_ok (skipn 14 u) in
     let host_ok (u : jstring) :=
       (prefix_fl flag_i u (lit "www.") && path_ok (skipn 4 u)) || path_ok u in
     let rest_ok (u : jstring) :=
       prefix_fl flag_i u (lit "://") && host_ok (skipn 3 u) in
     prefix_fl flag_i url (lit "http")
     && ((prefix_fl flag_i (skipn 4 url) (lit "s") && rest_ok (skipn 5 url))
         || rest_ok (skipn 4 url))).
Proof.
  cbv zeta.
  assert (Hm : forall rest pos, match_at flag_i re_url (S pos) rest = None).
  { intros rest pos. unfold match_at. rewrite re_url_shape, compile_seq.
    reflexivity. }
  assert (Hlater : forall rest pos, exec_from flag_i re_url (S pos) rest = None).
  { induction rest as [|ch rest IH]; intros pos; cbn [exec_from]; rewrite Hm;
      [reflexivity|apply IH]. }
  assert (Hfirst : test flag_i re_url url
                   = succeeds (compile flag_i re_url
                                 {| ms_rest := url; ms_pos := 0;
                                    ms_caps := repeat None (ngroups re_url) |}
                                 (fun z => Some z))).
  { unfold test, exec. destruct url as [|ch rest]; cbn [exec_from];
      unfold match_at; destruct (compile flag_i re_url _ _); try reflexivity.
    rewrite Hlater. reflexivity. }
  rewrite Hfirst, re_url_shape, compile_seq.
  match goal with
  | |- succeeds (compile _ RBol ?x ?k) = _ =>
      change (compile flag_i RBol x k) with (k x)
  end.
  cbv beta.
  set (items := [CRange (cu "a") (cu "f"); CRange (cu "0") (cu "9");
                 CChar (cu "-")]).
  pose (id_ok := fun u : jstring =>
          match u with
          | [] => false
          | _ :: _ => forallb (class_ok flag_i false items) u
          end).
  pose (path_ok := fun u : jstring =>
          prefix_fl flag_i u (lit "suno.com/song/") && id_ok (skipn 14 u)).
  pose (host_ok := fun u : jstring =>
          (prefix_fl flag_i u (lit "www.") && path_ok (skipn 4 u)) || path_ok u).
  pose (rest_ok := fun u : jstring =>
          prefix_fl flag_i u (lit "://") && host_ok (skipn 3 u)).
  pose (tail_ok := fun u : jstring =>
          (prefix_fl flag_i u (lit "s") && rest_ok (skipn 1 u)) || rest_ok u).
  assert (H7 : forall y,
            succeeds (compile flag_i (RSeq (plus (RClass false items)) REol) y
                        (fun z => Some z)) = id_ok (ms_rest y))
    by (intros y; apply class_plus_to_end).
  assert (H6 : forall y, succeeds (compile flag_i _ y (fun z => Some z))
                         = path_ok (ms_rest y))
    by (intros y; apply (@literal_then flag_i (lit "suno.com/song/") _ id_ok H7)).
  assert (H5 : forall y, succeeds (compile flag_i _ y (fun z => Some z))
                         = host_ok (ms_rest y))
    by (intros y;
        apply (@optional_literal_then flag_i
                 (RGroup 1 (seq (map RChar (lit "www.")))) (lit "www.") _
                 path_ok ltac:(discriminate)
                 (group_literal_shape flag_i 1 (lit "www.")) H6)).
  assert (H4 : forall y, succeeds (compile flag_i _ y (fun z => Some z))
                         = rest_ok (ms_rest y))
    by (intros y; apply (@literal_then flag_i (lit "://") _ host_ok H5)).
  assert (H3 : forall y, succeeds (compile flag_i _ y (fun z => Some z))
                         = tail_ok (ms_rest y))
    by (intros y;
        apply (@optional_literal_then flag_i (seq (map RChar (lit "s")))
                 (lit "s") _ rest_ok ltac:(discriminate)
                 (literal_shape flag_i (lit "s")) H4)).
  rewrite (@literal_then flag_i (lit "http") _ tail_ok H3). cbn [ms_rest].
  unfold tail_ok, rest_ok, host_ok, path_ok, id_ok.
  change (length (lit "http")) with 4.
  rewrite !skipn_skipn. reflexivity.
Qed.

Lemma startsWith_split : forall p s,
  startsWith s p = true -> s = p ++ skipn (length p) s.
Proof.
  induction p as [|a p IH]; intros s H; [reflexivity|].
  rewrite startsWith_cons in H. destruct s as [|b s]; [discriminate|].
  apply andb_prop in H as [Hab Hp]. apply N.eqb_eq in Hab. subst b.
  cbn [app length skipn]. f_equal. exact (IH _ Hp).
Qed.

Lemma id_run_lower : forall l,
  forallb (class_ok flag_i false
             [CRange (cu "a") (cu "f"); CRange (cu "0") (cu "9");
              CChar (cu "-")]) l
  = forallb is_id_char (map lower l).
Proof.
  induction l as [|d l IH]; [reflexivity|].
  cbn [forallb map]. rewrite id_class_lower, IH. reflexivity.
Qed.

Lemma id_part_lower u :
  match u with
  | [] => false
  | _ :: _ =>
      forallb (class_ok flag_i false
                 [CRange (cu "a") (cu "f"); CRange (cu "0") (cu "9");
                  CChar (cu "-")]) u
  end
  = match map lower u with
    | [] => false
    | _ :: _ => forallb is_id_char (map lower u)
    end.
Proof. destruct u as [|c u]; [reflexivity|]. apply id_run_lower. Qed.

(** The test of the address on its lower case. *)
Lemma url_test_lower url :
  test flag_i re_url url
  = (let u := map lower url in
     let id_ok (v : jstring) :=
       match v with [] => false | _ :: _ => forallb is_id_char v end in
     let path_ok (v : jstring) :=
       startsWith v (lit "suno.com/song/") && id_ok (skipn 14 v) in
     let host_ok (v : jstring) :=
       (startsWith v (lit "www.") && path_ok (skipn 4 v)) || path_ok v in
     let rest_ok (v : jstring) :=
       startsWith v (lit "://") && host_ok (skipn 3 v) in
     startsWith u (lit "http")
     && ((startsWith (skipn 4 u) (lit "s") && rest_ok (skipn 5 u))
         || rest_ok (skipn 4 u))).
Proof.
  rewrite url_test_pieces. cbv zeta.
  rewrite !prefix_fl_lower by reflexivity.
  rewrite !id_part_lower. rewrite !skipn_map. reflexivity.
Qed.

Lemma valid_url_iff (url : jstring) :
  valid_url url = true <-> song_address url.
Proof.
  assert (Hv : valid_url url = test flag_i re_url url).
  { unfold valid_url. destruct url; [|reflexivity].
    rewrite url_test_lower. reflexivity. }
  rewrite Hv, url_test_lower. cbv zeta. unfold song_address.
  set (u := map lower url).
  set (id_ok := fun v : jstring =>
         match v with [] => false | _ :: _ => forallb is_id_char v end).
  set (path_ok := fun v : jstring =>
         startsWith v (lit "suno.com/song/") && id_ok (skipn 14 v)).
  set (host_ok := fun v : jstring =>
         (startsWith v (lit "www.") && path_ok (skipn 4 v)) || path_ok v).
  set (rest_ok := fun v : jstring =>
         startsWith v (lit "://") && host_ok (skipn 3 v)).
  assert (Hid : forall v, id_ok v = true <-> v <> [] /\ forallb is_id_char v = true).
  { intros [|c v]; unfold id_ok; split.
    - discriminate.
    - intros [H _]. congruence.
    - intros H. split; [discriminate|exact H].
    - intros [_ H]. exact H. }
  assert (Hpath : forall v, path_ok v = true <->
            exists id, v = lit "suno.com/song/" ++ id
                       /\ id <> [] /\ forallb is_id_char id = true).
  { intros v. unfold path_ok. split.
    - intros H. apply andb_prop in H as [H1 H2]. apply Hid in H2.
      exists (skipn 14 v). split; [exact (startsWith_split _ _ H1)|exact H2].
    - intros (id & -> & H). rewrite startsWith_app.
      change 14 with (length (lit "suno.com/song/")).
      rewrite skipn_app_exact. apply Hid. exact H. }
  assert (Hhost : forall v, host_ok v = true <->
            exists host id, v = host ++ lit "suno.com/song/" ++ id
                            /\ (host = [] \/ host = lit "www.")
                            /\ id <> [] /\ forallb is_id_char id = true).
  { intros v. unfold host_ok. split.
    - intros H. apply orb_prop in H as [H|H].
      + apply andb_prop in H as [H1 H2]. apply Hpath in H2 as (id & E & H2).
        exists (lit "www."), id. split; [|split; [right; reflexivity|exact H2]].
        rewrite (startsWith_split _ _ H1). f_equal. exact E.
      + apply Hpath in H as (id & E & H2).
        exists [], id. split; [exact E|]. split; [left; reflexivity|exact H2].
    - intros (host & id & -> & [->| ->] & H).
      + apply orb_true_iff. right. apply Hpath. exists id. auto.
      + apply orb_true_iff. left. rewrite startsWith_app.
        change 4 with (length (lit "www.")). rewrite skipn_app_exact.
        apply Hpath. exists id. auto. }
  assert (Hrest : forall v, rest_ok v = true <->
            exists host id, v = lit "://" ++ host ++ lit "suno.com/song/" ++ id
                            /\ (host = [] \/ host = lit "www.")
                            /\ id <> [] /\ forallb is_id_char id = true).
  { intros v. unfold rest_ok. split.
    - intros H. apply andb_prop in H as [H1 H2].
      apply Hhost in H2 as (host & id & E & H2). exists host, id.
      split; [|exact H2]. rewrite (startsWith_split _ _ H1). f_equal. exact E.
    - intros (host & id & -> & H). rewrite startsWith_app.
      change 3 with (length (lit "://")). rewrite skipn_app_exact.
      apply Hhost. exists host, id. auto. }
  change (startsWith u (lit "http")
          && ((startsWith (skipn 4 u) (lit "s") && rest_ok (skipn 5 u))
              || rest_ok (skipn 4 u)) = true
          <-> exists scheme host id,
                u = scheme ++ lit "://" ++ host ++ lit "suno.com/song/" ++ id
                /\ (scheme = lit "http" \/ scheme = lit "https")
                /\ (host = [] \/ host = lit "www.")
                /\ id <> [] /\ forallb is_id_char id = true).
  clearbody rest_ok u. clear Hid Hpath Hhost host_ok path_ok id_ok.
  split.
  - intros H. apply andb_prop in H as [H1 H2]. apply orb_prop in H2 as [H2|H2].
    + apply andb_prop in H2 as [H2 H3]. apply Hrest in H3 as (host & id & E & H3).
      exists (lit "https"), host, id. split; [|split; [right; reflexivity|exact H3]].
      pose proof (startsWith_split _ _ H1) as E1.
      pose proof (startsWith_split _ _ H2) as E2.
      change (length (lit "http")) with 4 in E1.
      change (length (lit "s")) with 1 in E2.
      rewrite skipn_skipn in E2. change (1 + 4) with 5 in E2.
      rewrite E1, E2, E. reflexivity.
    + apply Hrest in H2 as (host & id & E & H3).
      exists (lit "http"), host, id. split; [|split; [left; reflexivity|exact H3]].
      pose proof (startsWith_split _ _ H1) as E1.
      change (length (lit "http")) with 4 in E1.
      rewrite E1, E. reflexivity.
  - intros (scheme & host & id & E & [->| ->] & H); rewrite E.
    + rewrite startsWith_app. cbn [andb]. apply orb_true_iff. right.
      change 4 with (length (lit "http")). rewrite skipn_app_exact.
      apply Hrest. exists host, id. auto.
    + change (lit "https" ++ lit "://" ++ host ++ lit "suno.com/song/" ++ id)
        with (lit "http" ++ lit "s" ++ lit "://" ++ host
              ++ lit "suno.com/song/" ++ id).
      rewrite startsWith_app. cbn [andb]. apply orb_true_iff. left.
      change 4 with (length (lit "http")) at 1. rewrite skipn_app_exact.
      rewrite startsWith_app. cbn [andb].
      change 5 with (length (lit "http" ++ lit "s")).
      rewrite (app_assoc (lit "http") (lit "s")), skipn_app_exact.
      apply Hrest. exists host, id. auto.
Qed.

(** X3.  The handlers accept an address exactly when, up to the case
    of its letters, it is [http] or [https], [://], an optional [www.],
    [suno.com/song/] and an identifier of one or more code units among
    [a-f], [0-9] and the hyphen, with nothing before and nothing after. *)
Theorem valid_url_shape (url : jstring) :
  valid_url url = true <-> song_address url.
Proof. apply valid_url_iff. Qed.

Lemma response_ok_range status :
  response_ok status = true <-> (200 <= status <= 299)%N.
Proof.
  unfold response_ok. rewrite andb_true_iff, !N.leb_le. reflexivity.
Qed.

Section Guard.
Variable Number_toString : number -> jstring.
Variable matchAll_of_pattern : jstring -> jstring -> option (list match_result).

Local Abbreviation parse_page := (parse_page Number_toString matchAll_of_pattern).
Local Abbreviation parse_handler := (parse_handler Number_toString matchAll_of_pattern).

(** X4.  Both handlers answer 400 exactly for the addresses outside
    the accepted shape, whatever the fetch would give; they send a
    record only for a response with a status from 200 to 299, and what
    the fetch throws on an accepted address is the detail of their
    failure reply. *)
Theorem handlers_guard (w : World) (url : jstring) (fetched : fetch_result) :
  (parse_handler w url fetched = BadRequest <-> ~ song_address url)
  /\ (extract_handler w url fetched = BadRequest <-> ~ song_address url)
  /\ (forall r, parse_handler w url fetched = Parsed r ->
        exists status statusText html,
          fetched = Response status statusText html
          /\ (200 <= status <= 299)%N /\ parse_page url html = Ok r)
  /\ (forall r, extract_handler w url fetched = Extracted r ->
        exists status statusText html,
          fetched = Response status statusText html
          /\ (200 <= status <= 299)%N
          /\ extract_page w url html = Ok (Some r))
  /\ (forall e, song_address url -> fetch_text fetched = Throw e ->
        parse_handler w url fetched = ParseFailed e
        /\ extract_handler w url fetched = ExtractFailed e).
Proof.
  pose proof (valid_url_iff url) as Hv.
  unfold Server.parse_handler, extract_handler.
  destruct (valid_url url) eqn:V; cbn [negb].
  - assert (Ha : song_address url) by (apply Hv; reflexivity).
    split.
    { split; [|intros Hn; destruct (Hn Ha)].
      destruct (html <- fetch_text fetched ;; parse_page url html); discriminate. }
    split.
    { split; [|intros Hn; destruct (Hn Ha)].
      destruct (html <- fetch_text fetched ;; extract_page w url html) as [[r|]|e];
        discriminate. }
    split.
    { intros r. destruct fetched as [msg|status statusText html];
        cbn [fetch_text bind]; [discriminate|].
      destruct (response_ok status) eqn:S; cbn [bind]; [|discriminate].
      destruct (parse_page url html) as [r'|e] eqn:P; [|discriminate].
      intros [= <-]. exists status, statusText, html.
      split; [reflexivity|]. split; [apply response_ok_range; exact S|exact P]. }
    split.
    { intros r. destruct fetched as [msg|status statusText html];
        cbn [fetch_text bind]; [discriminate|].
      destruct (response_ok status) eqn:S; cbn [bind]; [|discriminate].
      destruct (extract_page w url html) as [[r'|]|e] eqn:P; try discriminate.
      intros [= <-]. exists status, statusText, html.
      split; [reflexivity|]. split; [apply response_ok_range; exact S|exact P]. }
    intros e _ He. rewrite He. cbn [bind]. split; reflexivity.
  - assert (Hn : ~ song_address url).
    { intros Ha. apply Hv in Ha. discriminate. }
    split; [split; auto|]. split; [split; auto|].
    split; [discriminate|]. split; [discriminate|].
    intros e Ha. destruct (Hn Ha).
Qed.

End Guard.

(** *** The resolver and the reply of [/parse] *)

Lemma text_or_absent_or a b :
  text_or_absent a = true -> text_or_absent b = true ->
  text_or_absent (or_ a b) = true.
Proof. unfold or_. destruct (truthy a); auto. Qed.

Lemma clean_text_or_absent v : text_or_absent v = true -> exists o, clean v = Ok o.
Proof. destruct v; try discriminate; intros _; eexists; reflexivity. Qed.

Lemma clean_some_truthy v t : clean v = Ok (Some t) -> truthy v = true.
Proof.
  destruct v; try discriminate. cbn [clean truthy].
  destruct s; [discriminate|reflexivity].
Qed.

Lemma scan_lyrics_text html : forall patterns v,
  text_or_absent v = true -> text_or_absent (scan_lyrics html patterns v) = true.
Proof.
  induction patterns as [|p rest IH]; intros v Hv; [exact Hv|].
  cbn [scan_lyrics]. destruct (scan_candidates html p); [|exact (IH v Hv)].
  destruct (first_some plausible_lyrics l).
  - destruct (truthy (JStr (decode_lyrics j))); [reflexivity|].
    apply IH. reflexivity.
  - destruct (truthy v); [exact Hv|exact (IH v Hv)].
Qed.

Lemma scan_styles_text html : forall patterns v,
  text_or_absent v = true -> text_or_absent (scan_styles html patterns v) = true.
Proof.
  induction patterns as [|p rest IH]; intros v Hv; [exact Hv|].
  cbn [scan_styles]. destruct (scan_candidates html p); [|exact (IH v Hv)].
  destruct (first_some plausible_style l).
  - destruct (truthy (JStr _)); [reflexivity|]. apply IH. reflexivity.
  - destruct (truthy v); [exact Hv|exact (IH v Hv)].
Qed.

Lemma group_text m i : text_or_absent (group m i) = true.
Proof. unfold group. destruct (nth _ _ _); reflexivity. Qed.

Lemma title_step_text html v w :
  text_or_absent v = true -> title_step html v = Ok w -> text_or_absent w = true.
Proof.
  intros Hv. unfold title_step. destruct (truthy v); cbn [negb];
    [intros [= <-]; exact Hv|].
  cbv zeta.
  destruct (truthy (match exec no_flags re_og_title html with
                    | Some m => group m 1 | None => JNull end)) eqn:E1.
  { intros [= <-]. destruct (exec no_flags re_og_title html);
      [apply group_text|reflexivity]. }
  destruct (truthy (match exec no_flags re_twitter_title html with
                    | Some m => group m 1 | None => JNull end)) eqn:E2.
  { intros [= <-]. destruct (exec no_flags re_twitter_title html);
      [apply group_text|reflexivity]. }
  destruct (exec no_flags re_html_title html) as [m|].
  - destruct (as_string (group m 1)) as [a|e]; cbn [bind]; [|discriminate].
    intros [= <-]. apply text_or_absent_or; reflexivity.
  - cbn [bind]. intros [= <-]. reflexivity.
Qed.

Lemma artist_step_text html v :
  text_or_absent v = true -> text_or_absent (artist_step html v) = true.
Proof.
  intros Hv. unfold artist_step. destruct (truthy v); cbn [negb]; [exact Hv|].
  destruct (exec no_flags re_desc_by html); [|exact Hv].
  destruct (group m 2); try exact Hv. destruct s; [exact Hv|reflexivity].
Qed.

Lemma lyrics_step_text html v :
  text_or_absent v = true -> text_or_absent (lyrics_step html v) = true.
Proof.
  intros Hv. unfold lyrics_step. destruct (truthy v); cbn [negb]; [exact Hv|].
  apply scan_lyrics_text. exact Hv.
Qed.

Lemma styles_step_text html v :
  text_or_absent v = true -> text_or_absent (styles_step html v) = true.
Proof.
  intros Hv. unfold styles_step. destruct (truthy v); cbn [negb]; [exact Hv|].
  pose proof (scan_styles_text html styles_patterns v Hv) as H.
  unfold meta_genre_step. destruct (truthy (scan_styles _ _ _)); cbn [negb];
    [exact H|].
  destruct (exec no_flags re_meta_desc html); [|exact H].
  destruct (group m 1); try exact H. destruct s; [exact H|].
  destruct (exec flag_i re_genre _); [apply group_text|exact H].
Qed.

Section Reply.
Variable Number_toString : number -> jstring.
Variable matchAll_of_pattern : jstring -> jstring -> option (list match_result).

Local Abbreviation resolve := (resolve Number_toString matchAll_of_pattern).
Local Abbreviation parse_page := (parse_page Number_toString matchAll_of_pattern).
Local Abbreviation assemble := (assemble Number_toString).

(** The resolver on a song whose fields are texts: it returns, and the
    four fields it returns are texts, [null] or [undefined]. *)
Lemma resolve_texts html loc :
  forallb text_or_absent (fields_read (songData loc)) = true ->
  forallb text_or_absent (page_fields_read (page_song (nextData loc))) = true ->
  exists f, resolve html loc = Ok f
            /\ text_or_absent (title f) = true
            /\ text_or_absent (artist f) = true
            /\ text_or_absent (lyrics f) = true
            /\ text_or_absent (styles f) = true.
Proof.
  intros Hs Hn. cbn [fields_read page_fields_read forallb] in Hs, Hn.
  repeat (apply andb_prop in Hs as [? Hs]).
  repeat (apply andb_prop in Hn as [? Hn]).
  set (sd := songData loc) in *. set (ps := page_song (nextData loc)) in *.
  assert (Ht0 : text_or_absent (title (fields_of_song sd)) = true).
  { cbn [fields_of_song title]. apply text_or_absent_or; auto. }
  assert (Ha0 : text_or_absent (artist (fields_of_song sd)) = true).
  { cbn [fields_of_song artist]. repeat apply text_or_absent_or; auto. }
  assert (Hl0 : text_or_absent (lyrics (fields_of_song sd)) = true).
  { cbn [fields_of_song lyrics]. repeat apply text_or_absent_or; auto. }
  assert (Hs0 : text_or_absent (styles (fields_of_song sd)) = true).
  { cbn [fields_of_song styles]. repeat apply text_or_absent_or; auto. }
  assert (Hneg : exists s1, negative_tags_step Number_toString sd
                              (styles (fields_of_song sd)) = Ok s1
                            /\ text_or_absent s1 = true).
  { unfold negative_tags_step.
    destruct (negb (truthy (styles (fields_of_song sd)))
              && truthy (get (get sd "metadata") "negative_tags")) eqn:E;
      [|eexists; split; [reflexivity|exact Hs0]].
    apply andb_prop in E as [_ E].
    destruct (get (get sd "metadata") "negative_tags"); try discriminate.
    eexists. split; reflexivity. }
  destruct Hneg as (s1 & Hneg & Hs1).
  unfold Server.resolve. fold sd. rewrite Hneg. cbn [bind].
  destruct (page_props_step (nextData loc) (lyrics (fields_of_song sd)) s1)
    as [l1 s2] eqn:E.
  assert (Hl1 : text_or_absent l1 = true /\ text_or_absent s2 = true).
  { unfold page_props_step in E.
    destruct (truthy _ && truthy _); injection E as <- <-; [|auto].
    fold (page_song (nextData loc)). fold ps.
    split; repeat apply text_or_absent_or; auto. }
  destruct Hl1 as [Hl1 Hs2].
  pose proof (prompt_ref_dead matchAll_of_pattern html sd (nextData loc) s1) as Hd.
  cbn zeta in Hd. rewrite E in Hd. cbn [fst] in Hd. rewrite Hd. cbn [bind].
  destruct (title_step_total html (title (fields_of_song sd))) as [t1 Ht1].
  rewrite Ht1. cbn [bind]. eexists. split; [reflexivity|].
  cbn [title artist lyrics styles].
  split; [exact (@title_step_text html _ _ Ht0 Ht1)|].
  split; [apply artist_step_text; exact Ha0|].
  split; [apply lyrics_step_text; exact Hl1|].
  apply styles_step_text; exact Hs2.
Qed.

Lemma assemble_texts url html loc f :
  text_or_absent (title f) = true -> text_or_absent (artist f) = true ->
  text_or_absent (lyrics f) = true -> text_or_absent (styles f) = true ->
  exists r, assemble url html loc f = Ok r.
Proof.
  intros H1 H2 H3 H4. unfold Server.assemble. cbn zeta.
  destruct (clean_text_or_absent _ H1) as [o1 ->].
  destruct (clean_text_or_absent _ H2) as [o2 ->].
  destruct (clean_text_or_absent _ H3) as [o3 ->].
  destruct (clean_text_or_absent _ H4) as [o4 ->]. cbn [bind].
  destruct (truthy (songData loc)) eqn:E.
  - destruct (stringify_truthy Number_toString _ E) as [t ->]. cbn [bind].
    eexists. reflexivity.
  - cbn [bind]. eexists. reflexivity.
Qed.

(** The parts of the reply that do not depend on the resolved fields. *)
Lemma assemble_frame url html loc f r :
  assemble url html loc f = Ok r ->
  r_url r = url
  /\ r_rawHtmlSnippet r = slice0 html 2000
  /\ hasNextData (r_debugInfo r)
     = match nextDataMatch loc with Some _ => true | None => false end
  /\ scriptCount (r_debugInfo r) = length (allScripts loc)
  /\ htmlLength (r_debugInfo r) = length html
  /\ foundPatterns (r_debugInfo r)
     = {| found_title := truthy (title f); found_artist := truthy (artist f);
          found_lyrics := truthy (lyrics f); found_styles := truthy (styles f);
          found_audio_url := truthy (r_audio_url r) |}
  /\ r_transcription_note r
     = (if truthy (r_audio_url r) then Some transcription_note else None)
  /\ (if truthy (songData loc)
      then exists text, JSON_stringify Number_toString (songData loc) = Some text
                        /\ r_songData r = Some (slice0 text 500)
      else r_songData r = None).
Proof.
  unfold Server.assemble. cbn zeta.
  destruct (clean (title f)) as [o1|e]; cbn [bind]; [|discriminate].
  destruct (clean (artist f)) as [o2|e]; cbn [bind]; [|discriminate].
  destruct (clean (lyrics f)) as [o3|e]; cbn [bind]; [|discriminate].
  destruct (clean (styles f)) as [o4|e]; cbn [bind]; [|discriminate].
  destruct (truthy (songData loc)).
  - destruct (JSON_stringify Number_toString (songData loc)) as [text|];
      cbn [bind]; [|discriminate].
    intros [= <-]. cbn. repeat split. exists text. split; reflexivity.
  - cbn [bind]. intros [= <-]. cbn. repeat split.
Qed.

Lemma locate_frame html loc :
  locate html = Ok loc ->
  nextDataMatch loc = exec no_flags re_next_data html
  /\ allScripts loc = scripts_of html.
Proof.
  unfold locate. destruct (from_next_data _) as [s1 nd].
  destruct (if negb (truthy s1) then _ else _) as [s2 st].
  destruct (from_scripts (scripts_of html) s2); cbn [bind]; [|discriminate].
  intros [= <-]. split; reflexivity.
Qed.

End Reply.

Lemma song_like_truthy text v : song_like text = Some v -> truthy v = true.
Proof.
  unfold song_like. destruct (JSON_parse text) as [j|]; [|discriminate].
  destruct (nullish j); [discriminate|].
  destruct (truthy (or_ _ _)) eqn:E; [|discriminate].
  intros [= <-]. destruct j; try reflexivity; discriminate E.
Qed.

Lemma from_scripts_keeps_truthy : forall scripts sd v,
  from_scripts scripts sd = Ok v -> truthy sd = true -> truthy v = true.
Proof.
  induction scripts as [|script rest IH]; intros sd v H Hsd.
  - injection H as <-. exact Hsd.
  - cbn [from_scripts] in H.
    destruct (exec no_flags re_script_body script); [|exact (IH _ _ H Hsd)].
    destruct (as_string (group m 1)) as [body|e]; cbn [bind] in H; [|discriminate].
    destruct (startsWith (trim body) (lit "{")); [|exact (IH _ _ H Hsd)].
    destruct (song_like body) as [j|] eqn:E; [|exact (IH _ _ H Hsd)].
    injection H as <-. exact (song_like_truthy _ E).
Qed.

Lemma get_of_falsy v k : truthy v = false -> get v k = JUndefined.
Proof. destruct v; try reflexivity. discriminate. Qed.

Lemma from_chunks_truthy : forall chunks s d,
  from_chunks chunks = Some (s, d) -> truthy s = true.
Proof.
  induction chunks as [|chunk rest IH]; intros s d; [discriminate|].
  cbn [from_chunks]. destruct (from_chunk chunk) as [[s' d']|] eqn:E; [|apply IH].
  intros [= <- <-]. unfold from_chunk in E.
  destruct (exec no_flags re_next_f chunk); [|discriminate].
  destruct (group m 1); try discriminate. destruct s; [discriminate|].
  destruct (_ && _); [|discriminate].
  destruct (JSON_parse _); [|discriminate].
  destruct (truthy (findSongData j)) eqn:T; [|discriminate].
  injection E as <- _. exact T.
Qed.

(** When the three strategies end without a song, the page properties
    hold no song either. *)
Lemma locate_no_song html loc :
  locate html = Ok loc -> truthy (songData loc) = false ->
  truthy (page_song (nextData loc)) = false.
Proof.
  unfold locate.
  destruct (from_next_data (exec no_flags re_next_data html)) as [s1 nd] eqn:E1.
  destruct (if negb (truthy s1) then _ else _) as [s2 st] eqn:E2.
  destruct (from_scripts (scripts_of html) s2) as [s3|e] eqn:E3; cbn [bind];
    [|discriminate].
  intros [= <-]. cbn [songData nextData]. intros H3.
  assert (H2 : truthy s2 = false).
  { destruct (truthy s2) eqn:T; [|reflexivity].
    rewrite (from_scripts_keeps_truthy _ _ E3 T) in H3. discriminate. }
  assert (H1 : truthy s1 = false).
  { destruct (truthy s1) eqn:T; [|reflexivity]. cbn [negb] in E2.
    injection E2 as <- _. congruence. }
  unfold from_next_data in E1.
  destruct (exec no_flags re_next_data html) as [m|];
    [|injection E1 as _ <-; reflexivity].
  destruct (as_string (group m 1)) as [text|e];
    [|injection E1 as _ <-; reflexivity].
  destruct (JSON_parse text) as [j|]; [|injection E1 as _ <-; reflexivity].
  injection E1 as <- <-. unfold page_song.
  rewrite !truthy_or in H1. apply orb_false_elim in H1 as [H1 _].
  apply orb_false_elim in H1 as [H1 _]. exact H1.
Qed.

Section Records.
Variable Number_toString : number -> jstring.
Variable matchAll_of_pattern : jstring -> jstring -> option (list match_result).

Local Abbreviation resolve := (resolve Number_toString matchAll_of_pattern).
Local Abbreviation parse_page := (parse_page Number_toString matchAll_of_pattern).
Local Abbreviation assemble := (assemble Number_toString).

(** X5.  [/parse] sends a record for every page whose song has a
    string, [null] or nothing in each property the resolver reads, for
    the song the strategies found and for the song of the page
    properties. *)
Theorem parse_record_on_texts (url html : jstring) (loc : located) :
  locate html = Ok loc ->
  forallb text_or_absent (fields_read (songData loc)) = true ->
  forallb text_or_absent (page_fields_read (page_song (nextData loc))) = true ->
  exists r, parse_page url html = Ok r.
Proof.
  intros Hl Hs Hn.
  destruct (resolve_texts Number_toString matchAll_of_pattern html loc Hs Hn)
    as (f & Hf & H1 & H2 & H3 & H4).
  destruct (assemble_texts Number_toString url html loc f H1 H2 H3 H4) as [r Hr].
  exists r. unfold Server.parse_page. rewrite Hl. cbn [bind]. rewrite Hf.
  cbn [bind]. exact Hr.
Qed.

(** X6.  [/parse] sends a record for every page on which the three
    strategies find no song: the record has no serialized song, no
    audio address and no transcription note. *)
Theorem parse_record_without_song (url html : jstring) (loc : located) :
  locate html = Ok loc -> truthy (songData loc) = false ->
  exists r, parse_page url html = Ok r
            /\ r_songData r = None /\ r_audio_url r = JNull
            /\ r_transcription_note r = None.
Proof.
  intros Hl Hs.
  pose proof (locate_no_song html Hl Hs) as Hp.
  assert (Ha : forallb text_or_absent (fields_read (songData loc)) = true).
  { unfold fields_read. rewrite !(get_of_falsy _ _ Hs). reflexivity. }
  assert (Hb : forallb text_or_absent
                 (page_fields_read (page_song (nextData loc))) = true).
  { unfold page_fields_read. rewrite !(get_of_falsy _ _ Hp). reflexivity. }
  destruct (resolve_texts Number_toString matchAll_of_pattern html loc Ha Hb)
    as (f & Hf & H1 & H2 & H3 & H4).
  destruct (assemble_texts Number_toString url html loc f H1 H2 H3 H4) as [r Hr].
  exists r. split.
  - unfold Server.parse_page. rewrite Hl. cbn [bind]. rewrite Hf. cbn [bind].
    exact Hr.
  - pose proof (assemble_frame Number_toString url html loc f Hr)
      as (_ & _ & _ & _ & _ & _ & Hn & Hsd).
    pose proof (assemble_inv Number_toString url html loc f Hr)
      as (_ & _ & _ & _ & Hau).
    rewrite Hs in Hsd. rewrite (get_of_falsy _ _ Hs) in Hau. cbn in Hau.
    rewrite Hau in Hn. auto.
Qed.

(** X7.  The reply of [/parse] does not depend on what the pattern
    compiled from a prompt reference matches, nor on whether the engine
    accepts that pattern: lines 148 to 177 never change the lyrics. *)
Theorem parse_ignores_compiled_pattern
  (matchAll' : jstring -> jstring -> option (list match_result))
  (url html : jstring) :
  parse_page url html = Server.parse_page Number_toString matchAll' url html.
Proof.
  unfold Server.parse_page. destruct (locate html) as [loc|e]; [|reflexivity].
  cbn [bind]. f_equal. unfold Server.resolve.
  destruct (negative_tags_step Number_toString (songData loc) _) as [s1|e];
    [|reflexivity].
  cbn [bind].
  pose proof (prompt_ref_dead matchAll_of_pattern html (songData loc)
                (nextData loc) s1) as H1.
  pose proof (prompt_ref_dead matchAll' html (songData loc)
                (nextData loc) s1) as H2.
  cbn zeta in H1, H2.
  destruct (page_props_step (nextData loc) _ s1) as [l1 s2].
  cbn [fst] in H1, H2. rewrite H1, H2. reflexivity.
Qed.

(** X8.  The frame of the record: it repeats the address asked for,
    its snippet is the first 2000 code units of the page, the debug
    information counts the code units of the page and the script
    elements the scan found and tells whether the legacy script was
    there, and the serialized song has at most 500 code units. *)
Theorem record_frame (url html : jstring) (r : parse_record) :
  parse_page url html = Ok r ->
  r_url r = url
  /\ r_rawHtmlSnippet r = firstn 2000 html
  /\ length (r_rawHtmlSnippet r) = min 2000 (length html)
  /\ htmlLength (r_debugInfo r) = length html
  /\ scriptCount (r_debugInfo r) = length (scripts_of html)
  /\ hasNextData (r_debugInfo r) = test no_flags re_next_data html
  /\ (forall text, r_songData r = Some text -> length text <= 500).
Proof.
  intros H.
  destruct (parse_page_inv Number_toString matchAll_of_pattern url html H)
    as (loc & f & Hl & _ & Ha).
  destruct (@locate_frame html loc Hl) as [Hm Hsc].
  destruct (assemble_frame Number_toString url html loc f Ha)
    as (H1 & H2 & H3 & H4 & H5 & _ & _ & H8).
  split; [exact H1|]. split; [exact H2|].
  split; [rewrite H2; unfold slice0; apply length_firstn|].
  split; [exact H5|]. split; [rewrite H4, Hsc; reflexivity|].
  split; [rewrite H3, Hm; reflexivity|].
  intros text Ht. destruct (truthy (songData loc)).
  - destruct H8 as (t & _ & E).
    assert (Et : text = slice0 t 500) by congruence.
    rewrite Et. unfold slice0. apply firstn_le_length.
  - rewrite H8 in Ht. discriminate.
Qed.

(** X9.  The flags of [foundPatterns] are taken before the fields are
    cleaned: every field the record carries is reported as found, the
    flag of the audio address tells whether the address is there, and
    the transcription note is sent exactly with an audio address. *)
Theorem found_flags_cover_fields (url html : jstring) (r : parse_record) :
  parse_page url html = Ok r ->
  let found := foundPatterns (r_debugInfo r) in
  (r_title r <> None -> found_title found = true)
  /\ (r_artist r <> None -> found_artist found = true)
  /\ (r_lyrics r <> None -> found_lyrics found = true)
  /\ (r_styles r <> None -> found_styles found = true)
  /\ found_audio_url found = truthy (r_audio_url r)
  /\ r_transcription_note r
     = (if truthy (r_audio_url r) then Some transcription_note else None).
Proof.
  intros H.
  destruct (parse_page_inv Number_toString matchAll_of_pattern url html H)
    as (loc & f & _ & _ & Ha).
  destruct (assemble_frame Number_toString url html loc f Ha)
    as (_ & _ & _ & _ & _ & H6 & H7 & _).
  destruct (assemble_inv Number_toString url html loc f Ha)
    as (C1 & C2 & C3 & C4 & _).
  cbv zeta. rewrite H6. cbn [found_title found_artist found_lyrics found_styles
                             found_audio_url].
  assert (K : forall v o, clean v = Ok o -> o <> None -> truthy v = true).
  { intros v [t|] Hc Hne; [exact (clean_some_truthy _ Hc)|congruence]. }
  repeat split; eauto.
Qed.

End Records.

Lemma parse_record_on_texts_witness :
  exists loc,
    locate page_negative_tags = Ok loc
    /\ forallb text_or_absent (fields_read (songData loc)) = true
    /\ forallb text_or_absent (page_fields_read (page_song (nextData loc))) = true
    /\ forall nts mp, exists r, parse_page nts mp song_url page_negative_tags = Ok r.
Proof.
  eexists.
  assert (H : locate page_negative_tags = Ok _) by (vm_compute; reflexivity).
  split; [exact H|]. split; [reflexivity|]. split; [reflexivity|].
  intros nts mp.
  exact (parse_record_on_texts nts mp song_url page_negative_tags H eq_refl eq_refl).
Defined.

Lemma parse_record_without_song_witness :
  exists loc,
    locate page_no_payload = Ok loc /\ truthy (songData loc) = false
    /\ forall nts mp, exists r,
         parse_page nts mp song_url page_no_payload = Ok r /\ r_songData r = None.
Proof.
  eexists.
  assert (H : locate page_no_payload = Ok _) by (vm_compute; reflexivity).
  split; [exact H|]. split; [reflexivity|].
  intros nts mp.
  destruct (parse_record_without_song nts mp song_url page_no_payload H eq_refl)
    as (r & Hr & Hs & _).
  exists r. split; [exact Hr|exact Hs].
Defined.

Lemma record_frame_witness :
  exists r,
    (forall nts mp, parse_page nts mp song_url page_two_titles = Ok r)
    /\ r_url r = song_url
    /\ scriptCount (r_debugInfo r) = 2
    /\ htmlLength (r_debugInfo r) = length page_two_titles.
Proof.
  eexists. split; [intros nts mp; vm_compute; reflexivity|].
  pose (nts := fun _ : number => @nil N).
  pose (mp := fun _ _ : jstring => @None (list match_result)).
  destruct (@record_frame nts mp song_url page_two_titles _
              ltac:(vm_compute; reflexivity))
    as (H1 & _ & _ & H4 & _).
  split; [exact H1|]. split; [reflexivity|exact H4].
Defined.

Lemma found_flags_cover_fields_witness :
  exists r,
    (forall nts mp, parse_page nts mp song_url page_blank_title = Ok r)
    /\ r_title r = None
    /\ found_title (foundPatterns (r_debugInfo r)) = true
    /\ found_audio_url (foundPatterns (r_debugInfo r)) = truthy (r_audio_url r).
Proof.
  eexists. split; [intros nts mp; vm_compute; reflexivity|].
  split; [reflexivity|]. split; [reflexivity|].
  pose (nts := fun _ : number => @nil N).
  pose (mp := fun _ _ : jstring => @None (list match_result)).
  destruct (@found_flags_cover_fields nts mp song_url page_blank_title _
              ltac:(vm_compute; reflexivity))
    as (_ & _ & _ & _ & H5 & _).
  exact H5.
Defined.

(** *** What [clean] returns *)

Lemma tag_free_no_match : forall s pos,
  tag_free s = true -> exec_from no_flags re_tag pos s = None.
Proof.
  induction s as [|c s IH]; intros pos H.
  - cbn [exec_from]. rewrite match_at_tag. reflexivity.
  - cbn [exec_from]. rewrite match_at_tag. cbn [tag_free] in H.
    destruct (after_tag (c :: s)); [discriminate|]. apply IH. exact H.
Qed.

Lemma squeezed_no_pair : forall s n,
  squeezed s = true -> indexOf_from n s (lit "  ") = None.
Proof.
  induction s as [|c s IH]; intros n H; [reflexivity|].
  cbn [squeezed] in H. apply andb_prop in H as [Hc Hs].
  cbn [indexOf_from]. rewrite (IH (S n) Hs).
  replace (startsWith (c :: s) (lit "  ")) with false; [reflexivity|].
  symmetry.
  change (lit "  ") with [32%N; 32%N]. rewrite !startsWith_cons.
  destruct (N.eqb_spec 32 c) as [<-|]; [|reflexivity]. cbn in Hc.
  destruct s as [|d s']; [reflexivity|].
  destruct (N.eqb_spec 32 d) as [<-|]; [|reflexivity]. discriminate Hc.
Qed.

(** X10.  A text that [clean] returns is not empty, holds no match of
    the tag pattern, no white space other than the blank, no two blanks
    in a row and no blank at either end. *)
Theorem clean_output_normal (v : jsval) (t : jstring) :
  clean v = Ok (Some t) ->
  t <> []
  /\ exec no_flags re_tag t = None
  /\ (forall c, In c t -> is_space c = true -> c = 32%N)
  /\ includes t (lit "  ") = false
  /\ trim t = t.
Proof.
  destruct v as [| | b | n | s | items | fields]; try discriminate.
  cbn [clean]. intros [= H]. unfold or_null in H.
  destruct (clean_text s) as [|c u] eqn:E; [discriminate|].
  injection H as <-. rewrite <- E.
  destruct (clean_text_normal s) as [Hsq Htf].
  split; [rewrite E; discriminate|].
  split; [apply tag_free_no_match; exact Htf|].
  split; [intros ch Hin Hsp; exact (@squeezed_spaces _ _ Hsq Hin Hsp)|].
  split; [unfold includes, indexOf; rewrite (squeezed_no_pair _ 0 Hsq); reflexivity|].
  unfold clean_text. apply trim_idem.
Qed.

Lemma clean_output_normal_witness :
  clean (JStr (lit "  <b>two</b>   words ")) = Ok (Some (lit "two words"))
  /\ exec no_flags re_tag (lit "two words") = None
  /\ trim (lit "two words") = lit "two words".
Proof.
  assert (H : clean (JStr (lit "  <b>two</b>   words ")) = Ok (Some (lit "two words")))
    by (vm_compute; reflexivity).
  split; [exact H|].
  destruct (clean_output_normal _ H) as (_ & H2 & _ & _ & H5).
  split; [exact H2|exact H5].
Defined.

(** *** The passes of [clean] *)

(** X11.  The fourth replacement of [clean], of three or more newlines
    by two, never changes the text it is given: after the replacement
    of the white space no newline is left.  [clean] is the other three
    replacements, the trimming, and [null] for an empty text. *)
Theorem newline_pass_changes_nothing (s : jstring) :
  (forall u by_,
     replace_all no_flags re_newlines by_ (replace_all no_flags re_spaces (lit " ") u)
     = replace_all no_flags re_spaces (lit " ") u)
  /\ clean (JStr s)
     = Ok (or_null
             (trim (replace_all no_flags re_spaces (lit " ")
                      (replace_all no_flags re_tag []
                         (replace_all no_flags re_nbsp (lit " ") s))))).
Proof.
  assert (H : forall u by_,
            replace_all no_flags re_newlines by_
              (replace_all no_flags re_spaces (lit " ") u)
            = replace_all no_flags re_spaces (lit " ") u).
  { intros u by_. change (lit " ") with [32%N]. rewrite replace_spaces.
    apply replace_newlines_id. apply squeezed_no_newline. apply squeeze_squeezed. }
  split; [exact H|].
  cbn [clean]. unfold clean_text. rewrite H. reflexivity.
Qed.

(** *** [/extract] and the legacy script *)

Lemma exec_from_head_fail fl L r : ignoreCase fl = false ->
  forall s pos,
  (forall k, startsWith (skipn k s) L = false) ->
  exec_from fl (RSeq (seq (map RChar L)) r) pos s = None.
Proof.
  intros Hfl. induction s as [|c s IH]; intros pos H.
  - cbn [exec_from]. rewrite match_at_head_fail; [reflexivity|exact Hfl|exact (H 0)].
  - cbn [exec_from]. rewrite match_at_head_fail; [|exact Hfl|exact (H 0)].
    apply IH. intros k. exact (H (S k)).
Qed.

Lemma no_legacy_script html :
  includes html (lit "<script id=`__NEXT_DATA__` type=`application/json`>") = false ->
  exec no_flags re_next_data html = None.
Proof.
  intros H. unfold exec. rewrite re_next_data_shape.
  apply exec_from_head_fail; [reflexivity|].
  exact (includes_false _ _ H).
Qed.

(** X12.  On a page without the legacy script a record of [/extract]
    holds no data: a song found by the scan of the scripts keeps the
    reply from being the not-found one, and none of its properties is
    copied into the record. *)
Theorem extract_without_legacy_script (w : World) (url html : jstring)
  (r : extract_record) :
  includes html (lit "<script id=`__NEXT_DATA__` type=`application/json`>") = false ->
  extract_page w url html = Ok (Some r) ->
  e_full_song_data r = JUndefined
  /\ forall k v,
       In (k, v) (e_song_info r ++ e_user_info r ++ e_media r ++ e_metadata r
                  ++ e_engagement r ++ e_technical r ++ e_raw_next_data r) ->
       v = JUndefined.
Proof.
  intros Hno. unfold extract_page. rewrite (no_legacy_script _ Hno).
  cbn [extract_next_data truthy negb].
  destruct (from_scripts (scripts_of html) JNull) as [s2|e]; cbn [bind];
    [|discriminate].
  destruct (negb (truthy s2) && true); [discriminate|].
  intros [= <-]. cbn [e_full_song_data e_song_info e_user_info e_media e_metadata
                      e_engagement e_technical e_raw_next_data].
  split; [reflexivity|].
  intros k v Hin. cbn in Hin.
  repeat (destruct Hin as [Hin|Hin]; [injection Hin as _ <-; reflexivity|]).
  destruct Hin.
Qed.

Lemma extract_without_legacy_script_witness :
  exists r,
    extract_page world_a song_url page_audio_url = Ok (Some r)
    /\ e_full_song_data r = JUndefined
    /\ e_media r = [("audio_url", JUndefined); ("video_url", JUndefined);
                    ("image_url", JUndefined); ("image_large_url", JUndefined)]%string.
Proof.
  eexists.
  assert (H : extract_page world_a song_url page_audio_url = Ok (Some _))
    by (vm_compute; reflexivity).
  split; [exact H|].
  split; [|reflexivity].
  exact (proj1 (extract_without_legacy_script world_a song_url page_audio_url
                  ltac:(vm_compute; reflexivity) H)).
Defined.

(** X13.  When the legacy script parses to a value that is not falsy,
    [/extract] sends a record whatever else the page holds: it repeats
    the address, its time is the clock's, its song is the [song] of the
    page properties, or their [data], and each of its seven sections
    holds the named properties of that song, of its user, of its
    metadata, or of the parsed document. *)
Theorem extract_legacy_song (w : World) (url pre body post : jstring)
  (nd : jsval) :
  no_script pre = true ->
  forallb (dot_ok no_flags) body = true -> no_lt body = true ->
  JSON_parse body = Some nd -> truthy nd = true ->
  let pageProps := get (get nd "props") "pageProps" in
  let song := or_ (get pageProps "song") (get pageProps "data") in
  exists r,
    extract_page w url (pre ++ script_element next_data_attrs body ++ post)
    = Ok (Some r)
    /\ e_url r = url /\ e_extraction_timestamp r = now_iso w
    /\ e_full_song_data r = song
    /\ e_song_info r
       = pick song ["id"; "title"; "display_name"; "created_at"; "status";
                    "model_name"; "gpt_description_prompt"]%string
    /\ e_user_info r
       = pick (get song "user")
           ["id"; "display_name"; "handle"; "avatar_image_url"; "is_verified"]%string
    /\ e_media r
       = pick song ["audio_url"; "video_url"; "image_url"; "image_large_url"]%string
    /\ e_metadata r
       = pick (get song "metadata")
           ["prompt"; "gpt_description_prompt"; "audio_prompt_id"; "history";
            "concat_history"; "type"; "duration"; "refund_credits"; "stream";
            "error_type"; "error_message"; "tags"]%string
    /\ e_engagement r
       = pick song ["play_count"; "upvote_count"; "is_liked"; "reaction"]%string
    /\ e_technical r
       = pick song ["duration"; "is_trashed"; "is_public"; "stem_from_id";
                    "infill_start_s"; "infill_end_s"]%string
    /\ e_raw_next_data r
       = pick nd ["props"; "page"; "query"; "buildId"; "isFallback"; "gssp"]%string.
Proof.
  intros Hpre Hdot Hlt Hparse Hnd. cbv zeta.
  unfold extract_page. rewrite (exec_next_data pre body post Hpre Hdot Hlt).
  unfold extract_next_data. cbn [group mr_groups nth pred as_string].
  rewrite Hparse.
  set (page := pre ++ script_element next_data_attrs body ++ post).
  set (s1 := or_ _ (get (get nd "props") "pageProps")).
  assert (Hs : exists s2,
            (if negb (truthy s1) then from_scripts (scripts_of page) s1 else Ok s1)
            = Ok s2).
  { destruct (negb (truthy s1)); [apply from_scripts_total|eexists; reflexivity]. }
  destruct Hs as [s2 ->]. cbn [bind]. rewrite Hnd. rewrite andb_false_r.
  eexists. split; [reflexivity|]. cbn. repeat split.
Qed.

Lemma extract_legacy_song_witness :
  exists r,
    extract_page world_a song_url
      (scenario_a_page (lit "<html>") (lit "<script>{`title`:`Other`}</script>"))
    = Ok (Some r)
    /\ In ("title"%string, JStr (lit "T")) (e_song_info r)
    /\ e_extraction_timestamp r = lit "2025-01-01T00:00:00.000Z".
Proof.
  assert (Hp : exists nd, JSON_parse scenario_a_json = Some nd /\ truthy nd = true).
  { eexists. split; vm_compute; reflexivity. }
  destruct Hp as (nd & Hp & Hn).
  destruct (extract_legacy_song world_a song_url (lit "<html>") scenario_a_json
              (lit "<script>{`title`:`Other`}</script>")
              ltac:(vm_compute; reflexivity) ltac:(vm_compute; reflexivity)
              ltac:(vm_compute; reflexivity) Hp Hn)
    as (r & H1 & _ & H3 & _ & H5 & _).
  exists r. split; [exact H1|]. split; [|exact H3].
  rewrite H5. vm_compute in Hp. injection Hp as <-. vm_compute. right. left. reflexivity.
Defined.

(** *** Matches and captures are parts of the input *)

Lemma part_of_refl s : part_of s s.
Proof. exists [], []. rewrite app_nil_r. reflexivity. Qed.

Lemma part_of_trans a b c : part_of a b -> part_of b c -> part_of a c.
Proof.
  intros (p & q & ->) (p' & q' & ->). exists (p' ++ p), (q ++ q').
  rewrite <- !app_assoc. reflexivity.
Qed.

Lemma part_of_firstn n rest s :
  (exists a, s = a ++ rest) -> part_of (firstn n rest) s.
Proof.
  intros (a & ->). exists a, (skipn n rest). rewrite firstn_skipn. reflexivity.
Qed.

Lemma in_set_nth_none t : forall l i,
  In (Some t) (set_nth i None l) -> In (Some t) l.
Proof.
  induction l as [|a l IH]; intros [|i] H; cbn [set_nth] in H; try exact H.
  - destruct H as [H|H]; [discriminate|right; exact H].
  - destruct H as [H|H]; [left; exact H|right; exact (IH _ H)].
Qed.

Lemma in_set_nth t v : forall l i,
  In (Some t) (set_nth i (Some v) l) -> t = v \/ In (Some t) l.
Proof.
  induction l as [|a l IH]; intros [|i] H; cbn [set_nth] in H; try (right; exact H).
  - destruct H as [H|H]; [left; congruence|right; right; exact H].
  - destruct H as [H|H]; [right; left; exact H|].
    destruct (IH _ H) as [E|E]; [left; exact E|right; right; exact E].
Qed.

Lemma within_clear s : forall gs x, within s x -> within s (clear_caps gs x).
Proof.
  unfold clear_caps. induction gs as [|g gs IH]; intros x H; [exact H|].
  cbn [fold_left]. apply IH. destruct H as [Hr Hc]. split; [exact Hr|].
  intros t Ht. apply Hc. exact (in_set_nth_none _ _ _ Ht).
Qed.

Lemma char_matcher_within s ok : stays_within s (char_matcher ok).
Proof.
  intros x c z [(a & Ha) Hc]. unfold char_matcher.
  destruct (ms_rest x) as [|ch r] eqn:E; [discriminate|].
  destruct (ok ch); [|discriminate]. intros H. exists (advance x r).
  split; [|exact H]. split; [|exact Hc].
  exists (a ++ [ch]). rewrite <- app_assoc. exact Ha.
Qed.

Lemma repeat_star_within s gs m greedy : stays_within s m ->
  forall fuel max, stays_within s (fun x c => repeat_star m gs greedy fuel max x c).
Proof.
  intros Hm. induction fuel as [|fuel IH]; intros max x c z Hx H;
    cbn [repeat_star] in H.
  - destruct (max_is_zero max); exists x; auto.
  - destruct (max_is_zero max); [exists x; auto|].
    assert (Hiter : forall z', m (clear_caps gs x)
              (fun y => if ms_pos y <=? ms_pos x then None
                        else repeat_star m gs greedy fuel (dec_max max) y c) = Some z' ->
            exists y, within s y /\ c y = Some z').
    { intros z' Hz. apply Hm in Hz as (y & Hy & Hz); [|apply within_clear; exact Hx].
      destruct (ms_pos y <=? ms_pos x); [discriminate|].
      eapply IH; eassumption. }
    destruct greedy.
    + destruct (m (clear_caps gs x) _) as [z'|] eqn:E.
      * injection H as <-. apply Hiter. reflexivity.
      * exists x. auto.
    + destruct (c x) as [z'|] eqn:E.
      * injection H as <-. exists x. auto.
      * apply Hiter. exact H.
Qed.

Lemma repeat_min_within s gs m greedy : stays_within s m ->
  forall min max, stays_within s (fun x c => repeat_min m gs greedy min max x c).
Proof.
  intros Hm. induction min as [|min IH]; intros max x c z Hx H;
    cbn [repeat_min] in H.
  - eapply repeat_star_within; eassumption.
  - destruct (max_is_zero max); [exists x; auto|].
    apply Hm in H as (y & Hy & H); [|apply within_clear; exact Hx].
    eapply IH; eassumption.
Qed.

Lemma compile_within fl s : forall r, stays_within s (compile fl r).
Proof.
  induction r as [| a | | neg items | r1 IH1 r2 IH2 | r1 IH1 r2 IH2
                  | r IH min max greedy | i r IH | r IH | | ];
    intros x c z Hx H; cbn [compile] in H.
  - exists x. auto.
  - eapply char_matcher_within; eassumption.
  - eapply char_matcher_within; eassumption.
  - eapply char_matcher_within; eassumption.
  - apply (IH1 _ _ _ Hx) in H as (y & Hy & H). eapply IH2; eassumption.
  - destruct (compile fl r1 x c) as [z'|] eqn:E.
    + injection H as <-. eapply IH1; eassumption.
    + eapply IH2; eassumption.
  - eapply repeat_min_within; eassumption.
  - apply (IH _ _ _ Hx) in H as (y & Hy & H). eexists. split; [|exact H].
    destruct Hy as [Hr Hc]. split; [exact Hr|].
    intros t Ht. cbn [set_cap ms_caps] in Ht.
    apply in_set_nth in Ht as [->|Ht]; [|exact (Hc _ Ht)].
    apply part_of_firstn. exact (proj1 Hx).
  - destruct (compile fl r x (fun y => Some y)) as [y|] eqn:E; [|discriminate].
    apply (IH _ _ _ Hx) in E as (y' & Hy' & [= <-]). eexists. split; [|exact H].
    split; [exact (proj1 Hx)|exact (proj2 Hy')].
  - destruct (ms_pos x =? 0); [|discriminate]. exists x. auto.
  - destruct (ms_rest x); [|discriminate]. exists x. auto.
Qed.

(** The text and the groups of a match are parts of the input. *)
Lemma match_at_parts fl r s pos rest res :
  (exists a, s = a ++ rest) -> match_at fl r pos rest = Some res ->
  part_of (mr_text res) s
  /\ forall t, In (Some t) (mr_groups res) -> part_of t s.
Proof.
  intros Hr. unfold match_at.
  destruct (compile fl r _ _) as [y|] eqn:E; [|discriminate].
  intros [= <-]. cbn [mr_text mr_groups].
  split; [apply part_of_firstn; exact Hr|].
  apply (@compile_within fl s r) in E as (y' & Hy' & [= <-]).
  - exact (proj2 Hy').
  - split; [exact Hr|]. cbn [ms_caps]. intros t Ht. apply repeat_spec in Ht.
    discriminate.
Qed.

Lemma exec_from_parts fl r s : forall rest pos res,
  (exists a, s = a ++ rest) -> exec_from fl r pos rest = Some res ->
  part_of (mr_text res) s
  /\ forall t, In (Some t) (mr_groups res) -> part_of t s.
Proof.
  induction rest as [|ch rest IH]; intros pos res Hr; cbn [exec_from].
  - destruct (match_at fl r pos []) eqn:E; [|discriminate].
    intros [= <-]. exact (@match_at_parts _ _ _ _ _ _ Hr E).
  - destruct (match_at fl r pos (ch :: rest)) eqn:E.
    + intros [= <-]. exact (@match_at_parts _ _ _ _ _ _ Hr E).
    + apply IH. destruct Hr as (a & ->). exists (a ++ [ch]).
      rewrite <- app_assoc. reflexivity.
Qed.

Lemma all_from_parts fl r s : forall rest pos skip res,
  (exists a, s = a ++ rest) -> In res (all_from fl r pos rest skip) ->
  part_of (mr_text res) s.
Proof.
  induction rest as [|ch rest IH]; intros pos skip res Hr Hin.
  - destruct skip; cbn [all_from] in Hin; [|destruct Hin].
    destruct (match_at fl r pos []) eqn:E; [|destruct Hin].
    destruct Hin as [<-|[]]. exact (proj1 (@match_at_parts _ _ _ _ _ _ Hr E)).
  - assert (Hr' : exists a, s = a ++ rest).
    { destruct Hr as (a & ->). exists (a ++ [ch]). rewrite <- app_assoc.
      reflexivity. }
    destruct skip; cbn [all_from] in Hin; [|exact (IH _ _ _ Hr' Hin)].
    destruct (match_at fl r pos (ch :: rest)) eqn:E.
    + destruct Hin as [<-|Hin]; [exact (proj1 (@match_at_parts _ _ _ _ _ _ Hr E))|].
      exact (IH _ _ _ Hr' Hin).
    + exact (IH _ _ _ Hr' Hin).
Qed.

(** Every candidate of a scan is a part of the page. *)
Lemma scan_candidates_parts html p l raw :
  scan_candidates html p = Some l -> In (JStr raw) l -> part_of raw html.
Proof.
  assert (H0 : exists a, html = a ++ html) by (exists []; reflexivity).
  unfold scan_candidates. destruct (sp_global p).
  - unfold match_global, matchAll.
    destruct (all_from (sp_flags p) (sp_regex p) 0 html 0) as [|m l0] eqn:E;
      [discriminate|].
    intros [= <-] Hin.
    assert (Hres : exists res, In res (m :: l0) /\ mr_text res = raw).
    { cbn [map] in Hin. destruct Hin as [[= <-]|Hin].
      - exists m. split; [left|]; reflexivity.
      - rewrite map_map in Hin. apply in_map_iff in Hin as (res & [= <-] & Hin).
        exists res. split; [right; exact Hin|reflexivity]. }
    destruct Hres as (res & Hin' & <-). rewrite <- E in Hin'.
    exact (@all_from_parts _ _ _ _ _ _ _ H0 Hin').
  - destruct (exec (sp_flags p) (sp_regex p) html) as [m|] eqn:E; [|discriminate].
    intros [= <-] Hin.
    destruct (@exec_from_parts _ _ _ _ _ _ H0 E) as [Ht Hg].
    destruct Hin as [[= <-]|Hin]; [exact Ht|].
    apply in_map_iff in Hin as ([t|] & Heq & Hin); [|discriminate].
    injection Heq as ->. exact (Hg _ Hin).
Qed.

(** *** The two scans of the markup *)

Lemma plausible_lyrics_inv c raw : plausible_lyrics c = Some raw ->
  c = JStr raw /\ 20 < length raw
  /\ (includes raw (lit "[Verse") || includes raw (lit "[Chorus")
      || includes raw (lit (bs ++ "n")) || (2 <? split_count raw 10)) = true.
Proof.
  destruct c; try discriminate. cbn [plausible_lyrics].
  destruct (20 <? length s) eqn:E1; cbn [andb]; [|discriminate].
  destruct (_ || _) eqn:E2; [|discriminate].
  intros [= <-]. apply Nat.ltb_lt in E1. auto.
Qed.

Lemma plausible_style_inv c raw : plausible_style c = Some raw ->
  c = JStr raw /\ 2 < length raw.
Proof.
  destruct c; try discriminate. cbn [plausible_style].
  destruct (2 <? length s) eqn:E1; [|discriminate].
  intros [= <-]. apply Nat.ltb_lt in E1. auto.
Qed.

(** What the loop over the lyrics patterns leaves in [lyrics]: the
    value it began with, or the decoding of a candidate that passed. *)
Lemma scan_lyrics_cases html (P : jsval -> Prop) :
  (forall raw l p, scan_candidates html p = Some l ->
                   first_some plausible_lyrics l = Some raw ->
                   P (JStr (decode_lyrics raw))) ->
  forall patterns v, P v -> P (scan_lyrics html patterns v).
Proof.
  intros HP. induction patterns as [|p rest IH]; intros v Hv; [exact Hv|].
  cbn [scan_lyrics]. destruct (scan_candidates html p) as [l|] eqn:E;
    [|exact (IH v Hv)].
  destruct (first_some plausible_lyrics l) as [raw|] eqn:F.
  - pose proof (HP _ _ _ E F) as Hn.
    destruct (truthy (JStr (decode_lyrics raw))); [exact Hn|exact (IH _ Hn)].
  - destruct (truthy v); [exact Hv|exact (IH v Hv)].
Qed.

Lemma scan_styles_cases html (P : jsval -> Prop) :
  (forall raw l p, scan_candidates html p = Some l ->
                   first_some plausible_style l = Some raw ->
                   P (JStr (trim (replace_all no_flags re_esc_quote [dq] raw)))) ->
  forall patterns v, P v -> P (scan_styles html patterns v).
Proof.
  intros HP. induction patterns as [|p rest IH]; intros v Hv; [exact Hv|].
  cbn [scan_styles]. destruct (scan_candidates html p) as [l|] eqn:E;
    [|exact (IH v Hv)].
  destruct (first_some plausible_style l) as [raw|] eqn:F.
  - pose proof (HP _ _ _ E F) as Hn.
    destruct (truthy (JStr _)); [exact Hn|exact (IH _ Hn)].
  - destruct (truthy v); [exact Hv|exact (IH v Hv)].
Qed.

(** X14.  Lyrics that the scan of the markup assigns are the decoding
    of a part of the page that has more than 20 code units and holds a
    verse or chorus marker, an escaped newline or at least three lines;
    otherwise the scan leaves the lyrics as they were. *)
Theorem scanned_lyrics_gate (html : jstring) (v : jsval) :
  lyrics_step html v = v
  \/ exists raw,
       lyrics_step html v = JStr (decode_lyrics raw)
       /\ part_of raw html /\ 20 < length raw
       /\ (includes raw (lit "[Verse") || includes raw (lit "[Chorus")
           || includes raw (lit (bs ++ "n")) || (2 <? split_count raw 10)) = true.
Proof.
  unfold lyrics_step. destruct (negb (truthy v)); [|left; reflexivity].
  apply (@scan_lyrics_cases html (fun w =>
           w = v \/ exists raw, w = JStr (decode_lyrics raw)
                      /\ part_of raw html /\ 20 < length raw
                      /\ (includes raw (lit "[Verse") || includes raw (lit "[Chorus")
                          || includes raw (lit (bs ++ "n"))
                          || (2 <? split_count raw 10)) = true));
    [|left; reflexivity].
  intros raw l p Hc Hf. right. exists raw.
  apply first_some_in in Hf as (c & Hin & Hp).
  apply plausible_lyrics_inv in Hp as (-> & Hlen & Hmark).
  split; [reflexivity|]. split; [exact (@scan_candidates_parts _ _ _ _ Hc Hin)|].
  split; [exact Hlen|exact Hmark].
Qed.

(** *** The styles found in the markup *)

(** An alternation of literals matches with one of them at the head of
    the input. *)
Lemma alt_literals fl : forall ws x c z,
  compile fl (alt (map (fun w => seq (map RChar w)) ws)) x c = Some z ->
  ws <> [] ->
  exists w, In w ws /\ prefix_fl fl (ms_rest x) w = true
            /\ c (advance_by x (length w)) = Some z.
Proof.
  induction ws as [|w ws IH]; intros x c z H Hne; [congruence|].
  destruct ws as [|w' ws].
  - cbn [map alt] in H. rewrite compile_chars_fl in H.
    destruct (prefix_fl fl (ms_rest x) w) eqn:E; [|discriminate].
    exists w. split; [left; reflexivity|]. auto.
  - change (alt (map (fun w => seq (map RChar w)) (w :: w' :: ws)))
      with (RAlt (seq (map RChar w))
                 (alt (map (fun w => seq (map RChar w)) (w' :: ws)))) in H.
    cbn [compile] in H. rewrite compile_chars_fl in H.
    destruct (prefix_fl fl (ms_rest x) w) eqn:E.
    + destruct (c (advance_by x (length w))) as [z'|] eqn:Ec.
      * injection H as <-. exists w. split; [left; reflexivity|]. auto.
      * destruct (IH x c z H ltac:(discriminate)) as (w0 & Hin & Hw).
        exists w0. split; [right; exact Hin|exact Hw].
    + destruct (IH x c z H ltac:(discriminate)) as (w0 & Hin & Hw).
      exists w0. split; [right; exact Hin|exact Hw].
Qed.

Lemma genre_shape : genre = alt (map (fun w => seq (map RChar w)) (map lit genres)).
Proof. reflexivity. Qed.

(** A match of the genre pattern captures one of the genre words, in
    the case the input writes it. *)
Lemma match_at_genre pos rest res :
  match_at flag_i re_genre pos rest = Some res ->
  exists g w, group res 1 = JStr g /\ In w genres /\ map lower g = lit w.
Proof.
  unfold match_at, re_genre. cbn [compile]. rewrite genre_shape.
  destruct (compile flag_i _ _ _) as [y|] eqn:E; [|discriminate].
  intros [= <-].
  apply alt_literals in E as (w & Hin & Hp & Hc); [|discriminate].
  cbn [ms_rest advance_by ms_pos ms_caps set_cap] in Hc. injection Hc as <-.
  apply in_map_iff in Hin as (name & <- & Hname).
  exists (firstn (length (lit name)) rest), name.
  split; [|split; [exact Hname|]].
  - unfold group. cbn [mr_groups ms_caps pred nth].
    replace (length (lit name) + pos - pos) with (length (lit name)) by lia.
    reflexivity.
  - assert (Hlow : forallb (fun a => negb (is_upper a)) (lit name) = true).
    { assert (Hall : forallb (fun n => forallb (fun a => negb (is_upper a)) (lit n))
                       genres = true) by reflexivity.
      rewrite forallb_forall in Hall. exact (Hall _ Hname). }
    cbn [ms_rest] in Hp. rewrite (prefix_fl_lower _ _ Hlow) in Hp.
    apply startsWith_split in Hp. rewrite <- firstn_map, Hp.
    apply firstn_app_exact.
Qed.

Lemma exec_from_genre : forall rest pos res,
  exec_from flag_i re_genre pos rest = Some res ->
  exists g w, group res 1 = JStr g /\ In w genres /\ map lower g = lit w.
Proof.
  induction rest as [|ch rest IH]; intros pos res; cbn [exec_from].
  - destruct (match_at flag_i re_genre pos []) eqn:E; [|discriminate].
    intros [= <-]. exact (match_at_genre _ _ E).
  - destruct (match_at flag_i re_genre pos (ch :: rest)) eqn:E.
    + intros [= <-]. exact (match_at_genre _ _ E).
    + apply IH.
Qed.

Lemma group_part fl r s i res t :
  exec fl r s = Some res -> group res i = JStr t -> part_of t s.
Proof.
  intros E G.
  assert (H0 : exists a, s = a ++ s) by (exists []; reflexivity).
  destruct (@exec_from_parts _ _ _ _ _ _ H0 E) as [_ Hg].
  apply Hg. unfold group in G.
  destruct (nth (pred i) (mr_groups res) None) as [t'|] eqn:N; [|discriminate].
  injection G as <-. rewrite <- N.
  apply nth_In. destruct (Nat.lt_ge_cases (pred i) (length (mr_groups res)))
    as [Hlt|Hge]; [exact Hlt|].
  rewrite nth_overflow in N by exact Hge. discriminate.
Qed.

(** What the look into the description leaves in [styles]. *)
Lemma meta_genre_cases html v :
  meta_genre_step html v = v
  \/ exists g w, meta_genre_step html v = JStr g
                 /\ In w genres /\ map lower g = lit w /\ part_of g html.
Proof.
  unfold meta_genre_step. destruct (negb (truthy v)); [|left; reflexivity].
  destruct (exec no_flags re_meta_desc html) as [m|] eqn:E; [|left; reflexivity].
  destruct (group m 1) as [| | | |desc| |] eqn:G; try (left; reflexivity).
  destruct desc as [|d desc]; [left; reflexivity|].
  destruct (exec flag_i re_genre (d :: desc)) as [gm|] eqn:E2; [|left; reflexivity].
  right. destruct (exec_from_genre _ _ E2) as (g & w & Hg & Hw & Hl).
  exists g, w. split; [exact Hg|]. split; [exact Hw|]. split; [exact Hl|].
  apply (part_of_trans (b := d :: desc)).
  - exact (group_part _ _ _ _ E2 Hg).
  - exact (group_part _ _ _ _ E G).
Qed.

(** X15.  The styles the scans of the markup assign: the trimmed text,
    escaped quotes undone, of a part of the page that has more than 2
    code units; or a part of the page that is one of the genre words up
    to the case of its letters, from the description; otherwise the
    styles are left as they were. *)
Theorem scanned_styles_gate (html : jstring) (v : jsval) :
  styles_step html v = v
  \/ (exists raw,
        styles_step html v
        = JStr (trim (replace_all no_flags re_esc_quote [dq] raw))
        /\ part_of raw html /\ 2 < length raw)
  \/ (exists g w,
        styles_step html v = JStr g
        /\ In w genres /\ map lower g = lit w /\ part_of g html).
Proof.
  unfold styles_step. destruct (negb (truthy v)); [|left; reflexivity].
  pose proof (@scan_styles_cases html (fun s =>
                s = v \/ exists raw,
                  s = JStr (trim (replace_all no_flags re_esc_quote [dq] raw))
                  /\ part_of raw html /\ 2 < length raw)) as Hscan.
  specialize (Hscan ltac:(
    intros raw l p Hc Hf; right; exists raw;
    apply first_some_in in Hf as (c & Hin & Hp);
    apply plausible_style_inv in Hp as (-> & Hlen);
    split; [reflexivity|];
    split; [exact (@scan_candidates_parts _ _ _ _ Hc Hin)|exact Hlen])
    styles_patterns v (or_introl eq_refl)).
  destruct (meta_genre_cases html (scan_styles html styles_patterns v))
    as [-> | (g & w & -> & H)].
  - destruct Hscan as [->|Hscan]; [left; reflexivity|right; left; exact Hscan].
  - right. right. exists g, w. split; [reflexivity|exact H].
Qed.

(** *** The legacy payload in [/parse] *)

(** A group of a lazy star over a class, followed by a literal,
    captures the text up to the first place where the literal begins. *)
Lemma group_lazy_class_until fl i negated items L body tail x c z :
  ignoreCase fl = false ->
  ms_rest x = body ++ L ++ tail ->
  forallb (class_ok fl negated items) body = true ->
  (forall j, j < length body -> startsWith (skipn j (body ++ L ++ tail)) L = false) ->
  c {| ms_rest := tail;
       ms_pos := length L + (length body + ms_pos x);
       ms_caps := set_nth (pred i) (Some body) (ms_caps x) |} = Some z ->
  compile fl (RSeq (RGroup i (star_lazy (RClass negated items)))
                   (seq (map RChar L))) x c
  = Some z.
Proof.
  intros Hfl Hx Hok Hno Hz.
  change (compile fl (RGroup i (star_lazy (RClass negated items))) x
            (fun y => compile fl (seq (map RChar L)) y c) = Some z).
  unfold star_lazy. cbn [compile repeat_min groups].
  rewrite repeat_star_lazy_run by lia. rewrite Hx.
  set (k := fun y : mstate => compile fl (seq (map RChar L)) _ c).
  assert (Hk : forall j, j <= length body ->
            k (advance_by x j)
            = if startsWith (skipn j (body ++ L ++ tail)) L
              then c (advance_by
                        (set_cap i (Some (firstn j (body ++ L ++ tail)))
                           (advance_by x j)) (length L))
              else None).
  { intros j Hj. unfold k. rewrite compile_chars by exact Hfl.
    cbn [set_cap advance_by ms_rest ms_pos ms_caps]. rewrite Hx.
    replace (j + ms_pos x - ms_pos x) with j by lia. reflexivity. }
  apply lazy_run_until; [exact Hx | exact Hok | |].
  - intros j Hj. rewrite Hk by lia. rewrite Hno by exact Hj. reflexivity.
  - rewrite Hk by lia. rewrite skipn_app_exact, startsWith_app.
    rewrite firstn_app_exact. rewrite <- Hz. f_equal.
    unfold advance_by, set_cap. cbn [ms_rest ms_pos ms_caps].
    rewrite Hx, skipn_app_exact, skipn_app_exact. reflexivity.
Qed.

Lemma re_script_body_shape :
  re_script_body
  = RSeq (seq (map RChar (lit "<script")))
      (RSeq (star (RClass true [CChar 62%N]))
         (RSeq (seq (map RChar (lit ">")))
            (RSeq (RGroup 1 (star_lazy (RClass false [CSpace; CNonSpace])))
                  (seq (map RChar script_close))))).
Proof. reflexivity. Qed.

(** The pattern that reads the content of one script, on a script
    element. *)
Lemma exec_script_body attrs body :
  forallb not_gt attrs = true -> no_lt body = true ->
  exec no_flags re_script_body (script_element attrs body)
  = Some {| mr_index := 0;
            mr_text := script_element attrs body;
            mr_groups := [Some body] |}.
Proof.
  intros Hattrs Hlt. unfold exec. rewrite exec_from_unfold.
  replace (match_at no_flags re_script_body 0 (script_element attrs body))
    with (Some {| mr_index := 0; mr_text := script_element attrs body;
                  mr_groups := [Some body] |}); [reflexivity|].
  symmetry. unfold match_at. rewrite re_script_body_shape.
  rewrite compile_seq, compile_chars by reflexivity.
  cbn [ms_rest]. unfold script_element.
  rewrite startsWith_app, advance_by_app.
  rewrite compile_seq, star_class_greedy.
  rewrite (greedy_run_ext _ not_gt _ (fun ch => not_gt_class_any no_flags ch eq_refl)).
  cbn [ms_rest].
  replace (attrs ++ lit ">" ++ body ++ script_close)
    with (attrs ++ 62%N :: body ++ script_close ++ []) at 1 2
    by (rewrite app_nil_r; reflexivity).
  erewrite (@greedy_run_first not_gt _ attrs 62%N (body ++ script_close ++ []));
    [ | reflexivity | exact Hattrs | reflexivity | ].
  2:{ rewrite compile_seq, compile_chars by reflexivity.
      change (attrs ++ 62%N :: body ++ script_close ++ [])
        with (attrs ++ lit ">" ++ body ++ script_close ++ []).
      rewrite advance_by_app. cbn [ms_rest]. rewrite startsWith_app, advance_by_app.
      apply group_lazy_class_until with (body := body) (tail := []);
        [ reflexivity
        | reflexivity
        | apply forallb_forall; intros ch _; unfold class_ok, class_mem;
          cbn [existsb item_mem xorb ignoreCase no_flags andb];
          destruct (is_space ch); reflexivity
        | intros j Hj; apply (@no_lt_no_start _ (script_close ++ []) j body Hlt Hj)
        | reflexivity ]. }
  cbn [ms_pos ms_caps set_nth pred ngroups]. f_equal. f_equal.
  match goal with |- firstn ?n _ = _ =>
    replace n with (length (lit "<script" ++ attrs ++ lit ">" ++ body ++ script_close))
      by (rewrite !length_app; cbn [length]; lia) end.
  apply firstn_all.
Qed.

Section Legacy.
Variable Number_toString : number -> jstring.
Variable matchAll_of_pattern : jstring -> jstring -> option (list match_result).

Local Abbreviation resolve := (resolve Number_toString matchAll_of_pattern).
Local Abbreviation parse_page := (parse_page Number_toString matchAll_of_pattern).
Local Abbreviation assemble := (assemble Number_toString).

(** A field that the song gives is the field the resolver returns. *)
Lemma resolve_keeps html loc f :
  resolve html loc = Ok f ->
  let f0 := fields_of_song (songData loc) in
  (truthy (title f0) = true -> title f = title f0)
  /\ (truthy (artist f0) = true -> artist f = artist f0)
  /\ (truthy (lyrics f0) = true -> lyrics f = lyrics f0)
  /\ (truthy (styles f0) = true -> styles f = styles f0).
Proof.
  cbv zeta. unfold Server.resolve.
  remember (fields_of_song (songData loc)) as f0 eqn:Ef0.
  destruct (negative_tags_step Number_toString (songData loc) (styles f0))
    as [s1|e] eqn:E1; cbn [bind]; [|discriminate].
  destruct (page_props_step (nextData loc) (lyrics f0) s1) as [l1 s2] eqn:E2.
  pose proof (prompt_ref_dead matchAll_of_pattern html (songData loc)
                (nextData loc) s1) as Hd.
  cbv zeta in Hd. rewrite <- Ef0, E2 in Hd. cbn [fst] in Hd.
  rewrite Hd. cbn [bind].
  destruct (title_step html (title f0)) as [t1|e] eqn:E3; cbn [bind];
    [|discriminate].
  intros [= <-]. cbn [title artist lyrics styles].
  assert (Hl : truthy (lyrics f0) = true -> l1 = lyrics f0).
  { intros T. unfold page_props_step in E2.
    destruct (_ && _); injection E2 as <- _; [|reflexivity].
    rewrite (@truthy_or_l (lyrics f0) _ T). rewrite (@truthy_or_l (lyrics f0) _ T).
    reflexivity. }
  assert (Hs : truthy (styles f0) = true -> s2 = styles f0).
  { intros T. unfold negative_tags_step in E1. rewrite T in E1.
    cbn [negb andb] in E1. injection E1 as <-.
    unfold page_props_step in E2.
    destruct (_ && _); injection E2 as _ <-; [|reflexivity].
    apply truthy_or_l. exact T. }
  split; [intros T; destruct (scans_keep_resolved html _ T) as (H & _);
          rewrite H in E3; congruence|].
  split; [intros T; exact (proj1 (proj2 (scans_keep_resolved html _ T)))|].
  split.
  - intros T. rewrite (Hl T).
    exact (proj1 (proj2 (proj2 (scans_keep_resolved html _ T)))).
  - intros T. rewrite (Hs T).
    exact (proj2 (proj2 (proj2 (scans_keep_resolved html _ T)))).
Qed.

(** X16.  A field that the song the strategies found gives is the
    field of the reply, cleaned: neither the song of the page
    properties nor the scans of the markup replace it. *)
Theorem song_fields_win (url html : jstring) (loc : located) (r : parse_record) :
  locate html = Ok loc -> parse_page url html = Ok r ->
  let f0 := fields_of_song (songData loc) in
  (truthy (title f0) = true -> clean (title f0) = Ok (r_title r))
  /\ (truthy (artist f0) = true -> clean (artist f0) = Ok (r_artist r))
  /\ (truthy (lyrics f0) = true -> clean (lyrics f0) = Ok (r_lyrics r))
  /\ (truthy (styles f0) = true -> clean (styles f0) = Ok (r_styles r)).
Proof.
  intros Hl Hp. cbv zeta.
  destruct (parse_page_inv Number_toString matchAll_of_pattern url html Hp)
    as (loc' & f & Hl' & Hr & Ha).
  assert (loc' = loc) by congruence. subst loc'.
  destruct (assemble_inv Number_toString url html loc f Ha)
    as (C1 & C2 & C3 & C4 & _).
  destruct (@resolve_keeps html loc f Hr) as (K1 & K2 & K3 & K4).
  repeat split; intros T.
  - rewrite <- (K1 T). exact C1.
  - rewrite <- (K2 T). exact C2.
  - rewrite <- (K3 T). exact C3.
  - rewrite <- (K4 T). exact C4.
Qed.

(** A field that the song lacks, when the song is the one of the page
    properties: only the step written for that field can fill it. *)
Lemma resolve_lacks html loc f :
  resolve html loc = Ok f ->
  songData loc = page_song (nextData loc) -> truthy (songData loc) = true ->
  let song := songData loc in
  let f0 := fields_of_song song in
  let negTags := get (get song "metadata") "negative_tags" in
  (truthy (title f0) = false -> title_step html JNull = Ok (title f))
  /\ (truthy (artist f0) = false -> artist f = artist_step html JNull)
  /\ (truthy (lyrics f0) = false ->
      lyrics f = lyrics_step html (get song "gpt_description_prompt"))
  /\ (truthy (styles f0) = false ->
      (forall t, negTags = JStr t -> t <> [] ->
         styles f = JStr (lit "NOT: " ++ t))
      /\ (truthy negTags = false ->
          styles f = styles_step html (get (get song "metadata") "tags"))).
Proof.
  intros Hr Hsd Hsong. cbv zeta.
  assert (Hnull : forall a, truthy (or_ a JNull) = false ->
                            or_ a JNull = JNull /\ truthy a = false).
  { intros a. unfold or_. destruct (truthy a) eqn:E; [congruence|auto]. }
  assert (Hprops : truthy (get (get (nextData loc) "props") "pageProps")
                   && truthy (get (get (get (nextData loc) "props") "pageProps")
                                "song") = true).
  { fold (page_song (nextData loc)). rewrite <- Hsd, Hsong, andb_true_r.
    destruct (truthy (get (get (nextData loc) "props") "pageProps")) eqn:E;
      [reflexivity|].
    rewrite Hsd in Hsong. unfold page_song in Hsong.
    rewrite (get_of_falsy _ "song" E) in Hsong. discriminate Hsong. }
  revert Hr. unfold Server.resolve.
  remember (fields_of_song (songData loc)) as f0 eqn:Ef0.
  destruct (negative_tags_step Number_toString (songData loc) (styles f0))
    as [s1|e] eqn:E1; cbn [bind]; [|discriminate].
  destruct (page_props_step (nextData loc) (lyrics f0) s1) as [l1 s2] eqn:E2.
  pose proof (prompt_ref_dead matchAll_of_pattern html (songData loc)
                (nextData loc) s1) as Hd.
  cbv zeta in Hd. rewrite <- Ef0, E2 in Hd. cbn [fst] in Hd.
  rewrite Hd. cbn [bind].
  destruct (title_step html (title f0)) as [t1|e] eqn:E3; cbn [bind];
    [|discriminate].
  intros [= <-]. cbn [title artist lyrics styles].
  unfold page_props_step in E2. rewrite Hprops in E2.
  fold (page_song (nextData loc)) in E2. rewrite <- Hsd in E2.
  injection E2 as El Es.
  subst f0. cbn [fields_of_song title artist lyrics styles] in *.
  split; [|split; [|split]].
  - intros T. destruct (Hnull _ T) as [E _]. rewrite E in E3. exact E3.
  - intros T. destruct (Hnull _ T) as [E _]. rewrite E. reflexivity.
  - intros T. destruct (Hnull _ T) as [E T1]. rewrite E in El.
    rewrite truthy_or in T1. apply orb_false_iff in T1 as [Tp Tg].
    subst l1. unfold or_ at 2. cbn [truthy]. unfold or_. rewrite Tp.
    reflexivity.
  - intros T. destruct (Hnull _ T) as [E _]. rewrite E in E1.
    unfold negative_tags_step in E1. cbn [truthy negb andb] in E1.
    split.
    + intros t Ht Hne. rewrite Ht in E1.
      destruct t as [|c t]; [congruence|]. cbn [truthy ToString] in E1.
      injection E1 as <-. subst s2. unfold or_. cbn [truthy app lit].
      unfold styles_step.
      match goal with |- (if negb (truthy ?v) then _ else _) = _ =>
        assert (Hv : truthy v = true) by reflexivity; rewrite Hv end.
      reflexivity.
    + intros Tn. rewrite Tn in E1. injection E1 as <-. subst s2.
      unfold or_ at 1. cbn [truthy]. reflexivity.
Qed.

(** The three strategies on a page whose only script is the legacy
    one, when the parsed document is not itself taken for a song. *)
Lemma locate_legacy pre body post nd :
  no_script pre = true -> no_script post = true ->
  forallb (dot_ok no_flags) body = true -> no_lt body = true ->
  JSON_parse body = Some nd ->
  truthy (or_ (or_ (get nd "title") (get nd "display_name"))
              (get nd "metadata")) = false ->
  truthy (page_song nd) = true ->
  exists loc,
    locate (pre ++ script_element next_data_attrs body ++ post) = Ok loc
    /\ songData loc = page_song nd /\ nextData loc = nd.
Proof.
  intros Hpre Hpost Hdot Hlt Hparse Hdoc Hsong.
  unfold locate. rewrite (exec_next_data pre body post Hpre Hdot Hlt).
  unfold from_next_data. cbn [group mr_groups nth pred as_string].
  rewrite Hparse.
  fold (page_song nd).
  rewrite (@truthy_or_l (page_song nd) _ Hsong).
  rewrite (@truthy_or_l (page_song nd) _ Hsong).
  rewrite Hsong. cbn [negb].
  rewrite (scripts_of_single pre next_data_attrs body post Hpre Hpost
             ltac:(reflexivity) Hlt).
  cbn [from_scripts].
  rewrite (exec_script_body next_data_attrs body ltac:(reflexivity) Hlt).
  cbn [group mr_groups nth pred as_string bind].
  assert (Hlike : song_like body = None).
  { unfold song_like. rewrite Hparse. destruct (nullish nd); [reflexivity|].
    rewrite Hdoc. reflexivity. }
  rewrite Hlike. destruct (startsWith (trim body) (lit "{")); cbn [bind];
    eexists; (split; [reflexivity|split; reflexivity]).
Qed.

(** X17.  A page whose only script is the legacy one, with a document
    that parses, is not itself taken for a song and has a song in its
    page properties whose fields are texts.  The reply carries each
    field that this song has, cleaned, and its audio address.  A field
    that the song lacks is filled by the step written for that field and
    by nothing else: the title and the artist by the patterns of the
    markup, the lyrics by the scan of the page, the styles by the
    negative tags of the song when they are a text and by the scan of
    the page otherwise. *)
Theorem parse_legacy_song (url pre body post : jstring) (nd : jsval) :
  no_script pre = true -> no_script post = true ->
  forallb (dot_ok no_flags) body = true -> no_lt body = true ->
  JSON_parse body = Some nd ->
  truthy (or_ (or_ (get nd "title") (get nd "display_name"))
              (get nd "metadata")) = false ->
  truthy (page_song nd) = true ->
  forallb text_or_absent (fields_read (page_song nd)) = true ->
  let f0 := fields_of_song (page_song nd) in
  exists r,
    parse_page url (pre ++ script_element next_data_attrs body ++ post) = Ok r
    /\ (truthy (title f0) = true -> clean (title f0) = Ok (r_title r))
    /\ (truthy (artist f0) = true -> clean (artist f0) = Ok (r_artist r))
    /\ (truthy (lyrics f0) = true -> clean (lyrics f0) = Ok (r_lyrics r))
    /\ (truthy (styles f0) = true -> clean (styles f0) = Ok (r_styles r))
    /\ r_audio_url r = or_ (get (page_song nd) "audio_url") JNull
    /\ (truthy (title f0) = false ->
        exists w, title_step (pre ++ script_element next_data_attrs body ++ post)
                    JNull = Ok w
                  /\ clean w = Ok (r_title r))
    /\ (truthy (artist f0) = false ->
        clean (artist_step (pre ++ script_element next_data_attrs body ++ post)
                 JNull) = Ok (r_artist r))
    /\ (truthy (lyrics f0) = false ->
        clean (lyrics_step (pre ++ script_element next_data_attrs body ++ post)
                 (get (page_song nd) "gpt_description_prompt"))
        = Ok (r_lyrics r))
    /\ (truthy (styles f0) = false ->
        (forall t, get (get (page_song nd) "metadata") "negative_tags" = JStr t ->
           t <> [] -> clean (JStr (lit "NOT: " ++ t)) = Ok (r_styles r))
        /\ (truthy (get (get (page_song nd) "metadata") "negative_tags") = false ->
            clean (styles_step
                     (pre ++ script_element next_data_attrs body ++ post)
                     (get (get (page_song nd) "metadata") "tags"))
            = Ok (r_styles r))).
Proof.
  intros Hpre Hpost Hdot Hlt Hparse Hdoc Hsong Htexts. cbv zeta.
  destruct (@locate_legacy pre body post nd Hpre Hpost Hdot Hlt Hparse Hdoc Hsong)
    as (loc & Hloc & Hsd & Hnd).
  set (page := pre ++ script_element next_data_attrs body ++ post) in *.
  assert (Hn : forallb text_or_absent
                 (page_fields_read (page_song (nextData loc))) = true).
  { rewrite Hnd. cbn [fields_read forallb] in Htexts.
    repeat (apply andb_prop in Htexts as [? Htexts]).
    cbn [page_fields_read forallb].
    repeat (apply andb_true_intro; split); auto. }
  rewrite <- Hsd in Htexts.
  destruct (resolve_texts Number_toString matchAll_of_pattern page loc Htexts Hn)
    as (f & Hf & T1 & T2 & T3 & T4).
  destruct (assemble_texts Number_toString url page loc f T1 T2 T3 T4) as [r Hr].
  assert (Hp : parse_page url page = Ok r).
  { unfold Server.parse_page. rewrite Hloc. cbn [bind]. rewrite Hf. cbn [bind].
    exact Hr. }
  exists r. split; [exact Hp|].
  destruct (assemble_inv Number_toString url page loc f Hr)
    as (C1 & C2 & C3 & C4 & C5).
  destruct (@resolve_keeps page loc f Hf) as (K1 & K2 & K3 & K4).
  assert (Hsd' : songData loc = page_song (nextData loc)) by congruence.
  assert (Hsong' : truthy (songData loc) = true) by congruence.
  destruct (@resolve_lacks page loc f Hf Hsd' Hsong') as (L1 & L2 & L3 & L4).
  rewrite Hsd in K1, K2, K3, K4, C5, L1, L2, L3, L4.
  split; [intros T; rewrite <- (K1 T); exact C1|].
  split; [intros T; rewrite <- (K2 T); exact C2|].
  split; [intros T; rewrite <- (K3 T); exact C3|].
  split; [intros T; rewrite <- (K4 T); exact C4|].
  split; [exact C5|].
  split; [intros T; exists (title f); split; [exact (L1 T)|exact C1]|].
  split; [intros T; rewrite <- (L2 T); exact C2|].
  split; [intros T; rewrite <- (L3 T); exact C3|].
  intros T. destruct (L4 T) as [N1 N2]. split.
  - intros t Ht Hne. rewrite <- (N1 t Ht Hne). exact C4.
  - intros Tn. rewrite <- (N2 Tn). exact C4.
Qed.

End Legacy.

Lemma song_fields_win_witness :
  exists loc r,
    locate page_two_titles = Ok loc
    /\ (forall nts mp, parse_page nts mp song_url page_two_titles = Ok r)
    /\ truthy (title (fields_of_song (songData loc))) = true
    /\ clean (title (fields_of_song (songData loc))) = Ok (r_title r)
    /\ r_title r = Some (lit "Generic").
Proof.
  eexists. eexists.
  assert (Hl : locate page_two_titles = Ok _) by (vm_compute; reflexivity).
  split; [exact Hl|].
  split; [intros nts mp; vm_compute; reflexivity|].
  split; [reflexivity|]. split; [|reflexivity].
  pose (nts := fun _ : number => @nil N).
  pose (mp := fun _ _ : jstring => @None (list match_result)).
  exact (proj1 (@song_fields_win nts mp song_url page_two_titles _ _ Hl
                  ltac:(vm_compute; reflexivity)) eq_refl).
Defined.

Lemma parse_legacy_song_witness :
  exists nd,
    JSON_parse scenario_a_json = Some nd
    /\ truthy (page_song nd) = true
    /\ forall nts mp, exists r,
         parse_page nts mp song_url
           (scenario_a_page (lit "<html>") (lit "<p>by someone</p>")) = Ok r
         /\ r_title r = Some (lit "T") /\ r_lyrics r = Some (lit "P").
Proof.
  eexists.
  assert (Hp : JSON_parse scenario_a_json = Some _) by (vm_compute; reflexivity).
  split; [exact Hp|]. split; [reflexivity|].
  intros nts mp.
  destruct (@parse_legacy_song nts mp song_url (lit "<html>") scenario_a_json
              (lit "<p>by someone</p>") _
              ltac:(vm_compute; reflexivity) ltac:(vm_compute; reflexivity)
              ltac:(vm_compute; reflexivity) ltac:(vm_compute; reflexivity)
              Hp eq_refl eq_refl eq_refl)
    as (r & Hr & H1 & _ & H3 & _).
  exists r. split; [exact Hr|].
  specialize (H1 eq_refl). specialize (H3 eq_refl).
  match type of H1 with
  | ?a = _ => assert (E1 : a = Ok (Some (lit "T"))) by (vm_compute; reflexivity)
  end.
  match type of H3 with
  | ?a = _ => assert (E3 : a = Ok (Some (lit "P"))) by (vm_compute; reflexivity)
  end.
  split; congruence.
Defined.

(** *** The title from the [title] element *)

Lemma no_overlap_tail rest : forall l s,
  forallb (fun c => negb (N.eqb c 60)) l = true ->
  startsWith s l = false -> startsWith (s ++ 60%N :: rest) l = false.
Proof.
  induction l as [|b l IH]; intros s Hl H; [discriminate H|].
  cbn [forallb] in Hl. apply andb_prop in Hl as [Hb Hl].
  apply negb_true_iff in Hb.
  rewrite startsWith_cons in H |- *. destruct s as [|c s]; cbn [app].
  - rewrite Hb. reflexivity.
  - destruct (N.eqb b c); [|reflexivity]. cbn [andb] in H |- *.
    exact (IH s Hl H).
Qed.

(** A literal that begins with [<] and holds no other [<] does not
    begin inside a text and end after it. *)
Lemma no_overlap l s rest :
  forallb (fun c => negb (N.eqb c 60)) l = true ->
  s <> [] -> startsWith s (60%N :: l) = false ->
  startsWith (s ++ 60%N :: rest) (60%N :: l) = false.
Proof.
  intros Hl Hne H. destruct s as [|c s]; [congruence|].
  rewrite startsWith_cons in H |- *. cbn [app].
  destruct (N.eqb 60 c); [|reflexivity]. cbn [andb] in H |- *.
  exact (no_overlap_tail rest l s Hl H).
Qed.

Lemma lt_class_any fl ch :
  ignoreCase fl = false ->
  class_ok fl true [CChar 60%N] ch = negb (N.eqb ch 60).
Proof.
  intros Hfl. unfold class_ok, class_mem.
  cbn [existsb item_mem]. rewrite Hfl. cbn [andb].
  rewrite !orb_false_r. rewrite N.eqb_sym. reflexivity.
Qed.

(** A group of one or more characters other than [<], followed by a
    literal that begins with [<], captures the text up to the literal. *)
Lemma group_plus_until fl i l body tail x c z :
  ignoreCase fl = false ->
  ms_rest x = body ++ (60%N :: l) ++ tail ->
  body <> [] -> no_lt body = true ->
  c {| ms_rest := tail;
       ms_pos := length (60%N :: l) + (length body + ms_pos x);
       ms_caps := set_nth (pred i) (Some body) (ms_caps x) |} = Some z ->
  compile fl (RSeq (RGroup i (plus (RClass true [CChar 60%N])))
                   (seq (map RChar (60%N :: l)))) x c
  = Some z.
Proof.
  intros Hfl Hx Hne Hlt Hz.
  destruct body as [|c0 body]; [congruence|].
  unfold no_lt in Hlt. cbn [forallb] in Hlt. apply andb_prop in Hlt as [Hc0 Hlt].
  rewrite compile_seq. unfold plus.
  cbn [compile repeat_min max_is_zero groups clear_caps fold_left dec_max
       option_map].
  unfold char_matcher at 1. rewrite Hx. cbn [app].
  rewrite (lt_class_any fl c0 Hfl), Hc0.
  rewrite repeat_star_greedy_run by (cbn [advance ms_rest]; lia).
  rewrite (greedy_run_ext _ (fun ch => negb (N.eqb ch 60)) _
             (fun ch => lt_class_any fl ch Hfl)).
  cbn [advance ms_rest].
  apply (@greedy_run_first (fun ch => negb (N.eqb ch 60)) _ body 60%N (l ++ tail));
    [reflexivity|exact Hlt|reflexivity|].
  rewrite compile_chars by exact Hfl.
  unfold advance_by, advance, set_cap. cbn [ms_rest ms_pos ms_caps].
  rewrite skipn_app_exact.
  change (60%N :: l ++ tail) with ((60%N :: l) ++ tail).
  rewrite startsWith_app, skipn_app_exact. rewrite <- Hz. f_equal.
  f_equal; [cbn [length]; lia|].
  f_equal. f_equal.
  replace (length body + S (ms_pos x) - ms_pos x) with (length (c0 :: body))
    by (cbn [length]; lia).
  change (c0 :: body ++ (60%N :: l) ++ tail)
    with ((c0 :: body) ++ (60%N :: l) ++ tail).
  apply firstn_app_exact.
Qed.

Lemma re_html_title_shape :
  re_html_title
  = RSeq (seq (map RChar (lit "<title")))
      (RSeq (star (RClass true [CChar 62%N]))
         (RSeq (seq (map RChar (lit ">")))
            (RSeq (RGroup 1 (plus (RClass true [CChar 60%N])))
                  (seq (map RChar (lit "</title>")))))).
Proof. reflexivity. Qed.

(** The pattern of the [title] element at the head of such an element. *)
Lemma match_at_title pos attrs t post :
  forallb not_gt attrs = true -> t <> [] -> no_lt t = true ->
  exists m,
    match_at no_flags re_html_title pos
      (lit "<title" ++ attrs ++ lit ">" ++ t ++ lit "</title>" ++ post) = Some m
    /\ group m 1 = JStr t.
Proof.
  intros Hattrs Hne Hlt. unfold match_at. rewrite re_html_title_shape.
  rewrite compile_seq, compile_chars by reflexivity.
  cbn [ms_rest]. rewrite startsWith_app, advance_by_app.
  rewrite compile_seq, star_class_greedy.
  rewrite (greedy_run_ext _ not_gt _ (fun ch => not_gt_class_any no_flags ch eq_refl)).
  cbn [ms_rest].
  erewrite (@greedy_run_first not_gt _ attrs 62%N (t ++ lit "</title>" ++ post));
    [ | reflexivity | exact Hattrs | reflexivity | ].
  2:{ rewrite compile_seq, compile_chars by reflexivity.
      change (attrs ++ 62%N :: t ++ lit "</title>" ++ post)
        with (attrs ++ lit ">" ++ t ++ lit "</title>" ++ post).
      rewrite advance_by_app. cbn [ms_rest]. rewrite startsWith_app, advance_by_app.
      apply (@group_plus_until no_flags 1 (lit "/title>") t post);
        [reflexivity|reflexivity|exact Hne|exact Hlt|reflexivity]. }
  eexists. split; [reflexivity|]. reflexivity.
Qed.

Lemma exec_title pre attrs t post :
  includes pre (lit "<title") = false ->
  forallb not_gt attrs = true -> t <> [] -> no_lt t = true ->
  exists m,
    exec no_flags re_html_title
      (pre ++ lit "<title" ++ attrs ++ lit ">" ++ t ++ lit "</title>" ++ post)
    = Some m
    /\ group m 1 = JStr t.
Proof.
  intros Hpre Hattrs Hne Hlt. unfold exec. rewrite exec_from_pre.
  - destruct (match_at_title (length pre + 0) attrs post Hattrs Hne Hlt)
      as (m & Hm & Hg).
    exists m. rewrite exec_from_unfold, Hm. auto.
  - intros k Hk. rewrite re_html_title_shape.
    apply match_at_head_fail; [reflexivity|].
    change (lit "<title" ++ attrs ++ lit ">" ++ t ++ lit "</title>" ++ post)
      with (60%N :: lit "title" ++ attrs ++ lit ">" ++ t ++ lit "</title>" ++ post).
    apply (@no_overlap (lit "title")); [reflexivity| |].
    + intros E. apply (f_equal (@length N)) in E. rewrite length_skipn in E.
      cbn in E. lia.
    + apply includes_false. exact Hpre.
Qed.

Lemma re_og_title_shape :
  exists r, re_og_title = RSeq (seq (map RChar (lit "<meta"))) r.
Proof. eexists. reflexivity. Qed.

Lemma re_twitter_title_shape :
  exists r, re_twitter_title = RSeq (seq (map RChar (lit "<meta"))) r.
Proof. eexists. reflexivity. Qed.

(** X18.  On a page without a [meta] element the title is the text of
    the first [title] element, with the first [ | Suno] in it taken out
    and the ends trimmed, or [null] when nothing is left. *)
Theorem title_tag_fallback (pre attrs t post : jstring) (v : jsval) :
  let html := pre ++ lit "<title" ++ attrs ++ lit ">" ++ t
                  ++ lit "</title>" ++ post in
  truthy v = false ->
  includes html (lit "<meta") = false ->
  includes pre (lit "<title") = false ->
  forallb not_gt attrs = true -> t <> [] -> no_lt t = true ->
  title_step html v
  = Ok (or_ (JStr (trim (replace_first t (lit " | Suno") []))) JNull).
Proof.
  cbv zeta. intros Hv Hmeta Hpre Hattrs Hne Hlt.
  assert (Hog : exec no_flags re_og_title
                  (pre ++ lit "<title" ++ attrs ++ lit ">" ++ t
                       ++ lit "</title>" ++ post) = None).
  { destruct re_og_title_shape as [r ->]. unfold exec.
    apply exec_from_head_fail; [reflexivity|exact (includes_false _ _ Hmeta)]. }
  assert (Htw : exec no_flags re_twitter_title
                  (pre ++ lit "<title" ++ attrs ++ lit ">" ++ t
                       ++ lit "</title>" ++ post) = None).
  { destruct re_twitter_title_shape as [r ->]. unfold exec.
    apply exec_from_head_fail; [reflexivity|exact (includes_false _ _ Hmeta)]. }
  unfold title_step. rewrite Hv. cbn [negb]. cbv zeta. rewrite Hog, Htw.
  cbn [truthy].
  destruct (exec_title pre attrs post Hpre Hattrs Hne Hlt) as (m & -> & ->).
  reflexivity.
Qed.

Lemma title_tag_fallback_witness :
  title_step (lit "<html><head><title>My Song | Suno</title></head></html>") JNull
  = Ok (JStr (lit "My Song")).
Proof.
  exact (@title_tag_fallback (lit "<html><head>") [] (lit "My Song | Suno")
           (lit "</head></html>") JNull eq_refl
           ltac:(vm_compute; reflexivity) ltac:(vm_compute; reflexivity)
           eq_refl ltac:(discriminate) ltac:(vm_compute; reflexivity)).
Defined.

(** *** The title and the artist from the markup *)

Lemma greedy_run_class ok k : forall r x z,
  greedy_run ok k x r = Some z ->
  exists y n, k y = Some z /\ ms_pos y = ms_pos x + n
              /\ forallb ok (firstn n r) = true
              /\ ms_caps y = ms_caps x.
Proof.
  induction r as [|ch r IH]; intros x z H; cbn [greedy_run] in H.
  - exists x, 0. rewrite Nat.add_0_r. auto.
  - destruct (ok ch) eqn:Hok;
      [|exists x, 0; rewrite Nat.add_0_r; auto].
    destruct (greedy_run ok k (advance x r) r) as [z'|] eqn:E;
      [|exists x, 0; rewrite Nat.add_0_r; auto].
    injection H as <-. destruct (IH _ _ E) as (y & n & Hy & Hp & Hf & Hc).
    exists y, (S n). cbn [advance ms_pos ms_caps] in *.
    split; [exact Hy|]. split; [lia|]. split; [|exact Hc].
    cbn [firstn forallb]. rewrite Hok, Hf. reflexivity.
Qed.

(** One or more characters of a class: what was read is not empty and
    holds characters of the class only. *)
Lemma plus_class_run fl negated items x k z :
  compile fl (plus (RClass negated items)) x k = Some z ->
  exists y, k y = Some z /\ ms_caps y = ms_caps x
            /\ firstn (ms_pos y - ms_pos x) (ms_rest x) <> []
            /\ forallb (class_ok fl negated items)
                 (firstn (ms_pos y - ms_pos x) (ms_rest x)) = true.
Proof.
  unfold plus.
  cbn [compile repeat_min max_is_zero groups clear_caps fold_left dec_max
       option_map].
  unfold char_matcher at 1.
  destruct (ms_rest x) as [|ch r] eqn:E; [discriminate|].
  destruct (class_ok fl negated items ch) eqn:Hok; [|discriminate].
  rewrite repeat_star_greedy_run by (cbn [advance ms_rest]; lia).
  intros H. apply greedy_run_class in H as (y & n & Hy & Hp & Hf & Hc).
  exists y. cbn [advance ms_pos ms_caps ms_rest] in *.
  split; [exact Hy|]. split; [exact Hc|].
  replace (ms_pos y - ms_pos x) with (S n) by lia.
  cbn [firstn forallb]. rewrite Hok, Hf. split; [discriminate|reflexivity].
Qed.

Lemma group_of_class_ok fl negated items : forall r k,
  group_of_class k r = Some (negated, items) ->
  forall x c z, compile fl r x c = Some z ->
  exists y, c y = Some z
            /\ length (ms_caps y) = length (ms_caps x)
            /\ (k < length (ms_caps x) ->
                exists t, nth k (ms_caps y) None = Some t /\ t <> []
                          /\ forallb (class_ok fl negated items) t = true).
Proof.
  induction r as [| a | | neg its | r1 IH1 r2 IH2 | r1 IH1 r2 IH2
                  | r IH min max greedy | i r IH | r IH | | ];
    intros k Hs x c z H; cbn [group_of_class] in Hs; try discriminate.
  - cbn [compile] in H. destruct (group_of_class k r2) as [cl|] eqn:E2.
    + injection Hs as ->.
      apply compile_through in H as (y1 & Hy1 & [L1 _]).
      destruct (IH2 k E2 _ _ _ Hy1) as (y & Hy & L & N2).
      exists y. split; [exact Hy|]. split; [congruence|].
      intros Hk. apply N2. rewrite L1. exact Hk.
    + destruct (existsb (Nat.eqb k) (cap_indices r2)) eqn:Hb; [discriminate|].
      destruct (IH1 k Hs _ _ _ H) as (y1 & Hy1 & L1 & N1).
      apply compile_through in Hy1 as (y & Hy & [L K]).
      exists y. split; [exact Hy|]. split; [congruence|].
      intros Hk. destruct (N1 Hk) as (t & Ht & Hne). exists t.
      split; [|exact Hne]. rewrite K; [exact Ht|].
      intros Hin.
      assert (existsb (Nat.eqb k) (cap_indices r2) = true); [|congruence].
      apply existsb_exists. exists k. split; [exact Hin|apply Nat.eqb_refl].
  - destruct (Nat.eqb (pred i) k) eqn:Ek.
    + destruct r as [| | | | | | r' min max greedy | | | |];
        try discriminate.
      destruct r' as [| | | neg its | | | | | | |]; try discriminate.
      destruct min as [|[|min]]; try discriminate.
      destruct max; try discriminate. destruct greedy; try discriminate.
      injection Hs as -> ->.
      apply Nat.eqb_eq in Ek. subst k.
      change (RQuant (RClass negated items) 1 None true)
        with (plus (RClass negated items)) in H.
      cbn [compile] in H.
      apply plus_class_run in H as (y & Hy & Hc & Hne & Hf).
      eexists. split; [exact Hy|]. cbn [set_cap ms_caps].
      rewrite set_nth_length, Hc. split; [reflexivity|].
      intros Hk. eexists. split; [apply set_nth_same; exact Hk|].
      split; [exact Hne|exact Hf].
    + cbn [compile] in H. destruct (IH k Hs _ _ _ H) as (y & Hy & L & N1).
      eexists. split; [exact Hy|]. cbn [set_cap ms_caps].
      rewrite set_nth_length. split; [exact L|].
      intros Hk. destruct (N1 Hk) as (t & Ht & Hne). exists t.
      split; [|exact Hne]. rewrite set_nth_other; [exact Ht|].
      apply Nat.eqb_neq in Ek. congruence.
Qed.

(** A group of one or more characters of a class captures a text that
    is not empty and holds characters of the class only. *)
Lemma group_in_class fl r i s res negated items :
  exec fl r s = Some res ->
  group_of_class (pred i) r = Some (negated, items) ->
  1 <= i <= ngroups r ->
  exists t, group res i = JStr t /\ t <> []
            /\ forallb (class_ok fl negated items) t = true.
Proof.
  intros E Hs Hi. apply exec_from_match_at in E as (pos & rest & E).
  unfold match_at in E.
  destruct (compile fl r _ _) as [z|] eqn:C; [|discriminate].
  injection E as <-.
  destruct (group_of_class_ok fl r _ Hs _ _ C) as (y & [= <-] & L & Hn).
  cbn [ms_caps] in Hn. rewrite repeat_length in Hn.
  destruct Hn as (t & Ht & Hne); [lia|].
  exists t. split; [|exact Hne]. unfold group. cbn [mr_groups]. rewrite Ht.
  reflexivity.
Qed.

Lemma quote_class_any t :
  forallb (class_ok no_flags true [CChar 34%N; CChar 39%N]) t = no_quote t.
Proof.
  unfold no_quote. induction t as [|ch t IH]; [reflexivity|].
  cbn [forallb]. rewrite IH. f_equal.
  unfold class_ok, class_mem. cbn [existsb item_mem ignoreCase no_flags andb].
  rewrite !orb_false_r, (N.eqb_sym 34 ch), (N.eqb_sym 39 ch).
  destruct (N.eqb ch 34), (N.eqb ch 39); reflexivity.
Qed.

Lemma lt_class_all t :
  forallb (class_ok no_flags true [CChar 60%N]) t = no_lt t.
Proof.
  unfold no_lt. induction t as [|ch t IH]; [reflexivity|].
  cbn [forallb]. rewrite IH. f_equal.
  unfold class_ok, class_mem. cbn [existsb item_mem ignoreCase no_flags andb].
  rewrite !orb_false_r, (N.eqb_sym 60 ch).
  destruct (N.eqb ch 60); reflexivity.
Qed.

(** The capture of a pattern of a [meta] element: a text that is not
    empty, holds no quote and is a part of the page. *)
Lemma meta_capture html r i m :
  exec no_flags r html = Some m ->
  group_of_class (pred i) r = Some (true, [CChar 34%N; CChar 39%N]) ->
  1 <= i <= ngroups r ->
  exists t, group m i = JStr t /\ t <> [] /\ no_quote t = true
            /\ part_of t html /\ truthy (JStr t) = true.
Proof.
  intros E Hs Hi.
  destruct (@group_in_class _ _ i _ _ _ _ E Hs Hi) as (t & G & Hne & Hf).
  exists t. split; [exact G|]. split; [exact Hne|].
  split; [rewrite <- quote_class_any; exact Hf|].
  split; [exact (group_part _ _ _ _ E G)|].
  destruct t; [congruence|reflexivity].
Qed.

(** X19.  A title or an artist that the markup gives is a capture of
    one of the four patterns of lines 183 to 192 on the page.  A title
    is the one the song gave; or the group of the match of the
    [og:title] pattern, or of the [twitter:title] pattern when the
    first finds nothing, a text without a quote; or the group of the
    match of the [title] pattern when neither finds anything, a text
    without [<], with [ | Suno] taken out and the ends trimmed; or
    [null] when no pattern matches.  An artist is the one the song
    gave, kept also when the description pattern finds nothing, or
    the second group of its match, a text without a quote, trimmed.
    Each of these groups is not empty and is a part of the page. *)
Theorem title_artist_from_page (html : jstring) (v w : jsval) :
  title_step html v = Ok w ->
  ((truthy v = true /\ w = v)
   \/ (exists m t,
         truthy v = false
         /\ (exec no_flags re_og_title html = Some m
             \/ (exec no_flags re_og_title html = None
                 /\ exec no_flags re_twitter_title html = Some m))
         /\ group m 1 = JStr t /\ w = JStr t
         /\ t <> [] /\ no_quote t = true /\ part_of t html)
   \/ (exists m t,
         truthy v = false
         /\ exec no_flags re_og_title html = None
         /\ exec no_flags re_twitter_title html = None
         /\ exec no_flags re_html_title html = Some m
         /\ group m 1 = JStr t
         /\ w = or_ (JStr (trim (replace_first t (lit " | Suno") []))) JNull
         /\ t <> [] /\ no_lt t = true /\ part_of t html)
   \/ (truthy v = false
       /\ exec no_flags re_og_title html = None
       /\ exec no_flags re_twitter_title html = None
       /\ exec no_flags re_html_title html = None
       /\ w = JNull))
  /\ (((truthy v = true \/ exec no_flags re_desc_by html = None)
       /\ artist_step html v = v)
      \/ exists m name,
           truthy v = false
           /\ exec no_flags re_desc_by html = Some m
           /\ group m 2 = JStr name
           /\ artist_step html v = JStr (trim name)
           /\ name <> [] /\ no_quote name = true /\ part_of name html).
Proof.
  intros H. split.
  - unfold title_step in H. destruct (truthy v) eqn:Tv; cbn [negb] in H;
      [injection H as <-; left; split; reflexivity|].
    cbv zeta in H. right.
    destruct (exec no_flags re_og_title html) as [m1|] eqn:E1.
    { destruct (@meta_capture html _ 1 m1 E1 eq_refl ltac:(cbv; lia))
        as (t & G & Hne & Hq & Hp & Ht).
      rewrite G, Ht in H. injection H as <-.
      left. exists m1, t. repeat split; auto. }
    cbn [truthy] in H.
    destruct (exec no_flags re_twitter_title html) as [m2|] eqn:E2.
    { destruct (@meta_capture html _ 1 m2 E2 eq_refl ltac:(cbv; lia))
        as (t & G & Hne & Hq & Hp & Ht).
      rewrite G, Ht in H. injection H as <-.
      left. exists m2, t. repeat split; auto. }
    cbn [truthy] in H. right.
    destruct (exec no_flags re_html_title html) as [m3|] eqn:E3.
    + destruct (@group_in_class _ _ 1 _ _ _ _ E3 eq_refl ltac:(cbv; lia))
        as (t & G & Hne & Hf).
      rewrite G in H. cbn [as_string bind] in H. injection H as <-.
      left. exists m3, t. rewrite lt_class_all in Hf.
      repeat split; auto. exact (group_part _ _ _ _ E3 G).
    + cbn [bind] in H. injection H as <-. right. repeat split; auto.
  - unfold artist_step. destruct (truthy v) eqn:Tv; cbn [negb];
      [left; split; [left|]; reflexivity|].
    destruct (exec no_flags re_desc_by html) as [m|] eqn:E;
      [|left; split; [right|]; reflexivity].
    destruct (@meta_capture html _ 2 m E eq_refl ltac:(cbv; lia))
      as (name & G & Hne & Hq & Hp & Ht).
    right. exists m, name. rewrite G.
    destruct name as [|c name]; [congruence|].
    repeat split; auto.
Qed.

Lemma title_artist_from_page_witness :
  title_step (lit "<meta name=`description` content=`Song by Alice`>") JNull
  = Ok JNull
  /\ artist_step (lit "<meta name=`description` content=`Song by Alice`>") JNull
     = JStr (lit "Alice")
  /\ part_of (lit "Alice") (lit "<meta name=`description` content=`Song by Alice`>").
Proof.
  assert (H : title_step (lit "<meta name=`description` content=`Song by Alice`>")
                JNull = Ok JNull) by (vm_compute; reflexivity).
  split; [exact H|]. split; [vm_compute; reflexivity|].
  destruct (proj2 (title_artist_from_page _ _ H))
    as [([E|E] & _)|(m & name & _ & _ & _ & E & _ & _ & Hp)].
  - discriminate E.
  - vm_compute in E. discriminate E.
  - exists (lit "<meta name=`description` content=`Song by "), (lit "`>").
    reflexivity.
Defined.

(** *** Texts without an escape *)

Lemma replace_from_none fl r f : forall s pos,
  (forall k, match_at fl r (k + pos) (skipn k s) = None) ->
  replace_from fl r f pos s 0 = s.
Proof.
  induction s as [|ch s IH]; intros pos H.
  - pose proof (H 0) as H0. cbn [skipn Nat.add] in H0.
    cbn [replace_from]. rewrite H0. reflexivity.
  - pose proof (H 0) as H0. cbn [skipn Nat.add] in H0.
    cbn [replace_from]. rewrite H0. f_equal. apply IH.
    intros k. replace (k + S pos) with (S k + pos) by lia. exact (H (S k)).
Qed.

Lemma forallb_skipn (A : Type) (p : A -> bool) : forall (s : list A) k,
  forallb p s = true -> forallb p (skipn k s) = true.
Proof.
  induction s as [|a s IH]; intros [|k] H; try exact H.
  cbn [skipn]. cbn [forallb] in H. apply andb_prop in H as [_ H]. exact (IH k H).
Qed.

(** A pattern that begins with a backslash does not match where no
    backslash is. *)
Lemma backslash_head_fail fl a r pos s :
  match s with [] => True | ch :: _ => N.eqb ch 92 = false end ->
  (match_at fl (RSeq (RChar 92%N) r) pos s = None)
  /\ (match_at fl (RSeq (RSeq (RChar 92%N) (RChar a)) r) pos s = None).
Proof.
  intros H. unfold match_at. cbn [compile]. unfold char_matcher.
  cbn [ms_rest]. destruct s as [|ch s]; [split; reflexivity|].
  assert (Hc : char_ok fl 92 ch = false).
  { unfold char_ok, canon, is_lower. apply N.eqb_neq in H.
    destruct (ignoreCase fl); cbn [andb];
      repeat match goal with
             | |- context [N.leb ?p ?q] => destruct (N.leb_spec p q)
             end; cbn [andb]; apply N.eqb_neq; lia. }
  rewrite Hc. split; reflexivity.
Qed.

(** X20.  On a text without a backslash the passes that undo escapes
    change nothing: the decoding of lyrics only trims the text, and the
    text of a streamed chunk is left as it is. *)
Theorem unescape_plain (text : jstring) :
  forallb (fun c => negb (N.eqb c 92)) text = true ->
  decode_lyrics text = trim text /\ unescape_chunk text = text.
Proof.
  intros H.
  assert (Hhead : forall k, match skipn k text with
                            | [] => True
                            | ch :: _ => N.eqb ch 92 = false
                            end).
  { intros k. pose proof (forallb_skipn _ text k H) as Hk.
    destruct (skipn k text) as [|ch s]; [exact I|].
    cbn [forallb] in Hk. apply andb_prop in Hk as [Hk _].
    apply negb_true_iff. exact Hk. }
  assert (Hn : forall by_, replace_all no_flags re_esc_n by_ text = text).
  { intros by_. apply replace_from_none. intros k.
    exact (proj1 (backslash_head_fail no_flags 0 (RChar 110%N) (k + 0) _ (Hhead k))). }
  assert (Hq : forall by_, replace_all no_flags re_esc_quote by_ text = text).
  { intros by_. apply replace_from_none. intros k.
    exact (proj1 (backslash_head_fail no_flags 0 (RChar 34%N) (k + 0) _ (Hhead k))). }
  assert (Hb : forall by_, replace_all no_flags re_esc_backslash by_ text = text).
  { intros by_. apply replace_from_none. intros k.
    exact (proj1 (backslash_head_fail no_flags 0 (RChar 92%N) (k + 0) _ (Hhead k))). }
  assert (Hu : forall f, replace_all_fn flag_i re_esc_u f text = text).
  { intros f. apply replace_from_none. intros k.
    exact (proj2 (backslash_head_fail flag_i 117
                    (RGroup 1 (RQuant hex_class 4 (Some 4) true)) (k + 0) _
                    (Hhead k))). }
  split.
  - unfold decode_lyrics. rewrite Hn, Hq, Hu. reflexivity.
  - unfold unescape_chunk. rewrite Hq, Hb. reflexivity.
Qed.

Lemma unescape_plain_witness :
  forallb (fun c => negb (N.eqb c 92)) (lit " [Verse] la la ") = true
  /\ decode_lyrics (lit " [Verse] la la ") = lit "[Verse] la la".
Proof.
  split; [reflexivity|].
  exact (proj1 (unescape_plain (lit " [Verse] la la ") eq_refl)).
Defined.

(** *** What the handlers can fail with *)

Lemma extract_page_total w url html : exists o, extract_page w url html = Ok o.
Proof.
  unfold extract_page.
  destruct (extract_next_data (exec no_flags re_next_data html)) as [s1 nd].
  assert (Hs : exists s2,
            (if negb (truthy s1) then from_scripts (scripts_of html) s1 else Ok s1)
            = Ok s2).
  { destruct (negb (truthy s1)); [apply from_scripts_total|eexists; reflexivity]. }
  destruct Hs as [s2 ->]. cbn [bind].
  destruct (negb (truthy s2) && negb (truthy nd)); eexists; reflexivity.
Qed.

Section Failures.
Variable Number_toString : number -> jstring.
Variable matchAll_of_pattern : jstring -> jstring -> option (list match_result).

Local Abbreviation parse_handler := (parse_handler Number_toString matchAll_of_pattern).

(** X21.  The failure reply of [/parse] carries the error of the fetch,
    or one of two type errors of the extraction: a method called on a
    value that has none, or a value that cannot be written into a
    template.  The pattern compiled at run time is never the cause, and
    no property is read on [undefined]. *)
Theorem parse_failure_kinds (w : World) (url : jstring) (fetched : fetch_result)
  (e : js_error) :
  parse_handler w url fetched = ParseFailed e ->
  fetch_text fetched = Throw e \/ e = NotAFunction \/ e = NotPrimitive.
Proof.
  unfold Server.parse_handler. destruct (negb (valid_url url)); [discriminate|].
  destruct (fetch_text fetched) as [html|e'] eqn:F; cbn [bind].
  - destruct (parse_page Number_toString matchAll_of_pattern url html)
      as [r|e'] eqn:P; [discriminate|].
    intros [= <-]. right.
    exact (parse_page_errors Number_toString matchAll_of_pattern url html P).
  - intros [= <-]. left. reflexivity.
Qed.

(** X22.  [/extract] fails only when the fetch fails: on every page that
    was fetched it sends a record or the not-found reply. *)
Theorem extract_fails_on_transport_only (w : World) (url : jstring)
  (fetched : fetch_result) (e : js_error) :
  extract_handler w url fetched = ExtractFailed e ->
  fetch_text fetched = Throw e
  /\ ((exists message, fetched = FetchRejects message /\ e = NetworkError message)
      \/ (exists status statusText body,
            fetched = Response status statusText body
            /\ response_ok status = false /\ e = HttpError status statusText)).
Proof.
  unfold extract_handler. destruct (negb (valid_url url)); [discriminate|].
  destruct fetched as [message|status statusText body]; cbn [fetch_text bind].
  - intros [= <-]. split; [reflexivity|]. left. exists message. auto.
  - destruct (response_ok status) eqn:S; cbn [bind].
    + destruct (extract_page_total w url body) as [o ->].
      destruct o; discriminate.
    + intros [= <-]. split; [reflexivity|]. right.
      exists status, statusText, body. auto.
Qed.

End Failures.

Lemma parse_failure_kinds_witness :
  parse_handler (fun _ => []) (fun _ _ => None) world_a song_url
    (Response 200 (lit "OK") page_number_title) = ParseFailed NotAFunction
  /\ fetch_text (Response 200 (lit "OK") page_number_title)
     = Ok page_number_title.
Proof.
  assert (H : parse_handler (fun _ => []) (fun _ _ => None) world_a song_url
                (Response 200 (lit "OK") page_number_title)
              = ParseFailed NotAFunction) by (vm_compute; reflexivity).
  split; [exact H|].
  destruct (parse_failure_kinds _ _ _ _ _ H) as [F|_]; [discriminate F|].
  reflexivity.
Defined.

Lemma extract_fails_on_transport_only_witness :
  extract_handler world_a song_url (Response 404 (lit "Not Found") [])
  = ExtractFailed (HttpError 404 (lit "Not Found"))
  /\ fetch_text (Response 404 (lit "Not Found") [])
     = Throw (HttpError 404 (lit "Not Found")).
Proof.
  assert (H : extract_handler world_a song_url (Response 404 (lit "Not Found") [])
              = ExtractFailed (HttpError 404 (lit "Not Found")))
    by (vm_compute; reflexivity).
  split; [exact H|]. exact (proj1 (extract_fails_on_transport_only _ _ _ H)).
Defined.

(** *** The order of the title sources *)

Lemma greedy_run_grows ok k : forall r x z,
  greedy_run ok k x r = Some z ->
  exists y, k y = Some z /\ ms_pos x <= ms_pos y
            /\ length (ms_caps y) = length (ms_caps x)
            /\ ms_caps y = ms_caps x.
Proof.
  induction r as [|ch r IH]; intros x z H; cbn [greedy_run] in H.
  - exists x. auto.
  - destruct (ok ch); [|exists x; auto].
    destruct (greedy_run ok k (advance x r) r) as [z'|] eqn:E.
    + injection H as <-. destruct (IH _ _ E) as (y & Hy & Hp & Hl & Hc).
      exists y. cbn [advance ms_pos ms_caps] in *. repeat split; auto. lia.
    + exists x. auto.
Qed.

(** One or more characters of a class: the continuation is reached
    further on, with the captures as they were. *)
Lemma plus_class_advances fl negated items x k z :
  compile fl (plus (RClass negated items)) x k = Some z ->
  exists y, k y = Some z /\ ms_pos x < ms_pos y /\ ms_rest x <> []
            /\ ms_caps y = ms_caps x.
Proof.
  unfold plus.
  cbn [compile repeat_min max_is_zero groups clear_caps fold_left dec_max
       option_map].
  unfold char_matcher at 1.
  destruct (ms_rest x) as [|ch r] eqn:E; [discriminate|].
  destruct (class_ok fl negated items ch); [|discriminate].
  rewrite repeat_star_greedy_run by (cbn [advance ms_rest]; lia).
  intros H. apply greedy_run_grows in H as (y & Hy & Hp & _ & Hc).
  exists y. cbn [advance ms_pos ms_caps] in *.
  split; [exact Hy|]. split; [lia|]. split; [|exact Hc].
  discriminate.
Qed.

Lemma fills_group_ok fl : forall r k, fills_group k r = true ->
  forall x c z, compile fl r x c = Some z ->
  exists y, c y = Some z
            /\ length (ms_caps y) = length (ms_caps x)
            /\ (k < length (ms_caps x) ->
                exists t, nth k (ms_caps y) None = Some t /\ t <> []).
Proof.
  induction r as [| a | | neg items | r1 IH1 r2 IH2 | r1 IH1 r2 IH2
                  | r IH min max greedy | i r IH | r IH | | ];
    intros k Hs x c z H; cbn [fills_group] in Hs; try discriminate.
  - cbn [compile] in H. apply orb_true_iff in Hs as [Hs|Hs].
    + apply andb_true_iff in Hs as [Ha Hb].
      destruct (IH1 k Ha _ _ _ H) as (y1 & Hy1 & L1 & N1).
      apply compile_through in Hy1 as (y & Hy & [L K]).
      exists y. split; [exact Hy|]. split; [congruence|].
      intros Hk. destruct (N1 Hk) as (t & Ht & Hne). exists t.
      split; [|exact Hne]. rewrite K; [exact Ht|].
      intros Hin. apply negb_true_iff in Hb.
      assert (existsb (Nat.eqb k) (cap_indices r2) = true); [|congruence].
      apply existsb_exists. exists k. split; [exact Hin|apply Nat.eqb_refl].
    + apply compile_through in H as (y1 & Hy1 & [L1 _]).
      destruct (IH2 k Hs _ _ _ Hy1) as (y & Hy & L & N2).
      exists y. split; [exact Hy|]. split; [congruence|].
      intros Hk. apply N2. rewrite L1. exact Hk.
  - apply orb_true_iff in Hs as [Hs|Hs]; apply andb_true_iff in Hs as [Ha Hb].
    + destruct r as [| | | | | | r' min max greedy | | | |];
        try discriminate.
      destruct r' as [| | | negated items | | | | | | |]; try discriminate.
      destruct min as [|[|min]]; try discriminate.
      destruct max; try discriminate. destruct greedy; try discriminate.
      apply Nat.eqb_eq in Hb. subst k.
      change (RQuant (RClass negated items) 1 None true)
        with (plus (RClass negated items)) in H.
      cbn [compile] in H.
      apply plus_class_advances in H as (y & Hy & Hp & Hr & Hc).
      eexists. split; [exact Hy|]. cbn [set_cap ms_caps].
      rewrite set_nth_length, Hc. split; [reflexivity|].
      intros Hk. eexists. split; [apply set_nth_same; exact Hk|].
      destruct (ms_rest x) as [|ch rest]; [congruence|].
      destruct (ms_pos y - ms_pos x) as [|n] eqn:D; [lia|]. discriminate.
    + cbn [compile] in H. destruct (IH k Hb _ _ _ H) as (y & Hy & L & N1).
      eexists. split; [exact Hy|]. cbn [set_cap ms_caps].
      rewrite set_nth_length. split; [exact L|].
      intros Hk. destruct (N1 Hk) as (t & Ht & Hne). exists t.
      split; [|exact Hne]. rewrite set_nth_other; [exact Ht|].
      apply negb_true_iff, Nat.eqb_neq in Ha. congruence.
Qed.

Lemma group_filled fl r i s res :
  exec fl r s = Some res ->
  fills_group (pred i) r = true -> 1 <= i <= ngroups r ->
  exists t, group res i = JStr t /\ t <> [].
Proof.
  intros E Hs Hi. apply exec_from_match_at in E as (pos & rest & E).
  unfold match_at in E.
  destruct (compile fl r _ _) as [z|] eqn:C; [|discriminate].
  injection E as <-.
  destruct (fills_group_ok fl r _ Hs _ _ C) as (y & [= <-] & L & Hn).
  cbn [ms_caps] in Hn. rewrite repeat_length in Hn.
  destruct Hn as (t & Ht & Hne); [lia|].
  exists t. split; [|exact Hne]. unfold group. cbn [mr_groups]. rewrite Ht.
  reflexivity.
Qed.

(** X23.  The sources of a title and of an artist that the song did not
    give, in their order: a match of the [og:title] pattern gives the
    title whatever the other patterns match; without one, a match of the
    [twitter:title] pattern does; without either, the [title] element
    does, with [ | Suno] taken out and the ends trimmed; with none the
    title is [null].  A match of the description pattern gives the
    artist, trimmed; without one the artist stays.  The captures used
    are never empty. *)
Theorem title_sources_in_order (html : jstring) (v : jsval) :
  truthy v = false ->
  (forall m, exec no_flags re_og_title html = Some m ->
     exists t, group m 1 = JStr t /\ t <> []
               /\ title_step html v = Ok (JStr t))
  /\ (exec no_flags re_og_title html = None ->
      forall m, exec no_flags re_twitter_title html = Some m ->
        exists t, group m 1 = JStr t /\ t <> []
                  /\ title_step html v = Ok (JStr t))
  /\ (exec no_flags re_og_title html = None ->
      exec no_flags re_twitter_title html = None ->
      forall m, exec no_flags re_html_title html = Some m ->
        exists t, group m 1 = JStr t /\ t <> []
                  /\ title_step html v
                     = Ok (or_ (JStr (trim (replace_first t (lit " | Suno") [])))
                               JNull))
  /\ (exec no_flags re_og_title html = None ->
      exec no_flags re_twitter_title html = None ->
      exec no_flags re_html_title html = None ->
      title_step html v = Ok JNull)
  /\ (forall m, exec no_flags re_desc_by html = Some m ->
        exists name, group m 2 = JStr name /\ name <> []
                     /\ artist_step html v = JStr (trim name))
  /\ (exec no_flags re_desc_by html = None -> artist_step html v = v).
Proof.
  intros Hv. unfold title_step, artist_step. rewrite Hv. cbn [negb]. cbv zeta.
  repeat split.
  - intros m E.
    destruct (@group_filled _ _ 1 _ _ E eq_refl ltac:(cbv; lia)) as (t & G & Hne).
    exists t. split; [exact G|]. split; [exact Hne|]. rewrite E, G.
    destruct t; [congruence|reflexivity].
  - intros E1 m E.
    destruct (@group_filled _ _ 1 _ _ E eq_refl ltac:(cbv; lia)) as (t & G & Hne).
    exists t. split; [exact G|]. split; [exact Hne|]. rewrite E1, E, G.
    destruct t; [congruence|reflexivity].
  - intros E1 E2 m E.
    destruct (@group_filled _ _ 1 _ _ E eq_refl ltac:(cbv; lia)) as (t & G & Hne).
    exists t. split; [exact G|]. split; [exact Hne|]. rewrite E1, E2, E, G.
    reflexivity.
  - intros E1 E2 E3. rewrite E1, E2, E3. reflexivity.
  - intros m E.
    destruct (@group_filled _ _ 2 _ _ E eq_refl ltac:(cbv; lia)) as (t & G & Hne).
    exists t. split; [exact G|]. split; [exact Hne|]. rewrite E, G.
    destruct t; [congruence|reflexivity].
  - intros E. rewrite E. reflexivity.
Qed.

Lemma title_sources_in_order_witness :
  truthy JNull = false
  /\ title_step page_two_titles JNull = Ok (JStr (lit "Meta")).
Proof.
  split; [reflexivity|].
  destruct (title_sources_in_order page_two_titles JNull eq_refl) as (H & _).
  assert (E : exists m, exec no_flags re_og_title page_two_titles = Some m
                        /\ group m 1 = JStr (lit "Meta"))
    by (eexists; split; vm_compute; reflexivity).
  destruct E as (m & E & Hm). destruct (H m E) as (t & G & _ & Ht).
  rewrite Ht. congruence.
Defined.
